(** * CodeBuddy: the room synchronisation engine

    A shallow embedding of the Socket.io handler of the server
    (server/src/socket/index.js, [initializeSocket], [debouncedSave],
    [handleLeaveRoom]), of the room snapshot model
    (server/src/models/RoomState.js, [getOrCreate]) and of the generator
    of room ids (server/src/routes/rooms.js and server/src/models/Room.js,
    [generateRoomId]).

    The module-level registries of the handler ([roomUsers], [roomHosts],
    [roomSettings], [saveTimers], [pendingSaves], [global.voiceRooms],
    [global.roomCursorPositions]), the connected sockets with the fields the
    handler stores on them, the rooms of the Socket.io adapter and the
    RoomState collection make up one [World].  Every inbound event is a
    function from a world to a new world and the list of effects it caused
    (messages sent to sockets, calls to the store, console errors), in
    program order.

    What the embedding takes for granted:
    - a handler runs to completion: the store calls it awaits are taken as
      synchronous, and of two listeners of one event the first finishes
      before the second starts;
    - payloads have the types the client gives them: ids, names and
      contents are strings, a field that may be missing or null is an
      option, and what the server only relays is a JSON value;
    - [socket.to(room)] reaches the sockets that joined the room, the
      sender excepted, and [io.to(room)] reaches all of them;
    - the clock, the random suffix of a message id and the outcome of each
      store call come from the environment of the run;
    - the lines written with [console.log] are left out, those written with
      [console.error] are effects. *)

From stdpp Require Import gmap strings list pretty.
From Stdlib Require Import ZArith NArith Ascii.

Open Scope string_scope.
Open Scope list_scope.

(** ** JavaScript values *)

(** Payload fields that the server only relays are kept as JSON values. *)
#[local] Unset Elimination Schemes.
Inductive json :=
| JNull
| JBool (b : bool)
| JNum (z : Z)
| JStr (s : string)
| JArr (l : list json)
| JObj (l : list (string * json)).
#[local] Set Elimination Schemes.

(** Truthiness of a string ([!roomId], [fileId && ...]): only the empty
    string is falsy. *)
Definition truthy_str (s : string) : bool := negb (String.eqb s "").

(** Truthiness of a field that may be [undefined] or [null]. *)
Definition truthy_opt (o : option string) : bool :=
  match o with
  | Some s => truthy_str s
  | None => false
  end.

Definition truthy_json (j : json) : bool :=
  match j with
  | JNull => false
  | JBool b => b
  | JNum z => negb (Z.eqb z 0)
  | JStr s => truthy_str s
  | JArr _ | JObj _ => true
  end.

(** [a || b] on possibly missing strings. *)
Definition js_or (a b : option string) : option string :=
  if truthy_opt a then a else b.

(** ASCII white space, as removed by [String.prototype.trim]. *)
Definition is_space (c : ascii) : bool :=
  let n := nat_of_ascii c in
  (n =? 32)%nat || ((9 <=? n)%nat && (n <=? 13)%nat).

Fixpoint trim_start (s : string) : string :=
  match s with
  | String c r => if is_space c then trim_start r else s
  | EmptyString => EmptyString
  end.

Fixpoint string_rev_onto (s acc : string) : string :=
  match s with
  | String c r => string_rev_onto r (String c acc)
  | EmptyString => acc
  end.

Definition string_rev (s : string) : string := string_rev_onto s "".

Definition trim (s : string) : string :=
  string_rev (trim_start (string_rev (trim_start s))).

(** ** The JavaScript [Map], which iterates in insertion order *)

Module JsMap.
Section with_value.
Context {V : Type}.

Fixpoint get (k : string) (m : list (string * V)) : option V :=
  match m with
  | [] => None
  | (k', v) :: r => if decide (k = k') then Some v else get k r
  end.

Definition has (k : string) (m : list (string * V)) : bool :=
  match get k m with Some _ => true | None => false end.

(** [set] on a key that is present keeps the key at its position; a new
    key goes last. *)
Fixpoint set (k : string) (v : V) (m : list (string * V)) : list (string * V) :=
  match m with
  | [] => [(k, v)]
  | (k', v') :: r => if decide (k = k') then (k, v) :: r else (k', v') :: set k v r
  end.

Fixpoint delete (k : string) (m : list (string * V)) : list (string * V) :=
  match m with
  | [] => []
  | (k', v') :: r => if decide (k = k') then delete k r else (k', v') :: delete k r
  end.

Definition keys (m : list (string * V)) : list string := m.*1.
Definition values (m : list (string * V)) : list V := m.*2.
Definition size (m : list (string * V)) : nat := length m.
End with_value.
End JsMap.

(** The JavaScript [Set] of strings and the array used as one. *)
Definition set_add (x : string) (l : list string) : list string :=
  if bool_decide (x ∈ l) then l else l ++ [x].

Definition set_remove (x : string) (l : list string) : list string :=
  filter (λ y, y ≠ x) l.

(** ** Data model *)

(** [socket.user]: the authenticated user or the guest identity. *)
Record User := {
  u_id : string;
  u_username : string;
  u_isGuest : bool
}.

(** An entry of [roomUsers.get(roomId)]. *)
Record UserInfo := {
  ui_id : string;
  ui_username : string;
  ui_isGuest : bool;
  ui_socketId : string
}.

Record Settings := { chatDisabled : bool }.

(** An entry of [global.voiceRooms.get(roomId)]. *)
Record VoiceEntry := {
  ve_peerId : string;
  ve_socketId : string;
  ve_isMuted : bool;
  ve_username : string
}.

(** An entry of [global.roomCursorPositions.get(roomId)]. *)
Record CursorData := {
  cd_username : string;
  cd_color : string;
  cd_position : option json
}.

(** The fields the handler keeps on a socket.  [sk_voiceParticipants] is the
    [voiceParticipants] map, which is declared inside the connection
    callback and so exists once per connection. *)
Record Socket := {
  sk_user : User;
  sk_roomId : option string;
  sk_displayName : option string;
  sk_voicePeerId : option string;
  sk_voiceParticipants : gmap string (list string)
}.

(** *** The RoomState document (models/RoomState.js) *)

Record CodeFile := {
  cf_id : string;
  cf_filename : string;
  cf_language : string;
  cf_content : string;
  cf_groupId : option string;
  cf_lastModified : N
}.

Record TabGroup := {
  tg_id : string;
  tg_name : string;
  tg_color : string;
  tg_collapsed : bool
}.

Record CanvasFile := {
  cv_id : option string;
  cv_name : option string;
  cv_fabricJSON : json;
  cv_createdAt : option N
}.

Record TerminalEntry := {
  te_id : string;
  te_filename : string;
  te_language : string;
  te_output : string;
  te_error : string;
  te_exitCode : Z;
  te_executionTime : Z;
  te_timestamp : string
}.

Record ChatMessage := {
  cm_id : string;
  cm_userId : string;
  cm_username : string;
  cm_message : string;
  cm_timestamp : N
}.

Record EditorSettings := {
  es_theme : string;
  es_fontSize : N;
  es_tabSize : N
}.

Record CanvasSettings := {
  cs_darkMode : bool;
  cs_backgroundMode : string
}.

Record RoomState := {
  rs_codeFiles : list CodeFile;
  rs_activeCodeFileId : string;
  rs_tabGroups : list TabGroup;
  rs_editorSettings : EditorSettings;
  rs_canvasFiles : list CanvasFile;
  rs_activeCanvasFileId : string;
  rs_canvasSettings : CanvasSettings;
  rs_terminalHistory : list TerminalEntry;
  rs_chatMessages : list ChatMessage;
  rs_version : N;
  rs_lastUpdated : N
}.

(** ** Messages from the server to a client *)

(** [user: {id, username, socketId}] of user-joined and user-left. *)
Record PublicUser := {
  pu_id : string;
  pu_username : string;
  pu_socketId : string
}.

(** The [state] object of room-state. *)
Record Snapshot := {
  st_codeFiles : list CodeFile;
  st_canvasFiles : list CanvasFile;
  st_chatMessages : list ChatMessage;
  st_terminalHistory : list TerminalEntry;
  st_activeCodeFileId : string;
  st_activeCanvasFileId : string
}.

(** The payload of canvas-full-sync: the fields the handlers test, and the
    fields they only pass through. *)
Record CanvasSync := {
  sy_type : option string;
  sy_data : option json;
  sy_fabricJSON : option json;
  sy_canvasId : option string;
  sy_rest : list (string * json)
}.

Inductive Msg :=
| RoomStateMsg (roomId : string) (state : Snapshot) (users : list UserInfo)
    (hostSocketId : option string) (chatDisabled : bool)
| UserJoined (user : PublicUser) (users : list UserInfo) (hostSocketId : option string)
| UserLeft (user : PublicUser) (users : list UserInfo) (hostSocketId : option string)
| ErrorMsg (message : string)
| CodeChange (fileId : string) (content : option string) (cursorPosition : option json)
    (userId username : string)
| FileCreate (file : CodeFile) (userId : string)
| FileDelete (fileId userId : string)
| FileRename (fileId newName userId : string)
| ActiveFileChange (fileId userId username : string)
| CursorPositionEditor (fileId : string) (position selection : option json)
    (userId username : string)
| CursorPositionRemote (socketId username color : string) (position : option json)
| TabGroupCreate (group : TabGroup)
| TabGroupUpdate (groupId : string) (updates : json)
| TabGroupDelete (groupId : string)
| CanvasObjectAdd (canvasId : string) (object : json) (objectId userId : string)
| CanvasObjectModify (canvasId objectId : string) (changes : json) (userId : string)
| CanvasObjectDelete (canvasId objectId userId : string)
| CanvasPathCreate (canvasId : string) (pathData : json) (userId : string)
| CanvasFullSyncTagged (payload : CanvasSync) (userId : string)
| CanvasFullSyncPlain (payload : CanvasSync)
| CanvasFileCreate (file : CanvasFile)
| CanvasFileSwitch (canvasId userId username : string)
| ChatMsg (chatMessage : ChatMessage)
| VoiceParticipants (participants : list VoiceEntry)
| VoiceParticipantIds (participants : list string)
| VoiceJoin (peerId socketId : string) (username : option string)
| VoiceLeave (peerId : string)
| VoiceMute (peerId : string) (isMuted : bool)
| VoiceMuteForced (socketId : string)
| TerminalOutput (entry : TerminalEntry)
| YouWereKicked (by_ : string)
| YouWereMuted (by_ : string)
| HostChanged (hostSocketId : string)
| ChatToggled (disabled : bool) (by_ : string)
| SessionEnded (by_ : string)
| HostError (message : string).

(** The Socket.io event name a message is emitted under. *)
Definition msg_name (m : Msg) : string :=
  match m with
  | RoomStateMsg _ _ _ _ _ => "room-state"
  | UserJoined _ _ _ => "user-joined"
  | UserLeft _ _ _ => "user-left"
  | ErrorMsg _ => "error"
  | CodeChange _ _ _ _ _ => "code-change"
  | FileCreate _ _ => "file-create"
  | FileDelete _ _ => "file-delete"
  | FileRename _ _ _ => "file-rename"
  | ActiveFileChange _ _ _ => "active-file-change"
  | CursorPositionEditor _ _ _ _ _ => "cursor-position"
  | CursorPositionRemote _ _ _ _ => "cursor-position"
  | TabGroupCreate _ => "tab-group-create"
  | TabGroupUpdate _ _ => "tab-group-update"
  | TabGroupDelete _ => "tab-group-delete"
  | CanvasObjectAdd _ _ _ _ => "canvas-object-add"
  | CanvasObjectModify _ _ _ _ => "canvas-object-modify"
  | CanvasObjectDelete _ _ _ => "canvas-object-delete"
  | CanvasPathCreate _ _ _ => "canvas-path-create"
  | CanvasFullSyncTagged _ _ => "canvas-full-sync"
  | CanvasFullSyncPlain _ => "canvas-full-sync"
  | CanvasFileCreate _ => "canvas-file-create"
  | CanvasFileSwitch _ _ _ => "canvas-file-switch"
  | ChatMsg _ => "chat-message"
  | VoiceParticipants _ => "voice-participants"
  | VoiceParticipantIds _ => "voice-participants"
  | VoiceJoin _ _ _ => "voice-join"
  | VoiceLeave _ => "voice-leave"
  | VoiceMute _ _ => "voice-mute"
  | VoiceMuteForced _ => "voice-mute"
  | TerminalOutput _ => "terminal-output"
  | YouWereKicked _ => "you-were-kicked"
  | YouWereMuted _ => "you-were-muted"
  | HostChanged _ => "host-changed"
  | ChatToggled _ _ => "chat-toggled"
  | SessionEnded _ => "session-ended"
  | HostError _ => "host-error"
  end.

(** ** Events from a client to the server *)

Inductive ClientEvent :=
| OnJoinRoom (roomId : string) (displayName : option string)
| OnLeaveRoom
| OnCodeChange (fileId : string) (content : option string) (cursorPosition : option json)
| OnFileCreate (file : CodeFile)
| OnFileDelete (fileId : string)
| OnFileRename (fileId newName : string)
| OnActiveFileChange (fileId : string)
| OnCursorPosition (fileId : string) (position selection : option json)
| OnTabGroupCreate (group : TabGroup)
| OnTabGroupUpdate (groupId : string) (updates : json)
| OnTabGroupDelete (groupId : string)
| OnCanvasObjectAdd (canvasId : string) (object : json) (objectId : string)
| OnCanvasObjectModify (canvasId objectId : string) (changes : json)
| OnCanvasObjectDelete (canvasId objectId : string)
| OnCanvasPathCreate (canvasId : string) (pathData : json)
| OnCanvasFullSync (payload : CanvasSync)
| OnCanvasFileCreate (file : CanvasFile)
| OnCanvasFileSwitch (canvasId : string)
| OnChatMessage (message : string)
| OnVoiceJoin (peerId : string) (voiceRoomId : option string)
| OnVoiceLeave (peerId : string) (voiceRoomId : option string)
| OnVoiceMute (peerId : string) (isMuted : bool) (voiceRoomId : option string)
| OnTerminalOutput (entry : TerminalEntry)
| OnRequestCursors
| OnHostKickUser (targetSocketId : string)
| OnHostMuteUser (targetSocketId : string)
| OnHostTransfer (targetSocketId : string)
| OnHostToggleChat (disabled : bool)
| OnHostEndSession.

(** The events that change a shared surface: code, files, groups, canvas,
    chat and terminal. *)
Definition is_mutation (e : ClientEvent) : bool :=
  match e with
  | OnCodeChange _ _ _ | OnFileCreate _ | OnFileDelete _ | OnFileRename _ _
  | OnTabGroupCreate _ | OnTabGroupUpdate _ _ | OnTabGroupDelete _
  | OnCanvasObjectAdd _ _ _ | OnCanvasObjectModify _ _ _
  | OnCanvasObjectDelete _ _ | OnCanvasPathCreate _ _ | OnCanvasFullSync _
  | OnCanvasFileCreate _ | OnChatMessage _ | OnTerminalOutput _ => true
  | _ => false
  end.

(** The name a client event arrives under; the server relays a mutation
    under the same name. *)
Definition event_name (e : ClientEvent) : string :=
  match e with
  | OnJoinRoom _ _ => "join-room"
  | OnLeaveRoom => "leave-room"
  | OnCodeChange _ _ _ => "code-change"
  | OnFileCreate _ => "file-create"
  | OnFileDelete _ => "file-delete"
  | OnFileRename _ _ => "file-rename"
  | OnActiveFileChange _ => "active-file-change"
  | OnCursorPosition _ _ _ => "cursor-position"
  | OnTabGroupCreate _ => "tab-group-create"
  | OnTabGroupUpdate _ _ => "tab-group-update"
  | OnTabGroupDelete _ => "tab-group-delete"
  | OnCanvasObjectAdd _ _ _ => "canvas-object-add"
  | OnCanvasObjectModify _ _ _ => "canvas-object-modify"
  | OnCanvasObjectDelete _ _ => "canvas-object-delete"
  | OnCanvasPathCreate _ _ => "canvas-path-create"
  | OnCanvasFullSync _ => "canvas-full-sync"
  | OnCanvasFileCreate _ => "canvas-file-create"
  | OnCanvasFileSwitch _ => "canvas-file-switch"
  | OnChatMessage _ => "chat-message"
  | OnVoiceJoin _ _ => "voice-join"
  | OnVoiceLeave _ _ => "voice-leave"
  | OnVoiceMute _ _ _ => "voice-mute"
  | OnTerminalOutput _ => "terminal-output"
  | OnRequestCursors => "request-cursors"
  | OnHostKickUser _ => "host-kick-user"
  | OnHostMuteUser _ => "host-mute-user"
  | OnHostTransfer _ => "host-transfer"
  | OnHostToggleChat _ => "host-toggle-chat"
  | OnHostEndSession => "host-end-session"
  end.

(** A message carries a mutation event when it is the message of that
    event with the payload the client sent; the user id and name the server
    adds are free. *)
Definition carries (e : ClientEvent) (m : Msg) : Prop :=
  match e, m with
  | OnCodeChange fileId content cursorPosition, CodeChange f c p _ _ =>
      f = fileId ∧ c = content ∧ p = cursorPosition
  | OnFileCreate file, FileCreate f _ => f = file
  | OnFileDelete fileId, FileDelete f _ => f = fileId
  | OnFileRename fileId newName, FileRename f n _ => f = fileId ∧ n = newName
  | OnTabGroupCreate group, TabGroupCreate g => g = group
  | OnTabGroupUpdate groupId updates, TabGroupUpdate g u =>
      g = groupId ∧ u = updates
  | OnTabGroupDelete groupId, TabGroupDelete g => g = groupId
  | OnCanvasObjectAdd canvasId object objectId, CanvasObjectAdd c o i _ =>
      c = canvasId ∧ o = object ∧ i = objectId
  | OnCanvasObjectModify canvasId objectId changes, CanvasObjectModify c i ch _ =>
      c = canvasId ∧ i = objectId ∧ ch = changes
  | OnCanvasObjectDelete canvasId objectId, CanvasObjectDelete c i _ =>
      c = canvasId ∧ i = objectId
  | OnCanvasPathCreate canvasId pathData, CanvasPathCreate c p _ =>
      c = canvasId ∧ p = pathData
  | OnCanvasFullSync payload, CanvasFullSyncTagged p _ => p = payload
  | OnCanvasFullSync payload, CanvasFullSyncPlain p => p = payload
  | OnCanvasFileCreate file, CanvasFileCreate f => f = file
  | OnChatMessage message, ChatMsg chatMessage => cm_message chatMessage = message
  | OnTerminalOutput entry, TerminalOutput en => en = entry
  | _, _ => False
  end.

(** The operations reserved to the host. *)
Definition is_privileged (e : ClientEvent) : bool :=
  match e with
  | OnHostKickUser _ | OnHostMuteUser _ | OnHostTransfer _
  | OnHostToggleChat _ | OnHostEndSession => true
  | _ => false
  end.

(** ** The persistence store (the RoomState collection) *)

(** The calls the handler makes on the RoomState model.  Every update is a
    [findOneAndUpdate] without upsert: it changes nothing when no document
    matches its filter. *)
Inductive StoreCall :=
| FindOne (roomId : string)
| Create (roomId : string) (doc : RoomState)
| SetFileContent (roomId fileId content : string) (lastModified lastUpdated : N)
| SetFilename (roomId fileId newName : string) (lastModified lastUpdated : N)
| PushCodeFile (roomId : string) (file : CodeFile)
| PullCodeFile (roomId fileId : string)
| PushTabGroup (roomId : string) (group : TabGroup)
| PullTabGroup (roomId groupId : string)
| SetCanvasJSON (roomId canvasId : string) (fabricJSON : json) (date : N)
| SetFirstCanvasJSON (roomId : string) (data : json) (date : N)
| PushCanvasFile (roomId : string) (file : CanvasFile)
| PushChatMessage (roomId : string) (chatMessage : ChatMessage)
| PushTerminalEntry (roomId : string) (entry : TerminalEntry).

Definition set_codeFiles (v : list CodeFile) (d : RoomState) : RoomState :=
  {| rs_codeFiles := v; rs_activeCodeFileId := rs_activeCodeFileId d;
     rs_tabGroups := rs_tabGroups d; rs_editorSettings := rs_editorSettings d;
     rs_canvasFiles := rs_canvasFiles d;
     rs_activeCanvasFileId := rs_activeCanvasFileId d;
     rs_canvasSettings := rs_canvasSettings d;
     rs_terminalHistory := rs_terminalHistory d;
     rs_chatMessages := rs_chatMessages d; rs_version := rs_version d;
     rs_lastUpdated := rs_lastUpdated d |}.

Definition set_tabGroups (v : list TabGroup) (d : RoomState) : RoomState :=
  {| rs_codeFiles := rs_codeFiles d; rs_activeCodeFileId := rs_activeCodeFileId d;
     rs_tabGroups := v; rs_editorSettings := rs_editorSettings d;
     rs_canvasFiles := rs_canvasFiles d;
     rs_activeCanvasFileId := rs_activeCanvasFileId d;
     rs_canvasSettings := rs_canvasSettings d;
     rs_terminalHistory := rs_terminalHistory d;
     rs_chatMessages := rs_chatMessages d; rs_version := rs_version d;
     rs_lastUpdated := rs_lastUpdated d |}.

Definition set_canvasFiles (v : list CanvasFile) (d : RoomState) : RoomState :=
  {| rs_codeFiles := rs_codeFiles d; rs_activeCodeFileId := rs_activeCodeFileId d;
     rs_tabGroups := rs_tabGroups d; rs_editorSettings := rs_editorSettings d;
     rs_canvasFiles := v;
     rs_activeCanvasFileId := rs_activeCanvasFileId d;
     rs_canvasSettings := rs_canvasSettings d;
     rs_terminalHistory := rs_terminalHistory d;
     rs_chatMessages := rs_chatMessages d; rs_version := rs_version d;
     rs_lastUpdated := rs_lastUpdated d |}.

Definition set_terminalHistory (v : list TerminalEntry) (d : RoomState) : RoomState :=
  {| rs_codeFiles := rs_codeFiles d; rs_activeCodeFileId := rs_activeCodeFileId d;
     rs_tabGroups := rs_tabGroups d; rs_editorSettings := rs_editorSettings d;
     rs_canvasFiles := rs_canvasFiles d;
     rs_activeCanvasFileId := rs_activeCanvasFileId d;
     rs_canvasSettings := rs_canvasSettings d;
     rs_terminalHistory := v;
     rs_chatMessages := rs_chatMessages d; rs_version := rs_version d;
     rs_lastUpdated := rs_lastUpdated d |}.

Definition set_chatMessages (v : list ChatMessage) (d : RoomState) : RoomState :=
  {| rs_codeFiles := rs_codeFiles d; rs_activeCodeFileId := rs_activeCodeFileId d;
     rs_tabGroups := rs_tabGroups d; rs_editorSettings := rs_editorSettings d;
     rs_canvasFiles := rs_canvasFiles d;
     rs_activeCanvasFileId := rs_activeCanvasFileId d;
     rs_canvasSettings := rs_canvasSettings d;
     rs_terminalHistory := rs_terminalHistory d;
     rs_chatMessages := v; rs_version := rs_version d;
     rs_lastUpdated := rs_lastUpdated d |}.

Definition set_lastUpdated (v : N) (d : RoomState) : RoomState :=
  {| rs_codeFiles := rs_codeFiles d; rs_activeCodeFileId := rs_activeCodeFileId d;
     rs_tabGroups := rs_tabGroups d; rs_editorSettings := rs_editorSettings d;
     rs_canvasFiles := rs_canvasFiles d;
     rs_activeCanvasFileId := rs_activeCanvasFileId d;
     rs_canvasSettings := rs_canvasSettings d;
     rs_terminalHistory := rs_terminalHistory d;
     rs_chatMessages := rs_chatMessages d; rs_version := rs_version d;
     rs_lastUpdated := v |}.

Definition set_content (c : string) (date : N) (f : CodeFile) : CodeFile :=
  {| cf_id := cf_id f; cf_filename := cf_filename f; cf_language := cf_language f;
     cf_content := c; cf_groupId := cf_groupId f; cf_lastModified := date |}.

Definition set_filename (n : string) (date : N) (f : CodeFile) : CodeFile :=
  {| cf_id := cf_id f; cf_filename := n; cf_language := cf_language f;
     cf_content := cf_content f; cf_groupId := cf_groupId f;
     cf_lastModified := date |}.

Definition set_fabricJSON (j : json) (f : CanvasFile) : CanvasFile :=
  {| cv_id := cv_id f; cv_name := cv_name f; cv_fabricJSON := j;
     cv_createdAt := cv_createdAt f |}.

(** The positional operator [$]: the update applies to the first array
    element that matches the filter. *)
Fixpoint update_first {A} (p : A → bool) (f : A → A) (l : list A) : list A :=
  match l with
  | [] => []
  | x :: r => if p x then f x :: r else x :: update_first p f r
  end.

(** [$push] with [$each: [x]] and [$slice: -n]: append, then keep the last
    [n] elements. *)
Definition push_slice {A} (n : nat) (x : A) (l : list A) : list A :=
  drop (length (l ++ [x]) - n) (l ++ [x]).

Definition has_file (fileId : string) (f : CodeFile) : bool :=
  bool_decide (cf_id f = fileId).

Definition has_canvas (canvasId : string) (f : CanvasFile) : bool :=
  bool_decide (cv_id f = Some canvasId).

(** The effect of an update on the document it matched; [None] when the
    array filter of the call matches no element. *)
Definition update_doc (c : StoreCall) (d : RoomState) : option RoomState :=
  match c with
  | FindOne _ | Create _ _ => Some d
  | SetFileContent _ fileId content lastModified lastUpdated =>
      if existsb (has_file fileId) (rs_codeFiles d)
      then Some (set_lastUpdated lastUpdated
             (set_codeFiles
                (update_first (has_file fileId)
                   (set_content content lastModified)
                   (rs_codeFiles d)) d))
      else None
  | SetFilename _ fileId newName lastModified lastUpdated =>
      if existsb (has_file fileId) (rs_codeFiles d)
      then Some (set_lastUpdated lastUpdated
             (set_codeFiles
                (update_first (has_file fileId)
                   (set_filename newName lastModified)
                   (rs_codeFiles d)) d))
      else None
  | PushCodeFile _ file => Some (set_codeFiles (rs_codeFiles d ++ [file]) d)
  | PullCodeFile _ fileId =>
      Some (set_codeFiles
              (filter (λ f, cf_id f ≠ fileId) (rs_codeFiles d)) d)
  | PushTabGroup _ group => Some (set_tabGroups (rs_tabGroups d ++ [group]) d)
  | PullTabGroup _ groupId =>
      Some (set_tabGroups
              (filter (λ g, tg_id g ≠ groupId) (rs_tabGroups d)) d)
  | SetCanvasJSON _ canvasId fabricJSON date =>
      if existsb (has_canvas canvasId) (rs_canvasFiles d)
      then Some (set_lastUpdated date
             (set_canvasFiles
                (update_first (has_canvas canvasId) (set_fabricJSON fabricJSON)
                   (rs_canvasFiles d)) d))
      else None
  | SetFirstCanvasJSON _ data date =>
      Some (set_lastUpdated date
        (set_canvasFiles
           match rs_canvasFiles d with
           | [] => [ {| cv_id := None; cv_name := None; cv_fabricJSON := data;
                        cv_createdAt := None |} ]
           | f :: r => set_fabricJSON data f :: r
           end d))
  | PushCanvasFile _ file => Some (set_canvasFiles (rs_canvasFiles d ++ [file]) d)
  | PushChatMessage _ chatMessage =>
      Some (set_chatMessages (push_slice 100 chatMessage (rs_chatMessages d)) d)
  | PushTerminalEntry _ entry =>
      Some (set_terminalHistory (push_slice 50 entry (rs_terminalHistory d)) d)
  end.

Definition call_room (c : StoreCall) : string :=
  match c with
  | FindOne r | Create r _ | SetFileContent r _ _ _ _ | SetFilename r _ _ _ _
  | PushCodeFile r _ | PullCodeFile r _ | PushTabGroup r _ | PullTabGroup r _
  | SetCanvasJSON r _ _ _ | SetFirstCanvasJSON r _ _ | PushCanvasFile r _
  | PushChatMessage r _ | PushTerminalEntry r _ => r
  end.

(** A store call carried out on the collection, one document per room id. *)
Definition apply_call (c : StoreCall) (db : gmap string RoomState)
  : gmap string RoomState :=
  match c with
  | FindOne _ => db
  | Create roomId doc => <[roomId := doc]> db
  | _ =>
      match db !! call_room c with
      | Some d =>
          match update_doc c d with
          | Some d' => <[call_room c := d']> db
          | None => db
          end
      | None => db
      end
  end.

(** ** Effects and the world *)

(** The places where the handler reports a caught error on the console. *)
Inductive ErrorSite :=
| SaveError (roomId : string)
| JoinRoomError
| FileCreateSaveError
| FileDeleteSaveError
| FileRenameSaveError
| TabGroupCreateError
| TabGroupDeleteError
| CanvasSaveError
| CanvasFileCreateError
| ChatSaveError
| TerminalSaveError.

Inductive Effect :=
| Emit (to : string) (m : Msg)
| Store (c : StoreCall) (ok : bool)
| ConsoleError (site : ErrorSite).

(** What the environment decides during one handler run: the successive
    readings of the clock, the random suffix of a chat message id, and
    which of the store calls of the run fail (a lost connection, a value
    the schema of the model rejects). *)
Record Env := {
  now : nat → N;
  random : string;
  storeFails : nat → bool
}.

(** A pending [setTimeout]: the room its callback closes over and the time
    it is due. *)
Record Timeout := {
  to_roomId : string;
  to_due : N
}.

Record World := {
  roomUsers : gmap string (list (string * UserInfo));
  roomHosts : gmap string string;
  roomSettings : gmap string Settings;
  saveTimers : gmap string nat;
  pendingSaves : gmap string (list (string * string));
  timeouts : gmap nat Timeout;
  nextTimeout : nat;
  voiceRooms : gmap string (list VoiceEntry);
  roomCursorPositions : gmap string (list (string * CursorData));
  sockets : gmap string Socket;
  rooms : gmap string (list string);
  store : gmap string RoomState
}.

Definition init : World :=
  {| roomUsers := ∅; roomHosts := ∅; roomSettings := ∅; saveTimers := ∅;
     pendingSaves := ∅; timeouts := ∅; nextTimeout := 0; voiceRooms := ∅;
     roomCursorPositions := ∅; sockets := ∅; rooms := ∅; store := ∅ |}.

(** Assignment to one registry of the world. *)
Definition with_roomUsers (v : gmap string (list (string * UserInfo))) (w : World) : World :=
  {| roomUsers := v; roomHosts := roomHosts w; roomSettings := roomSettings
     w; saveTimers := saveTimers w; pendingSaves := pendingSaves w; timeouts
     := timeouts w; nextTimeout := nextTimeout w; voiceRooms := voiceRooms w;
     roomCursorPositions := roomCursorPositions w; sockets := sockets w;
     rooms := rooms w; store := store w |}.

Definition with_roomHosts (v : gmap string string) (w : World) : World :=
  {| roomUsers := roomUsers w; roomHosts := v; roomSettings := roomSettings
     w; saveTimers := saveTimers w; pendingSaves := pendingSaves w; timeouts
     := timeouts w; nextTimeout := nextTimeout w; voiceRooms := voiceRooms w;
     roomCursorPositions := roomCursorPositions w; sockets := sockets w;
     rooms := rooms w; store := store w |}.

Definition with_roomSettings (v : gmap string Settings) (w : World) : World :=
  {| roomUsers := roomUsers w; roomHosts := roomHosts w; roomSettings := v;
     saveTimers := saveTimers w; pendingSaves := pendingSaves w; timeouts :=
     timeouts w; nextTimeout := nextTimeout w; voiceRooms := voiceRooms w;
     roomCursorPositions := roomCursorPositions w; sockets := sockets w;
     rooms := rooms w; store := store w |}.

Definition with_saveTimers (v : gmap string nat) (w : World) : World :=
  {| roomUsers := roomUsers w; roomHosts := roomHosts w; roomSettings :=
     roomSettings w; saveTimers := v; pendingSaves := pendingSaves w;
     timeouts := timeouts w; nextTimeout := nextTimeout w; voiceRooms :=
     voiceRooms w; roomCursorPositions := roomCursorPositions w; sockets :=
     sockets w; rooms := rooms w; store := store w |}.

Definition with_pendingSaves (v : gmap string (list (string * string))) (w : World) : World :=
  {| roomUsers := roomUsers w; roomHosts := roomHosts w; roomSettings :=
     roomSettings w; saveTimers := saveTimers w; pendingSaves := v; timeouts
     := timeouts w; nextTimeout := nextTimeout w; voiceRooms := voiceRooms w;
     roomCursorPositions := roomCursorPositions w; sockets := sockets w;
     rooms := rooms w; store := store w |}.

Definition with_timeouts (v : gmap nat Timeout) (w : World) : World :=
  {| roomUsers := roomUsers w; roomHosts := roomHosts w; roomSettings :=
     roomSettings w; saveTimers := saveTimers w; pendingSaves := pendingSaves
     w; timeouts := v; nextTimeout := nextTimeout w; voiceRooms := voiceRooms
     w; roomCursorPositions := roomCursorPositions w; sockets := sockets w;
     rooms := rooms w; store := store w |}.

Definition with_nextTimeout (v : nat) (w : World) : World :=
  {| roomUsers := roomUsers w; roomHosts := roomHosts w; roomSettings :=
     roomSettings w; saveTimers := saveTimers w; pendingSaves := pendingSaves
     w; timeouts := timeouts w; nextTimeout := v; voiceRooms := voiceRooms w;
     roomCursorPositions := roomCursorPositions w; sockets := sockets w;
     rooms := rooms w; store := store w |}.

Definition with_voiceRooms (v : gmap string (list VoiceEntry)) (w : World) : World :=
  {| roomUsers := roomUsers w; roomHosts := roomHosts w; roomSettings :=
     roomSettings w; saveTimers := saveTimers w; pendingSaves := pendingSaves
     w; timeouts := timeouts w; nextTimeout := nextTimeout w; voiceRooms :=
     v; roomCursorPositions := roomCursorPositions w; sockets := sockets w;
     rooms := rooms w; store := store w |}.

Definition with_roomCursorPositions (v : gmap string (list (string * CursorData))) (w : World) : World :=
  {| roomUsers := roomUsers w; roomHosts := roomHosts w; roomSettings :=
     roomSettings w; saveTimers := saveTimers w; pendingSaves := pendingSaves
     w; timeouts := timeouts w; nextTimeout := nextTimeout w; voiceRooms :=
     voiceRooms w; roomCursorPositions := v; sockets := sockets w; rooms :=
     rooms w; store := store w |}.

Definition with_sockets (v : gmap string Socket) (w : World) : World :=
  {| roomUsers := roomUsers w; roomHosts := roomHosts w; roomSettings :=
     roomSettings w; saveTimers := saveTimers w; pendingSaves := pendingSaves
     w; timeouts := timeouts w; nextTimeout := nextTimeout w; voiceRooms :=
     voiceRooms w; roomCursorPositions := roomCursorPositions w; sockets :=
     v; rooms := rooms w; store := store w |}.

Definition with_rooms (v : gmap string (list string)) (w : World) : World :=
  {| roomUsers := roomUsers w; roomHosts := roomHosts w; roomSettings :=
     roomSettings w; saveTimers := saveTimers w; pendingSaves := pendingSaves
     w; timeouts := timeouts w; nextTimeout := nextTimeout w; voiceRooms :=
     voiceRooms w; roomCursorPositions := roomCursorPositions w; sockets :=
     sockets w; rooms := v; store := store w |}.

Definition with_store (v : gmap string RoomState) (w : World) : World :=
  {| roomUsers := roomUsers w; roomHosts := roomHosts w; roomSettings :=
     roomSettings w; saveTimers := saveTimers w; pendingSaves := pendingSaves
     w; timeouts := timeouts w; nextTimeout := nextTimeout w; voiceRooms :=
     voiceRooms w; roomCursorPositions := roomCursorPositions w; sockets :=
     sockets w; rooms := rooms w; store := v |}.

(** Assignment to one field of a socket. *)
Definition with_sk_user (v : User) (s : Socket) : Socket :=
  {| sk_user := v; sk_roomId := sk_roomId s; sk_displayName := sk_displayName
     s; sk_voicePeerId := sk_voicePeerId s; sk_voiceParticipants :=
     sk_voiceParticipants s |}.

Definition with_sk_roomId (v : option string) (s : Socket) : Socket :=
  {| sk_user := sk_user s; sk_roomId := v; sk_displayName := sk_displayName
     s; sk_voicePeerId := sk_voicePeerId s; sk_voiceParticipants :=
     sk_voiceParticipants s |}.

Definition with_sk_displayName (v : option string) (s : Socket) : Socket :=
  {| sk_user := sk_user s; sk_roomId := sk_roomId s; sk_displayName := v;
     sk_voicePeerId := sk_voicePeerId s; sk_voiceParticipants :=
     sk_voiceParticipants s |}.

Definition with_sk_voicePeerId (v : option string) (s : Socket) : Socket :=
  {| sk_user := sk_user s; sk_roomId := sk_roomId s; sk_displayName :=
     sk_displayName s; sk_voicePeerId := v; sk_voiceParticipants :=
     sk_voiceParticipants s |}.

Definition with_sk_voiceParticipants (v : gmap string (list string)) (s : Socket) : Socket :=
  {| sk_user := sk_user s; sk_roomId := sk_roomId s; sk_displayName :=
     sk_displayName s; sk_voicePeerId := sk_voicePeerId s;
     sk_voiceParticipants := v |}.

(** ** Sending *)

(** The sockets that joined a room of the adapter. *)
Definition room_sockets (w : World) (room : string) : list string :=
  default [] (rooms w !! room).

(** [io.to(room).emit(...)]: every socket of the room. *)
Definition io_to (w : World) (room : string) (m : Msg) : list Effect :=
  (λ t, Emit t m) <$> room_sockets w room.

(** [socket.to(room).emit(...)]: every socket of the room but the sender. *)
Definition socket_to (w : World) (sid room : string) (m : Msg) : list Effect :=
  (λ t, Emit t m) <$> filter (λ t, t ≠ sid) (room_sockets w room).

(** [socket.emit(...)]. *)
Definition socket_emit (sid : string) (m : Msg) : list Effect := [Emit sid m].

(** [socket.join(room)] and [socket.leave(room)]. *)
Definition adapter_join (sid room : string) (w : World) : World :=
  with_rooms (<[room := set_add sid (room_sockets w room)]> (rooms w)) w.

Definition adapter_leave (sid room : string) (w : World) : World :=
  with_rooms (<[room := set_remove sid (room_sockets w room)]> (rooms w)) w.

(** A store call awaited inside [try], with its [catch] reporting on the
    console. *)
Definition try_store (fails : bool) (c : StoreCall) (site : ErrorSite) (w : World)
  : World * list Effect :=
  if fails then (w, [Store c false; ConsoleError site])
  else (with_store (apply_call c (store w)) w, [Store c true]).

Definition update_socket (sid : string) (f : Socket → Socket) (w : World) : World :=
  with_sockets (alter f sid (sockets w)) w.

(** The room a socket is in, when [socket.roomId] is truthy. *)
Definition joined_room (s : Socket) : option string :=
  match sk_roomId s with
  | Some r => if truthy_str r then Some r else None
  | None => None
  end.

(** ** The write coalescer: [debouncedSave] and its timer callback *)

Definition debouncedSave (env : Env) (roomId fileId : string)
    (content : option string) (w : World) : World :=
  (* clear the existing timer *)
  let w1 := match saveTimers w !! roomId with
            | Some h => with_timeouts (delete h (timeouts w)) w
            | None => w
            end in
  (* track the pending file update *)
  let w2 := match content with
            | Some c =>
                if truthy_str fileId
                then with_pendingSaves
                       (<[roomId := JsMap.set fileId c
                                      (default [] (pendingSaves w1 !! roomId))]>
                          (pendingSaves w1)) w1
                else w1
            | None => w1
            end in
  (* set the new timer: 2 seconds from now *)
  let h := nextTimeout w2 in
  with_saveTimers (<[roomId := h]> (saveTimers w2))
    (with_timeouts
       (<[h := {| to_roomId := roomId; to_due := (now env 0 + 2000)%N |}]>
          (timeouts w2))
       (with_nextTimeout (S h) w2)).

(** The loop over the pending files; it stops at the first store call that
    throws.  The result tells whether the loop ran to its end. *)
Fixpoint save_files (env : Env) (roomId : string) (k : nat)
    (files : list (string * string)) (db : gmap string RoomState)
  : gmap string RoomState * list Effect * bool :=
  match files with
  | [] => (db, [], true)
  | (fId, fContent) :: rest =>
      let c := SetFileContent roomId fId fContent
                 (now env (2 * k + 1)) (now env (2 * k + 2)) in
      if storeFails env k then (db, [Store c false], false)
      else
        let '(db', eff, ok) := save_files env roomId (S k) rest (apply_call c db) in
        (db', Store c true :: eff, ok)
  end.

(** The callback of the timer set by [debouncedSave]. *)
Definition flush (env : Env) (roomId : string) (w : World) : World * list Effect :=
  let '(w1, eff) :=
    match pendingSaves w !! roomId with
    | Some filesToSave =>
        if (0 <? JsMap.size filesToSave)%nat then
          let '(db, eff, ok) := save_files env roomId 0 filesToSave (store w) in
          if ok then
            (with_pendingSaves (delete roomId (pendingSaves w)) (with_store db w),
             eff)
          else (with_store db w, eff ++ [ConsoleError (SaveError roomId)])
        else (w, [])
    | None => (w, [])
    end in
  (with_saveTimers (delete roomId (saveTimers w1)) w1, eff).

(** A pending timeout fires once it is due. *)
Definition fire (env : Env) (h : nat) (w : World) : World * list Effect :=
  match timeouts w !! h with
  | Some t =>
      if (to_due t <=? now env 0)%N
      then flush env (to_roomId t) (with_timeouts (delete h (timeouts w)) w)
      else (w, [])
  | None => (w, [])
  end.

(** ** RoomState.getOrCreate *)

Definition newline : string := String (ascii_of_nat 10) "".
Definition dquote : string := String (ascii_of_nat 34) "".

Definition welcome_content : string :=
  ("# Welcome to CodeBuddy!" ++ newline ++ "# Start coding here..." ++ newline
   ++ newline ++ "print(" ++ dquote ++ "Hello, World!" ++ dquote ++ ")"
   ++ newline)%string.

(** The document [getOrCreate] creates for a new room; [version] is the
    schema default 1 incremented by the pre-save hook, which also stamps
    [lastUpdated]. *)
Definition default_state (env : Env) : RoomState :=
  {| rs_codeFiles :=
       [ {| cf_id := pretty (now env 0); cf_filename := "main.py";
            cf_language := "python"; cf_content := welcome_content;
            cf_groupId := None; cf_lastModified := now env 1 |} ];
     rs_activeCodeFileId := pretty (now env 2);
     rs_tabGroups := [];
     rs_editorSettings :=
       {| es_theme := "vs-dark"; es_fontSize := 14; es_tabSize := 4 |};
     rs_canvasFiles :=
       [ {| cv_id := Some (pretty (now env 3) +:+ "-canvas");
            cv_name := Some "Untitled Canvas";
            cv_fabricJSON :=
              JObj [("objects", JArr []); ("background", JStr "transparent")];
            cv_createdAt := Some (now env 4) |} ];
     rs_activeCanvasFileId := pretty (now env 5) +:+ "-canvas";
     rs_canvasSettings := {| cs_darkMode := false; cs_backgroundMode := "plain" |};
     rs_terminalHistory := [];
     rs_chatMessages := [];
     rs_version := 2;
     rs_lastUpdated := now env 6 |}.

(** [None] stands for an exception thrown by one of the two store calls. *)
Definition getOrCreate (env : Env) (roomId : string) (w : World)
  : World * list Effect * option RoomState :=
  if storeFails env 0 then (w, [Store (FindOne roomId) false], None)
  else
    match store w !! roomId with
    | Some state => (w, [Store (FindOne roomId) true], Some state)
    | None =>
        let c := Create roomId (default_state env) in
        if storeFails env 1
        then (w, [Store (FindOne roomId) true; Store c false], None)
        else (with_store (apply_call c (store w)) w,
              [Store (FindOne roomId) true; Store c true],
              Some (default_state env))
    end.

(** ** Connection and room management *)

(** The guest identity given by the authentication middleware. *)
Definition guest (sid : string) : User :=
  {| u_id := "guest-" +:+ sid;
     u_username := "Guest-" +:+ String.substring 0 6 sid;
     u_isGuest := true |}.

Definition fresh_socket (sid : string) (auth : option User) : Socket :=
  {| sk_user := default (guest sid) auth; sk_roomId := None;
     sk_displayName := None; sk_voicePeerId := None;
     sk_voiceParticipants := ∅ |}.

(** A new connection: [auth] is the user found for a valid token, if any.
    Socket.io puts every socket in the room named by its own id. *)
Definition connect (sid : string) (auth : option User) (w : World) : World :=
  match sockets w !! sid with
  | Some _ => w
  | None =>
      with_sockets (<[sid := fresh_socket sid auth]> (sockets w))
        (adapter_join sid sid w)
  end.

Definition user_info (sid : string) (u : User) : UserInfo :=
  {| ui_id := u_id u; ui_username := u_username u; ui_isGuest := u_isGuest u;
     ui_socketId := sid |}.

Definition public_user (sid : string) (u : User) : PublicUser :=
  {| pu_id := u_id u; pu_username := u_username u; pu_socketId := sid |}.

Definition rename (n : string) (u : User) : User :=
  {| u_id := u_id u; u_username := n; u_isGuest := u_isGuest u |}.

Definition snapshot_of (d : RoomState) : Snapshot :=
  {| st_codeFiles := rs_codeFiles d; st_canvasFiles := rs_canvasFiles d;
     st_chatMessages := rs_chatMessages d;
     st_terminalHistory := rs_terminalHistory d;
     st_activeCodeFileId := rs_activeCodeFileId d;
     st_activeCanvasFileId := rs_activeCanvasFileId d |}.

(** The members of a room, in the iteration order of its [Map]. *)
Definition members (w : World) (roomId : string) : list (string * UserInfo) :=
  default [] (roomUsers w !! roomId).

(** join-room, the fields it sets on the socket: [roomId], and the trimmed
    display name when one is given. *)
Definition join_socket (roomId : string) (displayName : option string)
    (s : Socket) : Socket :=
  let s1 := with_sk_roomId (Some roomId) s in
  match displayName with
  | Some d =>
      if truthy_str d && truthy_str (trim d)
      then with_sk_displayName (Some (trim d))
             (with_sk_user (rename (trim d) (sk_user s1)) s1)
      else s1
  | None => s1
  end.

(** join-room up to its first [await]: the socket joins the adapter room
    and is entered in the registries. *)
Definition join_registries (sid roomId : string) (displayName : option string)
    (s : Socket) (w : World) : World :=
  let s2 := join_socket roomId displayName s in
  let w1 := with_sockets (<[sid := s2]> (sockets w)) (adapter_join sid roomId w) in
  (* track the user in the room *)
  let users := JsMap.set sid (user_info sid (sk_user s2)) (members w1 roomId) in
  let w2 := with_roomUsers (<[roomId := users]> (roomUsers w1)) w1 in
  (* set the host if this is the first user of the room *)
  let w3 := match roomHosts w2 !! roomId with
            | Some _ => w2
            | None => with_roomHosts (<[roomId := sid]> (roomHosts w2)) w2
            end in
  (* initialise the room settings if needed *)
  match roomSettings w3 !! roomId with
  | Some _ => w3
  | None =>
      with_roomSettings
        (<[roomId := {| chatDisabled := false |}]> (roomSettings w3)) w3
  end.

(** join-room *)
Definition on_join_room (env : Env) (sid roomId : string)
    (displayName : option string) (w : World) : World * list Effect :=
  match sockets w !! sid with
  | None => (w, [])
  | Some s =>
      let s2 := join_socket roomId displayName s in
      let w4 := join_registries sid roomId displayName s w in
      let hostSocketId := roomHosts w4 !! roomId in
      let disabled :=
        match roomSettings w4 !! roomId with
        | Some settings => chatDisabled settings
        | None => false
        end in
      (* fetch the state from the database *)
      let '(w5, eff, got) := getOrCreate env roomId w4 in
      match got with
      | Some roomState =>
          (w5,
           eff
           ++ socket_emit sid
                (RoomStateMsg roomId (snapshot_of roomState)
                   (JsMap.values (members w5 roomId)) hostSocketId disabled)
           ++ socket_to w5 sid roomId
                (UserJoined (public_user sid (sk_user s2))
                   (JsMap.values (members w5 roomId)) hostSocketId))
      | None =>
          (w5,
           eff ++ [ConsoleError JoinRoomError;
                   Emit sid (ErrorMsg "Failed to join room")])
      end
  end.

(** [handleLeaveRoom(socket, io)] *)
Definition handleLeaveRoom (sid : string) (w : World) : World * list Effect :=
  match sockets w !! sid with
  | None => (w, [])
  | Some s =>
      match joined_room s with
      | None => (w, [])
      | Some roomId =>
          let '(w4, eff) :=
            match roomUsers w !! roomId with
            | None => (w, [])
            | Some users =>
                (* remove from the room users *)
                let remaining := JsMap.delete sid users in
                let w1 := with_roomUsers (<[roomId := remaining]> (roomUsers w)) w in
                (* the host leaves: transfer to the next user *)
                let '(w2, e1) :=
                  if bool_decide (roomHosts w1 !! roomId = Some sid) then
                    match JsMap.keys remaining with
                    | newHostId :: _ =>
                        (with_roomHosts (<[roomId := newHostId]> (roomHosts w1)) w1,
                         io_to w1 roomId (HostChanged newHostId))
                    | [] => (w1, [])
                    end
                  else (w1, []) in
                (* notify the others *)
                let e2 :=
                  socket_to w2 sid roomId
                    (UserLeft (public_user sid (sk_user s))
                       (JsMap.values remaining) (roomHosts w2 !! roomId)) in
                (* clean up an empty room *)
                let w3 :=
                  if (JsMap.size remaining =? 0)%nat then
                    with_roomSettings (delete roomId (roomSettings w2))
                      (with_roomHosts (delete roomId (roomHosts w2))
                         (with_roomUsers (delete roomId (roomUsers w2)) w2))
                  else w2 in
                (w3, e1 ++ e2)
            end in
          (update_socket sid (with_sk_roomId None) (adapter_leave sid roomId w4),
           eff)
      end
  end.

(** The disconnect handler.  The socket has left its adapter rooms by the
    time the handler runs; afterwards it is gone from [io.sockets.sockets]. *)
Definition on_disconnect (sid : string) (w : World) : World * list Effect :=
  match sockets w !! sid with
  | None => (w, [])
  | Some _ =>
      let w1 := with_rooms (set_remove sid <$> rooms w) w in
      let '(w2, eff) := handleLeaveRoom sid w1 in
      (with_sockets (delete sid (sockets w2)) w2, eff)
  end.

(** ** Surface handlers *)

(** The common shape: return when [socket.roomId] is falsy, else run the
    body with the socket and its room. *)
Definition in_room (sid : string) (w : World)
    (body : Socket → string → World * list Effect) : World * list Effect :=
  match sockets w !! sid with
  | Some s =>
      match joined_room s with
      | Some roomId => body s roomId
      | None => (w, [])
      end
  | None => (w, [])
  end.

(** Broadcast to the others, then one store call inside [try]. *)
Definition relay_and_store (env : Env) (sid roomId : string) (m : Msg)
    (c : StoreCall) (site : ErrorSite) (w : World) : World * list Effect :=
  let '(w1, eff) := try_store (storeFails env 0) c site w in
  (w1, socket_to w sid roomId m ++ eff).

Definition on_code_change (env : Env) (sid fileId : string)
    (content : option string) (cursorPosition : option json) (w : World)
  : World * list Effect :=
  in_room sid w (λ s roomId,
    (debouncedSave env roomId fileId content w,
     socket_to w sid roomId
       (CodeChange fileId content cursorPosition (u_id (sk_user s))
          (u_username (sk_user s))))).

Definition on_file_create (env : Env) (sid : string) (file : CodeFile) (w : World)
  : World * list Effect :=
  in_room sid w (λ s roomId,
    relay_and_store env sid roomId (FileCreate file (u_id (sk_user s)))
      (PushCodeFile roomId file) FileCreateSaveError w).

Definition on_file_delete (env : Env) (sid fileId : string) (w : World)
  : World * list Effect :=
  in_room sid w (λ s roomId,
    relay_and_store env sid roomId (FileDelete fileId (u_id (sk_user s)))
      (PullCodeFile roomId fileId) FileDeleteSaveError w).

Definition on_file_rename (env : Env) (sid fileId newName : string) (w : World)
  : World * list Effect :=
  in_room sid w (λ s roomId,
    relay_and_store env sid roomId (FileRename fileId newName (u_id (sk_user s)))
      (SetFilename roomId fileId newName (now env 0) (now env 1))
      FileRenameSaveError w).

Definition on_active_file_change (sid fileId : string) (w : World)
  : World * list Effect :=
  in_room sid w (λ s roomId,
    (w, socket_to w sid roomId
          (ActiveFileChange fileId (u_id (sk_user s)) (u_username (sk_user s))))).

Definition on_tab_group_create (env : Env) (sid : string) (group : TabGroup)
    (w : World) : World * list Effect :=
  in_room sid w (λ s roomId,
    relay_and_store env sid roomId (TabGroupCreate group)
      (PushTabGroup roomId group) TabGroupCreateError w).

Definition on_tab_group_update (sid groupId : string) (updates : json) (w : World)
  : World * list Effect :=
  in_room sid w (λ s roomId,
    (w, socket_to w sid roomId (TabGroupUpdate groupId updates))).

Definition on_tab_group_delete (env : Env) (sid groupId : string) (w : World)
  : World * list Effect :=
  in_room sid w (λ s roomId,
    relay_and_store env sid roomId (TabGroupDelete groupId)
      (PullTabGroup roomId groupId) TabGroupDeleteError w).

Definition on_canvas_object_add (sid canvasId : string) (object : json)
    (objectId : string) (w : World) : World * list Effect :=
  in_room sid w (λ s roomId,
    (w, socket_to w sid roomId
          (CanvasObjectAdd canvasId object objectId (u_id (sk_user s))))).

Definition on_canvas_object_modify (sid canvasId objectId : string)
    (changes : json) (w : World) : World * list Effect :=
  in_room sid w (λ s roomId,
    (w, socket_to w sid roomId
          (CanvasObjectModify canvasId objectId changes (u_id (sk_user s))))).

Definition on_canvas_object_delete (sid canvasId objectId : string) (w : World)
  : World * list Effect :=
  in_room sid w (λ s roomId,
    (w, socket_to w sid roomId
          (CanvasObjectDelete canvasId objectId (u_id (sk_user s))))).

Definition on_canvas_path_create (sid canvasId : string) (pathData : json)
    (w : World) : World * list Effect :=
  in_room sid w (λ s roomId,
    (w, socket_to w sid roomId
          (CanvasPathCreate canvasId pathData (u_id (sk_user s))))).

(** canvas-full-sync has two listeners; this is the first one registered. *)
Definition on_canvas_full_sync_1 (env : Env) (sid : string) (payload : CanvasSync)
    (w : World) : World * list Effect :=
  in_room sid w (λ s roomId,
    let e := socket_to w sid roomId
               (CanvasFullSyncTagged payload (u_id (sk_user s))) in
    match sy_fabricJSON payload, sy_canvasId payload with
    | Some fabricJSON, Some canvasId =>
        if truthy_json fabricJSON && truthy_str canvasId then
          let '(w1, eff) :=
            try_store (storeFails env 0)
              (SetCanvasJSON roomId canvasId fabricJSON (now env 0))
              CanvasSaveError w in
          (w1, e ++ eff)
        else (w, e)
    | _, _ => (w, e)
    end).

(** The second canvas-full-sync listener; its store call is the second of
    the run. *)
Definition on_canvas_full_sync_2 (env : Env) (sid : string) (data : CanvasSync)
    (w : World) : World * list Effect :=
  in_room sid w (λ s roomId,
    let e := socket_to w sid roomId (CanvasFullSyncPlain data) in
    match sy_data data with
    | Some d =>
        if bool_decide (sy_type data = Some "full-canvas") && truthy_json d then
          let '(w1, eff) :=
            try_store (storeFails env 1)
              (SetFirstCanvasJSON roomId d (now env 1)) CanvasSaveError w in
          (w1, e ++ eff)
        else (w, e)
    | None => (w, e)
    end).

(** Two listeners of one event run one after the other. *)
Definition and_then (f g : World → World * list Effect) (w : World)
  : World * list Effect :=
  let '(w1, e1) := f w in
  let '(w2, e2) := g w1 in
  (w2, e1 ++ e2).

Definition on_canvas_full_sync (env : Env) (sid : string) (payload : CanvasSync)
  : World → World * list Effect :=
  and_then (on_canvas_full_sync_1 env sid payload)
           (on_canvas_full_sync_2 env sid payload).

Definition on_canvas_file_create (env : Env) (sid : string) (file : CanvasFile)
    (w : World) : World * list Effect :=
  in_room sid w (λ s roomId,
    relay_and_store env sid roomId (CanvasFileCreate file)
      (PushCanvasFile roomId file) CanvasFileCreateError w).

Definition on_canvas_file_switch (sid canvasId : string) (w : World)
  : World * list Effect :=
  in_room sid w (λ s roomId,
    (w, socket_to w sid roomId
          (CanvasFileSwitch canvasId (u_id (sk_user s)) (u_username (sk_user s))))).

(** chat-message: the message is built by the server and sent to the whole
    room, the sender included. *)
Definition on_chat_message (env : Env) (sid message : string) (w : World)
  : World * list Effect :=
  in_room sid w (λ s roomId,
    let chatMessage :=
      {| cm_id := "msg-" +:+ pretty (now env 0) +:+ "-" +:+ random env;
         cm_userId := u_id (sk_user s);
         cm_username := u_username (sk_user s);
         cm_message := message;
         cm_timestamp := now env 1 |} in
    let '(w1, eff) :=
      try_store (storeFails env 0) (PushChatMessage roomId chatMessage)
        ChatSaveError w in
    (w1, io_to w roomId (ChatMsg chatMessage) ++ eff)).

Definition on_terminal_output (env : Env) (sid : string) (entry : TerminalEntry)
    (w : World) : World * list Effect :=
  in_room sid w (λ s roomId,
    relay_and_store env sid roomId (TerminalOutput entry)
      (PushTerminalEntry roomId entry) TerminalSaveError w).

(** ** Cursors *)

Definition cursorColors : list string :=
  ["#FF6B6B"; "#4ECDC4"; "#FFE66D"; "#A78BFA"; "#F472B6"; "#34D399";
   "#60A5FA"; "#FBBF24"].

Fixpoint char_code_sum (s : string) : nat :=
  match s with
  | String c r => nat_of_ascii c + char_code_sum r
  | EmptyString => 0
  end.

(** The colour is derived from the user name. *)
Definition cursor_color (username : string) : string :=
  default "" (cursorColors !! (char_code_sum username `mod` length cursorColors)).

(** The first cursor-position listener. *)
Definition on_cursor_position_1 (sid fileId : string)
    (position selection : option json) (w : World) : World * list Effect :=
  in_room sid w (λ s roomId,
    (w, socket_to w sid roomId
          (CursorPositionEditor fileId position selection (u_id (sk_user s))
             (u_username (sk_user s))))).

(** The second cursor-position listener keeps the last position of every
    socket of the room. *)
Definition on_cursor_position_2 (sid : string) (position : option json)
    (w : World) : World * list Effect :=
  in_room sid w (λ s roomId,
    let username :=
      if truthy_str (u_username (sk_user s)) then u_username (sk_user s)
      else "Guest-" +:+ String.substring 0 6 sid in
    let color := cursor_color username in
    let cursors := default [] (roomCursorPositions w !! roomId) in
    let entry := {| cd_username := username; cd_color := color;
                    cd_position := position |} in
    (with_roomCursorPositions
       (<[roomId := JsMap.set sid entry cursors]> (roomCursorPositions w)) w,
     socket_to w sid roomId (CursorPositionRemote sid username color position))).

Definition on_cursor_position (sid fileId : string)
    (position selection : option json) : World → World * list Effect :=
  and_then (on_cursor_position_1 sid fileId position selection)
           (on_cursor_position_2 sid position).

Definition on_request_cursors (sid : string) (w : World) : World * list Effect :=
  in_room sid w (λ s roomId,
    match roomCursorPositions w !! roomId with
    | Some cursors =>
        (w, (λ p : string * CursorData,
               Emit sid (CursorPositionRemote p.1 (cd_username p.2)
                           (cd_color p.2) (cd_position p.2)))
            <$> filter (λ p : string * CursorData, p.1 ≠ sid) cursors)
    | None => (w, [])
    end).

(** ** Voice presence *)

Definition has_peer (peerId : string) (p : VoiceEntry) : bool :=
  bool_decide (ve_peerId p = peerId).

(** [array.splice(idx, 1)] at the first index that matches. *)
Fixpoint remove_first {A} (p : A → bool) (l : list A) : list A :=
  match l with
  | [] => []
  | x :: r => if p x then r else x :: remove_first p r
  end.

Definition set_muted (m : bool) (p : VoiceEntry) : VoiceEntry :=
  {| ve_peerId := ve_peerId p; ve_socketId := ve_socketId p; ve_isMuted := m;
     ve_username := ve_username p |}.

(** The first voice-join listener, on [global.voiceRooms]. *)
Definition on_voice_join_1 (sid peerId : string) (voiceRoomId : option string)
    (w : World) : World * list Effect :=
  match sockets w !! sid with
  | None => (w, [])
  | Some s =>
      match js_or (sk_roomId s) voiceRoomId with
      | Some roomId =>
          if truthy_str roomId then
            let voiceRoom := default [] (voiceRooms w !! roomId) in
            let e1 := socket_emit sid
                        (VoiceParticipants
                           (filter (λ p, ve_peerId p ≠ peerId) voiceRoom)) in
            let voiceRoom' :=
              if existsb (has_peer peerId) voiceRoom then voiceRoom
              else voiceRoom ++
                     [ {| ve_peerId := peerId; ve_socketId := sid;
                          ve_isMuted := true;
                          ve_username := u_username (sk_user s) |} ] in
            let w1 := with_voiceRooms (<[roomId := voiceRoom']> (voiceRooms w)) w in
            let w2 := update_socket sid (with_sk_voicePeerId (Some peerId)) w1 in
            (w2, e1 ++ io_to w2 roomId
                         (VoiceJoin peerId sid (Some (u_username (sk_user s)))))
          else (w, [])
      | None => (w, [])
      end
  end.

(** The second voice-join listener, on the [voiceParticipants] of the
    connection; [socket.username] is never assigned, so the name it sends
    is undefined. *)
Definition on_voice_join_2 (sid peerId : string) (voiceRoomId : option string)
    (w : World) : World * list Effect :=
  match sockets w !! sid with
  | None => (w, [])
  | Some s =>
      match js_or voiceRoomId (sk_roomId s) with
      | Some roomId =>
          if truthy_str roomId then
            let peers :=
              set_add peerId (default [] (sk_voiceParticipants s !! roomId)) in
            let w1 :=
              update_socket sid
                (with_sk_voiceParticipants
                   (<[roomId := peers]> (sk_voiceParticipants s))) w in
            let existing := filter (λ p, p ≠ peerId) peers in
            (w1,
             socket_to w1 sid roomId (VoiceJoin peerId sid None)
             ++ (if (0 <? length existing)%nat
                 then socket_emit sid (VoiceParticipantIds existing) else []))
          else (w, [])
      | None => (w, [])
      end
  end.

Definition on_voice_join (sid peerId : string) (voiceRoomId : option string)
  : World → World * list Effect :=
  and_then (on_voice_join_1 sid peerId voiceRoomId)
           (on_voice_join_2 sid peerId voiceRoomId).

Definition on_voice_leave_1 (sid peerId : string) (w : World)
  : World * list Effect :=
  in_room sid w (λ s roomId,
    let w1 := match voiceRooms w !! roomId with
              | Some voiceRoom =>
                  with_voiceRooms
                    (<[roomId := remove_first (has_peer peerId) voiceRoom]>
                       (voiceRooms w)) w
              | None => w
              end in
    let w2 := update_socket sid (with_sk_voicePeerId None) w1 in
    (w2, io_to w2 roomId (VoiceLeave peerId))).

Definition on_voice_leave_2 (sid peerId : string) (voiceRoomId : option string)
    (w : World) : World * list Effect :=
  match sockets w !! sid with
  | None => (w, [])
  | Some s =>
      match js_or voiceRoomId (sk_roomId s) with
      | Some roomId =>
          if truthy_str roomId then
            let w1 :=
              match sk_voiceParticipants s !! roomId with
              | Some peers =>
                  update_socket sid
                    (with_sk_voiceParticipants
                       (<[roomId := set_remove peerId peers]>
                          (sk_voiceParticipants s))) w
              | None => w
              end in
            (w1, socket_to w1 sid roomId (VoiceLeave peerId))
          else (w, [])
      | None => (w, [])
      end
  end.

Definition on_voice_leave (sid peerId : string) (voiceRoomId : option string)
  : World → World * list Effect :=
  and_then (on_voice_leave_1 sid peerId) (on_voice_leave_2 sid peerId voiceRoomId).

Definition on_voice_mute_1 (sid peerId : string) (isMuted : bool) (w : World)
  : World * list Effect :=
  in_room sid w (λ s roomId,
    let w1 := match voiceRooms w !! roomId with
              | Some voiceRoom =>
                  with_voiceRooms
                    (<[roomId := update_first (has_peer peerId) (set_muted isMuted)
                                   voiceRoom]> (voiceRooms w)) w
              | None => w
              end in
    (w1, io_to w1 roomId (VoiceMute peerId isMuted))).

Definition on_voice_mute_2 (sid peerId : string) (isMuted : bool)
    (voiceRoomId : option string) (w : World) : World * list Effect :=
  match sockets w !! sid with
  | None => (w, [])
  | Some s =>
      match js_or voiceRoomId (sk_roomId s) with
      | Some roomId =>
          if truthy_str roomId
          then (w, socket_to w sid roomId (VoiceMute peerId isMuted))
          else (w, [])
      | None => (w, [])
      end
  end.

Definition on_voice_mute (sid peerId : string) (isMuted : bool)
    (voiceRoomId : option string) : World → World * list Effect :=
  and_then (on_voice_mute_1 sid peerId isMuted)
           (on_voice_mute_2 sid peerId isMuted voiceRoomId).

(** ** Host controls *)

(** [isHost(socket)] *)
Definition isHost (sid : string) (w : World) : bool :=
  match sockets w !! sid with
  | Some s =>
      match joined_room s with
      | Some roomId => bool_decide (roomHosts w !! roomId = Some sid)
      | None => false
      end
  | None => false
  end.

(** The gate every host handler starts with; the body runs with the host's
    socket and room. *)
Definition host_only (sid : string) (message : string) (w : World)
    (body : Socket → string → World * list Effect) : World * list Effect :=
  if isHost sid w then in_room sid w body
  else (w, socket_emit sid (HostError message)).

Definition on_host_kick_user (sid targetSocketId : string) (w : World)
  : World * list Effect :=
  host_only sid "Only the host can kick users" w (λ s roomId,
    match sockets w !! targetSocketId with
    | Some targetSocket =>
        if bool_decide (sk_roomId targetSocket = Some roomId) then
          let '(w1, eff) := handleLeaveRoom targetSocketId w in
          (w1, socket_emit targetSocketId (YouWereKicked (u_username (sk_user s)))
               ++ eff)
        else (w, [])
    | None => (w, [])
    end).

Definition on_host_mute_user (sid targetSocketId : string) (w : World)
  : World * list Effect :=
  host_only sid "Only the host can mute users" w (λ s roomId,
    (w, io_to w targetSocketId (YouWereMuted (u_username (sk_user s)))
        ++ io_to w roomId (VoiceMuteForced targetSocketId))).

Definition on_host_transfer (sid targetSocketId : string) (w : World)
  : World * list Effect :=
  host_only sid "Only the host can transfer host role" w (λ s roomId,
    match roomUsers w !! roomId with
    | Some users =>
        if JsMap.has targetSocketId users then
          let w1 := with_roomHosts (<[roomId := targetSocketId]> (roomHosts w)) w in
          (w1, io_to w1 roomId (HostChanged targetSocketId))
        else (w, [])
    | None => (w, [])
    end).

Definition on_host_toggle_chat (sid : string) (disabled : bool) (w : World)
  : World * list Effect :=
  host_only sid "Only the host can toggle chat" w (λ s roomId,
    let w1 := match roomSettings w !! roomId with
              | Some _ =>
                  with_roomSettings
                    (<[roomId := {| chatDisabled := disabled |}]> (roomSettings w)) w
              | None => w
              end in
    (w1, io_to w1 roomId (ChatToggled disabled (u_username (sk_user s))))).

(** The loop of host-end-session over the socket ids of the room. *)
Fixpoint leave_all (ids : list string) (w : World) : World * list Effect :=
  match ids with
  | [] => (w, [])
  | socketId :: rest =>
      let '(w1, e1) := handleLeaveRoom socketId w in
      let '(w2, e2) := leave_all rest w1 in
      (w2, e1 ++ e2)
  end.

Definition on_host_end_session (sid : string) (w : World) : World * list Effect :=
  host_only sid "Only the host can end the session" w (λ s roomId,
    let e := io_to w roomId (SessionEnded (u_username (sk_user s))) in
    let roomSocketIds := JsMap.keys (members w roomId) in
    let '(w1, eff) := leave_all roomSocketIds w in
    (with_roomSettings (delete roomId (roomSettings w1))
       (with_roomHosts (delete roomId (roomHosts w1))
          (with_roomUsers (delete roomId (roomUsers w1)) w1)),
     e ++ eff)).

(** ** The event loop *)

Definition handle (env : Env) (sid : string) (e : ClientEvent) (w : World)
  : World * list Effect :=
  match e with
  | OnJoinRoom roomId displayName => on_join_room env sid roomId displayName w
  | OnLeaveRoom => handleLeaveRoom sid w
  | OnCodeChange fileId content cursorPosition =>
      on_code_change env sid fileId content cursorPosition w
  | OnFileCreate file => on_file_create env sid file w
  | OnFileDelete fileId => on_file_delete env sid fileId w
  | OnFileRename fileId newName => on_file_rename env sid fileId newName w
  | OnActiveFileChange fileId => on_active_file_change sid fileId w
  | OnCursorPosition fileId position selection =>
      on_cursor_position sid fileId position selection w
  | OnTabGroupCreate group => on_tab_group_create env sid group w
  | OnTabGroupUpdate groupId updates => on_tab_group_update sid groupId updates w
  | OnTabGroupDelete groupId => on_tab_group_delete env sid groupId w
  | OnCanvasObjectAdd canvasId object objectId =>
      on_canvas_object_add sid canvasId object objectId w
  | OnCanvasObjectModify canvasId objectId changes =>
      on_canvas_object_modify sid canvasId objectId changes w
  | OnCanvasObjectDelete canvasId objectId =>
      on_canvas_object_delete sid canvasId objectId w
  | OnCanvasPathCreate canvasId pathData =>
      on_canvas_path_create sid canvasId pathData w
  | OnCanvasFullSync payload => on_canvas_full_sync env sid payload w
  | OnCanvasFileCreate file => on_canvas_file_create env sid file w
  | OnCanvasFileSwitch canvasId => on_canvas_file_switch sid canvasId w
  | OnChatMessage message => on_chat_message env sid message w
  | OnVoiceJoin peerId voiceRoomId => on_voice_join sid peerId voiceRoomId w
  | OnVoiceLeave peerId voiceRoomId => on_voice_leave sid peerId voiceRoomId w
  | OnVoiceMute peerId isMuted voiceRoomId =>
      on_voice_mute sid peerId isMuted voiceRoomId w
  | OnTerminalOutput entry => on_terminal_output env sid entry w
  | OnRequestCursors => on_request_cursors sid w
  | OnHostKickUser targetSocketId => on_host_kick_user sid targetSocketId w
  | OnHostMuteUser targetSocketId => on_host_mute_user sid targetSocketId w
  | OnHostTransfer targetSocketId => on_host_transfer sid targetSocketId w
  | OnHostToggleChat disabled => on_host_toggle_chat sid disabled w
  | OnHostEndSession => on_host_end_session sid w
  end.

(** What the server reacts to: a new connection, an event of a connected
    client, a disconnect, and a timeout that fires. *)
Inductive Input :=
| Connect (sid : string) (auth : option User)
| Client (sid : string) (e : ClientEvent)
| Disconnect (sid : string)
| Fire (h : nat).

Definition step (env : Env) (i : Input) (w : World) : World * list Effect :=
  match i with
  | Connect sid auth => (connect sid auth w, [])
  | Client sid e => handle env sid e w
  | Disconnect sid => on_disconnect sid w
  | Fire h => fire env h w
  end.

(** A run of the server over a list of inputs, each with its environment. *)
Fixpoint run (inputs : list (Env * Input)) (w : World) : World * list Effect :=
  match inputs with
  | [] => (w, [])
  | (env, i) :: rest =>
      let '(w1, e1) := step env i w in
      let '(w2, e2) := run rest w1 in
      (w2, e1 ++ e2)
  end.

(** The worlds the server can be in. *)
Inductive reachable : World → Prop :=
| reach_init : reachable init
| reach_step env i w : reachable w → reachable (step env i w).1.

(** ** Scenarios *)

(** An environment in which every clock reading of the run is [t] and no
    store call fails. *)
Definition at_time (t : N) : Env :=
  {| now := λ _, t; random := "k3x9q2m1z"; storeFails := λ _, false |}.

(** Two guests, alice then bob, in room R1. *)
Definition two_join : list (Env * Input) :=
  [ (at_time 1000, Connect "A" None);
    (at_time 1001, Connect "B" None);
    (at_time 1002, Client "A" (OnJoinRoom "R1" (Some "alice")));
    (at_time 1003, Client "B" (OnJoinRoom "R1" (Some "bob"))) ].

Definition two_in_room : World := (run two_join init).1.

(** The same room after alice has sent a hundred chat messages. *)
Definition full_chat_room : World :=
  (run (replicate 100 (at_time 2000, Client "A" (OnChatMessage "hello")))
     two_in_room).1.

(** The room after alice has made a group and a file that belongs to it. *)
Definition grouped_room : World :=
  (run [ (at_time 2000,
          Client "A" (OnTabGroupCreate
                        {| tg_id := "g1"; tg_name := "utils"; tg_color := "blue";
                           tg_collapsed := false |}));
         (at_time 2001,
          Client "A" (OnFileCreate
                        {| cf_id := "f2"; cf_filename := "util.py";
                           cf_language := "python"; cf_content := "";
                           cf_groupId := Some "g1"; cf_lastModified := 2001 |})) ]
     two_in_room).1.

(** Alice joins the voice room of R1 and then disconnects without a
    voice-leave. *)
Definition voice_then_disconnect : list (Env * Input) :=
  [ (at_time 2000, Client "A" (OnVoiceJoin "peer-A" None));
    (at_time 2001, Disconnect "A") ].

(** A first connection joins a room that has no stored snapshot. *)
Definition first_join : World * list Effect :=
  on_join_room (at_time 1002) "A" "R1" (Some "alice")
    (connect "A" None init).

(** Three quick edits of the default file of R1, by alice, bob and alice
    again. *)
Definition three_edits : list (Env * string * string * option json) :=
  [ (at_time 2000, "A", "x", None);
    (at_time 2100, "B", "x=", None);
    (at_time 2200, "A", "x=1", None) ].

(** ** Invariants *)

(** What holds of the presence registry, the host assignment and the room
    settings in every world the server reaches: a room with a member entry
    has a host, who is one of its members; a room without a member entry
    has no host and no settings. *)
Record presence_inv (w : World) : Prop := {
  inv_host : ∀ R us, roomUsers w !! R = Some us →
             ∃ h, roomHosts w !! R = Some h ∧ h ∈ JsMap.keys us;
  inv_erased : ∀ R, roomUsers w !! R = None →
               roomHosts w !! R = None ∧ roomSettings w !! R = None
}.

(** A connected socket whose [roomId] names a room is in that room of the
    adapter. *)
Definition joined_inv (w : World) : Prop :=
  ∀ t s R, sockets w !! t = Some s → sk_roomId s = Some R →
           t ∈ room_sockets w R.

(** The presence registries. *)
Definition presence (w : World) :=
  (roomUsers w, roomHosts w, roomSettings w).

(** The events that can change the presence registries, a [roomId] or the
    adapter rooms. *)
Definition moves_members (e : ClientEvent) : bool :=
  match e with
  | OnJoinRoom _ _ | OnLeaveRoom | OnHostKickUser _ | OnHostTransfer _
  | OnHostToggleChat _ | OnHostEndSession => true
  | _ => false
  end.


(** What holds of the coalescer: the pending files of a room have distinct
    ids; a pending timeout is the one recorded for its room; handles are
    below the next handle to be given out. *)
Record coalescer_inv (w : World) : Prop := {
  inv_pending : ∀ R p, pendingSaves w !! R = Some p → NoDup (JsMap.keys p);
  inv_timeout : ∀ h t, timeouts w !! h = Some t →
                saveTimers w !! to_roomId t = Some h;
  inv_handle : ∀ R h, saveTimers w !! R = Some h → h < nextTimeout w
}.

(** The store calls of an effect list that wrote a file content, as
    (room, file, content). *)
Definition written (e : Effect) : option (string * string * string) :=
  match e with
  | Store (SetFileContent r f c _ _) true => Some (r, f, c)
  | _ => None
  end.

Definition writes (eff : list Effect) : list (string * string * string) :=
  omap written eff.

(** The stored content of a file of a room snapshot. *)
Definition file_content (d : RoomState) (fileId : string) : option string :=
  cf_content <$> List.find (has_file fileId) (rs_codeFiles d).

(** A burst of code-change events on one file: each edit comes with its
    environment, its sender, its content and its cursor. *)
Definition edit_inputs (fileId : string)
    (edits : list (Env * string * string * option json)) : list (Env * Input) :=
  (λ e : Env * string * string * option json,
     (e.1.1.1, Client e.1.1.2 (OnCodeChange fileId (Some e.1.2) e.2))) <$> edits.

(** The registries of the coalescer, which only code-change events and
    timeouts touch. *)
Definition coalescer (w : World) :=
  (saveTimers w, pendingSaves w, timeouts w, nextTimeout w).

(** An environment in which every store call fails. *)
Definition failing_store (t : N) : Env :=
  {| now := λ _, t; random := "k3x9q2m1z"; storeFails := λ _, true |}.

(** The room after the three edits, with their timeout pending. *)
Definition edited_room : World :=
  (run (edit_inputs "1002" three_edits) two_in_room).1.

(** ** Room ids (routes/rooms.js and models/Room.js, [generateRoomId]) *)

Definition roomIdChars : string := "ABCDEFGHIJKLMNOPQRSTUVWXYZ0123456789".

(** [s.charAt(i)]: the empty string when [i] is out of range. *)
Definition charAt (i : nat) (s : string) : string :=
  match String.get i s with
  | Some c => String c ""
  | None => ""
  end.

(** The loop of [generateRoomId], from iteration [i] with [n] iterations
    to go; [draw i] is the value of
    [Math.floor(Math.random() * chars.length)] in iteration [i]. *)
Fixpoint generateRoomId_from (draw : nat → nat) (i n : nat) (result : string)
  : string :=
  match n with
  | 0 => result
  | S n' =>
      generateRoomId_from draw (S i) n' (result +:+ charAt (draw i) roomIdChars)
  end.

Definition generateRoomId (draw : nat → nat) : string :=
  generateRoomId_from draw 0 6 "".

(** ** Further invariants *)

(** A connected socket whose [roomId] names a room is registered as a
    member of that room. *)
Definition registered_inv (w : World) : Prop :=
  ∀ t s R, sockets w !! t = Some s → sk_roomId s = Some R →
           t ∈ JsMap.keys (members w R).

(** A room with a member entry has settings. *)
Definition settings_inv (w : World) : Prop :=
  ∀ R, is_Some (roomUsers w !! R) → is_Some (roomSettings w !! R).

(** The ephemeral registries: a peer is listed once in a voice room and a
    socket once in a cursor map. *)
Record ephemeral_inv (w : World) : Prop := {
  inv_voice : ∀ R l, voiceRooms w !! R = Some l → NoDup (ve_peerId <$> l);
  inv_cursors : ∀ R cs, roomCursorPositions w !! R = Some cs →
                NoDup (JsMap.keys cs)
}.

(** The ephemeral registries. *)
Definition ephemeral (w : World) := (voiceRooms w, roomCursorPositions w).

(** The events whose every listener returns at once when the socket is in
    no room. *)
Definition room_bound (e : ClientEvent) : bool :=
  match e with
  | OnJoinRoom _ _ | OnVoiceJoin _ _ | OnVoiceLeave _ _ | OnVoiceMute _ _ _
  | OnHostKickUser _ | OnHostMuteUser _ | OnHostTransfer _
  | OnHostToggleChat _ | OnHostEndSession => false
  | _ => true
  end.

(** The events that touch the ephemeral registries. *)
Definition is_ephemeral (e : ClientEvent) : bool :=
  match e with
  | OnVoiceJoin _ _ | OnVoiceLeave _ _ | OnVoiceMute _ _ _
  | OnCursorPosition _ _ _ => true
  | _ => false
  end.

(** A run of chat messages, each with its environment and its sender. *)
Definition chat_inputs (msgs : list (Env * string * string)) : list (Env * Input) :=
  (λ m : Env * string * string, (m.1.1, Client m.1.2 (OnChatMessage m.2))) <$> msgs.

(** Alice, bob and carol in room R1, and dave alone in room R2. *)
Definition four_sockets : World :=
  (run [ (at_time 1004, Connect "C" None);
         (at_time 1005, Connect "D" None);
         (at_time 1006, Client "C" (OnJoinRoom "R1" (Some "carol")));
         (at_time 1007, Client "D" (OnJoinRoom "R2" (Some "dave"))) ]
     two_in_room).1.

(** ** What an effect list sends *)

(** The messages of an effect list, each with the socket it is sent to. *)
Definition sent (eff : list Effect) : list (string * Msg) :=
  omap (λ e, match e with Emit t m => Some (t, m) | _ => None end) eff.

(** * Properties *)

(** ** The insertion-ordered map *)

#[local] Set Warnings "-clear-no-such-hyp".

Lemma filter_none {A} (P : A → Prop) `{!∀ x, Decision (P x)} (l : list A) :
  (∀ x, x ∈ l → ¬ P x) → filter P l = [].
Proof.
  induction l as [|x l IH]; intros Hall; [done|].
  rewrite filter_cons_False by (apply Hall; left). apply IH.
  intros y Hy. apply Hall. by right.
Qed.

Section jsmap_facts.
Context {V : Type}.
Implicit Types (m : list (string * V)) (k : string) (v : V).

Lemma keys_set k v m :
  JsMap.keys (JsMap.set k v m)
  = if bool_decide (k ∈ JsMap.keys m) then JsMap.keys m else JsMap.keys m ++ [k].
Proof.
  unfold JsMap.keys. induction m as [|[k' v'] r IH].
  - cbn [JsMap.set fmap list_fmap fst app].
    case_bool_decide; [exfalso; set_solver | done].
  - cbn [JsMap.set]. destruct (decide (k = k')) as [->|Hne].
    + clear IH. cbn [fmap list_fmap fst]. case_bool_decide; [done | exfalso; set_solver].
    + cbn [fmap list_fmap fst app] in *. rewrite IH. clear IH.
      repeat case_bool_decide; try done; exfalso; set_solver.
Qed.

Lemma elem_of_keys_set x k v m :
  x ∈ JsMap.keys (JsMap.set k v m) ↔ x = k ∨ x ∈ JsMap.keys m.
Proof. rewrite keys_set. case_bool_decide; set_solver. Qed.

Lemma keys_delete k m :
  JsMap.keys (JsMap.delete k m) = filter (λ x, x ≠ k) (JsMap.keys m).
Proof.
  unfold JsMap.keys. induction m as [|[k' v'] r IH]; [done|].
  cbn [JsMap.delete fmap list_fmap fst] in *.
  destruct (decide (k = k')) as [->|Hne].
  - rewrite filter_cons_False by (intros ?; done). done.
  - rewrite filter_cons_True by congruence. cbn. by rewrite IH.
Qed.

Lemma elem_of_keys_delete x k m :
  x ∈ JsMap.keys (JsMap.delete k m) ↔ x ≠ k ∧ x ∈ JsMap.keys m.
Proof. rewrite keys_delete, list_elem_of_filter. done. Qed.


Lemma get_set_ne k k' v m : k' ≠ k → JsMap.get k' (JsMap.set k v m) = JsMap.get k' m.
Proof.
  intros Hne. induction m as [|[k0 v0] r IH]; cbn.
  - by rewrite decide_False.
  - destruct (decide (k = k0)) as [->|Hne0]; cbn.
    + by rewrite !decide_False.
    + destruct (decide (k' = k0)); done.
Qed.

Lemma get_is_Some k m : is_Some (JsMap.get k m) ↔ k ∈ JsMap.keys m.
Proof.
  unfold JsMap.keys. induction m as [|[k' v'] r IH]; cbn.
  - split; [intros [? ?]; done | set_solver].
  - destruct (decide (k = k')) as [->|Hne].
    + split; [set_solver | eauto].
    + rewrite IH. set_solver.
Qed.

Lemma has_true k m : JsMap.has k m = true ↔ k ∈ JsMap.keys m.
Proof.
  rewrite <- get_is_Some. unfold JsMap.has.
  destruct (JsMap.get k m); split; try done; eauto.
Qed.

Lemma NoDup_keys_set k v m : NoDup (JsMap.keys m) → NoDup (JsMap.keys (JsMap.set k v m)).
Proof.
  intros Hnd. rewrite keys_set. case_bool_decide as Hin; [done|].
  apply NoDup_app. split_and!; [done | | apply NoDup_singleton].
  intros x Hx Hx'. apply list_elem_of_singleton in Hx'. by subst.
Qed.

Lemma NoDup_keys_delete k m : NoDup (JsMap.keys m) → NoDup (JsMap.keys (JsMap.delete k m)).
Proof. intros Hnd. rewrite keys_delete. by apply NoDup_filter. Qed.

(** With distinct keys, a key occurs once in the result of [set]. *)
Lemma set_entry_once k v m :
  NoDup (JsMap.keys m) →
  filter (λ p : string * V, p.1 = k) (JsMap.set k v m) = [(k, v)].
Proof.
  unfold JsMap.keys. induction m as [|[k' v'] r IH]; cbn [JsMap.set fmap list_fmap fst]; intros Hnd.
  - by rewrite filter_cons_True, filter_nil.
  - apply NoDup_cons in Hnd as [Hhd Hnd].
    destruct (decide (k = k')) as [->|Hne].
    + rewrite filter_cons_True by done. f_equal.
      apply filter_none. intros [k0 v0] Hin Heq.
      cbn in Heq. subst. apply Hhd. apply list_elem_of_fmap.
      by exists (k', v0).
    + rewrite filter_cons_False by (cbn; congruence). by apply IH.
Qed.
End jsmap_facts.

(** ** Bounded logs *)

Section push_slice_facts.
Context {A : Type}.
Implicit Types (l : list A) (x : A) (n : nat).

Lemma push_slice_length n x l :
  length (push_slice n x l) = n `min` S (length l).
Proof. unfold push_slice. rewrite length_drop, length_app. simpl. lia. Qed.

(** The kept entries are the newest ones: what is evicted is a prefix. *)
Lemma push_slice_suffix n x l :
  ∃ evicted, l ++ [x] = evicted ++ push_slice n x l
             ∧ length evicted = S (length l) - n.
Proof.
  exists (take (length (l ++ [x]) - n) (l ++ [x])). split.
  - unfold push_slice. by rewrite take_drop.
  - rewrite length_take, length_app. simpl. lia.
Qed.

Lemma push_slice_full n x o l :
  length (o :: l) = n → push_slice n x (o :: l) = l ++ [x].
Proof.
  intros Hn. unfold push_slice. rewrite length_app. simpl in *.
  replace (S (length l + 1) - n) with 1 by lia. done.
Qed.
End push_slice_facts.

(** ** Log bounding (C7) *)

Lemma chat_message_store env sid s R d message w :
  sockets w !! sid = Some s →
  joined_room s = Some R →
  store w !! R = Some d →
  storeFails env 0 = false →
  store (on_chat_message env sid message w).1 !! R
  = Some (set_chatMessages
            (push_slice 100
               {| cm_id := "msg-" +:+ pretty (now env 0) +:+ "-" +:+ random env;
                  cm_userId := u_id (sk_user s);
                  cm_username := u_username (sk_user s);
                  cm_message := message; cm_timestamp := now env 1 |}
               (rs_chatMessages d)) d).
Proof.
  intros Hs Hj Hd Hok. unfold on_chat_message, in_room, try_store.
  rewrite Hs, Hj, Hok. cbn. unfold apply_call. cbn. rewrite Hd. cbn.
  by rewrite lookup_insert_eq.
Qed.

Lemma terminal_output_store env sid s R d entry w :
  sockets w !! sid = Some s →
  joined_room s = Some R →
  store w !! R = Some d →
  storeFails env 0 = false →
  store (on_terminal_output env sid entry w).1 !! R
  = Some (set_terminalHistory (push_slice 50 entry (rs_terminalHistory d)) d).
Proof.
  intros Hs Hj Hd Hok. unfold on_terminal_output, in_room, relay_and_store, try_store.
  rewrite Hs, Hj, Hok. cbn. unfold apply_call. cbn. rewrite Hd. cbn.
  by rewrite lookup_insert_eq.
Qed.

(** C7.  An append to a bounded log keeps the newest entries and never
    leaves more than the cap: after a chat message the stored log is the
    old log with the message appended, minus an evicted prefix, and holds
    [min 100 (n + 1)] messages; after a terminal entry the stored history
    holds [min 50 (n + 1)] entries.  On a full log of 100 (or 50) the
    evicted prefix is the single oldest entry. *)
Theorem log_bounding env sid s R d w :
  sockets w !! sid = Some s →
  joined_room s = Some R →
  store w !! R = Some d →
  storeFails env 0 = false →
  (∀ message, ∃ d' msg evicted,
      store (on_chat_message env sid message w).1 !! R = Some d'
      ∧ cm_message msg = message
      ∧ rs_chatMessages d ++ [msg] = evicted ++ rs_chatMessages d'
      ∧ length evicted = S (length (rs_chatMessages d)) - 100
      ∧ length (rs_chatMessages d') = 100 `min` S (length (rs_chatMessages d)))
  ∧ (∀ entry, ∃ d' evicted,
      store (on_terminal_output env sid entry w).1 !! R = Some d'
      ∧ rs_terminalHistory d ++ [entry] = evicted ++ rs_terminalHistory d'
      ∧ length evicted = S (length (rs_terminalHistory d)) - 50
      ∧ length (rs_terminalHistory d') = 50 `min` S (length (rs_terminalHistory d))).
Proof.
  intros Hs Hj Hd Hok. split.
  - intros message.
    set (msg := {| cm_id := "msg-" +:+ pretty (now env 0) +:+ "-" +:+ random env;
                   cm_userId := u_id (sk_user s);
                   cm_username := u_username (sk_user s);
                   cm_message := message; cm_timestamp := now env 1 |}).
    destruct (push_slice_suffix 100 msg (rs_chatMessages d)) as (ev & Hev & Hlen).
    eexists _, msg, ev. split; [by eapply chat_message_store|].
    cbn [rs_chatMessages set_chatMessages cm_message msg].
    split_and!; [done | done | done | apply push_slice_length].
  - intros entry.
    destruct (push_slice_suffix 50 entry (rs_terminalHistory d)) as (ev & Hev & Hlen).
    eexists _, ev. split; [by eapply terminal_output_store|].
    cbn [rs_terminalHistory set_terminalHistory].
    split_and!; [done | done | apply push_slice_length].
Qed.

(** The theorem at a log that already holds a hundred messages: one more
    leaves a hundred, the oldest one gone. *)
Lemma log_bounding_witness :
  ∃ d d' msg oldest,
    store full_chat_room !! "R1" = Some d
    ∧ length (rs_chatMessages d) = 100
    ∧ store (on_chat_message (at_time 3000) "A" "one more" full_chat_room).1 !! "R1"
      = Some d'
    ∧ rs_chatMessages d ++ [msg] = [oldest] ++ rs_chatMessages d'
    ∧ length (rs_chatMessages d') = 100.
Proof.
  edestruct log_bounding
    with (env := at_time 3000) (sid := "A") (R := "R1") (w := full_chat_room)
    as [Hchat _]; [vm_compute; reflexivity ..|].
  destruct (Hchat "one more") as (d' & msg & ev & H1 & _ & H3 & H4 & H5).
  destruct ev as [|oldest [|? ?]]; [discriminate H4 | | discriminate H4].
  eexists _, d', msg, oldest.
  split; [vm_compute; reflexivity|].
  split; [vm_compute; reflexivity|].
  split; [exact H1|]. split; [exact H3|]. exact H5.
Defined.

(** ** Who receives a broadcast *)

Lemma elem_of_socket_to t m w sid R m' :
  Emit t m ∈ socket_to w sid R m' ↔ m = m' ∧ t ∈ room_sockets w R ∧ t ≠ sid.
Proof.
  unfold socket_to. rewrite list_elem_of_fmap. split.
  - intros (t' & Heq & Hin). inversion Heq; subst.
    apply list_elem_of_filter in Hin. naive_solver.
  - intros (-> & Hin & Hne). exists t. split; [done|].
    apply list_elem_of_filter. done.
Qed.

Lemma elem_of_io_to t m w R m' :
  Emit t m ∈ io_to w R m' ↔ m = m' ∧ t ∈ room_sockets w R.
Proof.
  unfold io_to. rewrite list_elem_of_fmap. split.
  - intros (t' & Heq & Hin). inversion Heq; subst. done.
  - intros (-> & Hin). by exists t.
Qed.

Lemma elem_of_socket_emit t m sid m' :
  Emit t m ∈ socket_emit sid m' ↔ t = sid ∧ m = m'.
Proof.
  unfold socket_emit. rewrite list_elem_of_singleton. split; [|naive_solver].
  intros Heq. by inversion Heq.
Qed.

(** ** Group deletion (C5) *)

(** C5, as the code has it.  Deleting a group removes the entries with
    that id from the stored group list and relays the deletion to the other
    sockets of the room; the stored files, and with them every group
    reference, are left as they were. *)
Theorem group_delete_keeps_files env sid s R d groupId w :
  sockets w !! sid = Some s →
  joined_room s = Some R →
  store w !! R = Some d →
  storeFails env 0 = false →
  ∃ d', store (on_tab_group_delete env sid groupId w).1 !! R = Some d'
        ∧ (∀ g, g ∈ rs_tabGroups d' ↔ g ∈ rs_tabGroups d ∧ tg_id g ≠ groupId)
        ∧ rs_codeFiles d' = rs_codeFiles d
        ∧ (∀ t, t ∈ room_sockets w R → t ≠ sid →
             Emit t (TabGroupDelete groupId)
             ∈ (on_tab_group_delete env sid groupId w).2).
Proof.
  intros Hs Hj Hd Hok.
  unfold on_tab_group_delete, in_room, relay_and_store, try_store.
  rewrite Hs, Hj, Hok. cbn. unfold apply_call. cbn. rewrite Hd. cbn.
  eexists. split; [by rewrite lookup_insert_eq|]. cbn. split_and!.
  - intros g. rewrite list_elem_of_filter. naive_solver.
  - done.
  - intros t Hin Hne. apply elem_of_app. left.
    by apply elem_of_socket_to.
Qed.

Lemma group_delete_keeps_files_witness :
  ∃ d', store (on_tab_group_delete (at_time 3000) "A" "g1" grouped_room).1 !! "R1"
        = Some d'
        ∧ rs_codeFiles <$> store grouped_room !! "R1" = Some (rs_codeFiles d')
        ∧ Emit "B" (TabGroupDelete "g1")
          ∈ (on_tab_group_delete (at_time 3000) "A" "g1" grouped_room).2.
Proof.
  edestruct group_delete_keeps_files
    with (env := at_time 3000) (sid := "A") (R := "R1") (groupId := "g1")
         (w := grouped_room)
    as (d' & H1 & _ & H3 & H4); [vm_compute; reflexivity ..|].
  exists d'. split; [exact H1|]. split.
  - rewrite H3. vm_compute. reflexivity.
  - apply H4; [vm_compute; repeat constructor | discriminate].
Defined.

(** The claim fails on the code: after the group g1 is deleted, the stored
    file f2 still refers to it. *)
Lemma group_delete_leaves_orphan :
  let w' := (on_tab_group_delete (at_time 3000) "A" "g1" grouped_room).1 in
  rs_tabGroups <$> store w' !! "R1" = Some []
  ∧ (λ d, (λ f, (cf_id f, cf_groupId f)) <$> rs_codeFiles d) <$> store w' !! "R1"
    = Some [("1002", None); ("f2", Some "g1")].
Proof. vm_compute. split; reflexivity. Qed.

(** ** Voice presence on disconnect (C6) *)

Lemma handleLeaveRoom_voiceRooms sid w :
  voiceRooms (handleLeaveRoom sid w).1 = voiceRooms w.
Proof.
  unfold handleLeaveRoom. repeat case_match; simplify_eq; done.
Qed.

(** Disconnecting never changes [global.voiceRooms]. *)
Lemma disconnect_keeps_voiceRooms sid w :
  voiceRooms (on_disconnect sid w).1 = voiceRooms w.
Proof.
  unfold on_disconnect. destruct (sockets w !! sid); [|done].
  destruct (handleLeaveRoom sid _) as [w2 eff] eqn:Hl. cbn.
  change w2 with (w2, eff).1. rewrite <- Hl.
  by rewrite handleLeaveRoom_voiceRooms.
Qed.

(** C6, at the failing input.  Alice joins the voice room of R1 and
    disconnects: her socket is gone and she has left the room, but her
    entry is still in the voice set of R1. *)
Theorem voice_entry_survives_disconnect :
  let w' := (run voice_then_disconnect two_in_room).1 in
  sockets w' !! "A" = None
  ∧ JsMap.keys (members w' "R1") = ["B"]
  ∧ voiceRooms w' !! "R1"
    = Some [ {| ve_peerId := "peer-A"; ve_socketId := "A"; ve_isMuted := true;
                ve_username := "alice" |} ].
Proof. vm_compute. split_and!; reflexivity. Qed.

(** ** Joining: what the registries hold afterwards *)

Section join_facts.
Context (sid roomId : string) (displayName : option string) (s : Socket)
        (w : World).

Local Abbreviation w' := (join_registries sid roomId displayName s w).

Lemma join_store : store w' = store w.
Proof. unfold join_registries. by repeat case_match. Qed.

Lemma join_rooms :
  rooms w' = <[roomId := set_add sid (room_sockets w roomId)]> (rooms w).
Proof. unfold join_registries. by repeat case_match. Qed.

Lemma join_sockets :
  sockets w' = <[sid := join_socket roomId displayName s]> (sockets w).
Proof. unfold join_registries. by repeat case_match. Qed.

Lemma join_roomUsers :
  roomUsers w'
  = <[roomId := JsMap.set sid
                  (user_info sid (sk_user (join_socket roomId displayName s)))
                  (members w roomId)]> (roomUsers w).
Proof. unfold join_registries. by repeat case_match. Qed.

Lemma join_roomHosts :
  roomHosts w'
  = match roomHosts w !! roomId with
    | Some _ => roomHosts w
    | None => <[roomId := sid]> (roomHosts w)
    end.
Proof. unfold join_registries. cbn. by repeat case_match. Qed.

Lemma join_roomSettings :
  roomSettings w'
  = match roomSettings w !! roomId with
    | Some _ => roomSettings w
    | None => <[roomId := {| chatDisabled := false |}]> (roomSettings w)
    end.
Proof.
  unfold join_registries. cbn.
  destruct (roomHosts w !! roomId); cbn; by repeat case_match.
Qed.

Lemma join_room_sockets room :
  room_sockets w' room
  = if decide (room = roomId) then set_add sid (room_sockets w roomId)
    else room_sockets w room.
Proof.
  unfold room_sockets at 1. rewrite join_rooms.
  destruct (decide (room = roomId)) as [->|Hne].
  - by rewrite lookup_insert_eq.
  - by rewrite lookup_insert_ne.
Qed.

Lemma join_members :
  members w' roomId
  = JsMap.set sid (user_info sid (sk_user (join_socket roomId displayName s)))
      (members w roomId).
Proof. unfold members at 1. by rewrite join_roomUsers, lookup_insert_eq. Qed.
End join_facts.

Lemma elem_of_set_add x y l : x ∈ set_add y l ↔ x = y ∨ x ∈ l.
Proof. unfold set_add. case_bool_decide; set_solver. Qed.

Lemma elem_of_set_remove x y l : x ∈ set_remove y l ↔ x ≠ y ∧ x ∈ l.
Proof. unfold set_remove. rewrite list_elem_of_filter. done. Qed.

(** ** Session bootstrap (C8) *)

(** C8, as the code has it.  A join to a room without a stored snapshot
    creates the default snapshot: one source file main.py that holds the
    welcome program, one canvas with an empty scene, no groups, and empty
    chat and terminal logs.  The joining socket receives the room-state
    payload (that snapshot, the members, the host id, the chat-disabled
    flag) and nothing else; every other socket of the room receives the
    user-joined notification and nothing else. *)
Theorem bootstrap_default_snapshot env sid s R displayName w :
  sockets w !! sid = Some s →
  store w !! R = None →
  storeFails env 0 = false →
  storeFails env 1 = false →
  let r := on_join_room env sid R displayName w in
  ∃ d file canvas disabled joiner,
    store r.1 !! R = Some d
    ∧ rs_codeFiles d = [file]
    ∧ cf_filename file = "main.py" ∧ cf_language file = "python"
    ∧ cf_content file = welcome_content ∧ cf_groupId file = None
    ∧ rs_canvasFiles d = [canvas]
    ∧ cv_fabricJSON canvas
      = JObj [("objects", JArr []); ("background", JStr "transparent")]
    ∧ rs_tabGroups d = [] ∧ rs_chatMessages d = [] ∧ rs_terminalHistory d = []
    ∧ roomSettings r.1 !! R = Some {| chatDisabled := disabled |}
    ∧ (∀ m, Emit sid m ∈ r.2
            ↔ m = RoomStateMsg R (snapshot_of d) (JsMap.values (members r.1 R))
                    (roomHosts r.1 !! R) disabled)
    ∧ (∀ t, t ≠ sid → t ∈ room_sockets r.1 R →
            ∀ m, Emit t m ∈ r.2
                 ↔ m = UserJoined joiner (JsMap.values (members r.1 R))
                         (roomHosts r.1 !! R))
    ∧ (∀ t m, Emit t m ∈ r.2 → t = sid ∨ t ∈ room_sockets r.1 R).
Proof.
  intros Hs Hd H0 H1 r. subst r. unfold on_join_room. rewrite Hs. cbv zeta.
  unfold getOrCreate. rewrite H0. rewrite join_store. rewrite Hd. rewrite H1.
  set (w4 := join_registries sid R displayName s w).
  set (w5 := with_store _ w4).
  assert (Hset : ∃ disabled, roomSettings w4 !! R = Some {| chatDisabled := disabled |}).
  { subst w4. rewrite join_roomSettings.
    destruct (roomSettings w !! R) as [[b]|] eqn:Hrs.
    - exists b. by rewrite Hrs.
    - exists false. by rewrite lookup_insert_eq. }
  destruct Hset as [disabled Hset].
  eexists (default_state env), _, _, disabled, _. cbn -[default_state].
  split; [subst w5; cbn -[default_state]; by rewrite lookup_insert_eq|].
  rewrite Hset. cbn. repeat (split; [reflexivity|]). split_and!.
  - intros m. rewrite !elem_of_cons, elem_of_socket_to. split.
    + intros [Heq|[Heq|[Heq|Hin]]]; try discriminate Heq.
      * by inversion Heq.
      * naive_solver.
    + intros ->. right. right. by left.
  - intros t Hne Hin m. rewrite !elem_of_cons, elem_of_socket_to. split.
    + intros [Heq|[Heq|[Heq|Hin']]]; try discriminate Heq.
      * inversion Heq; subst. done.
      * naive_solver.
    + intros ->. right. right. right. done.
  - intros t m. rewrite !elem_of_cons, elem_of_socket_to.
    intros [Heq|[Heq|[Heq|Hin']]]; try discriminate Heq.
    + inversion Heq. by left.
    + right. naive_solver.
Qed.

Lemma bootstrap_default_snapshot_witness :
  ∃ d disabled,
    store first_join.1 !! "R1" = Some d
    ∧ rs_chatMessages d = [] ∧ rs_terminalHistory d = []
    ∧ ∀ m, Emit "A" m ∈ first_join.2
           ↔ m = RoomStateMsg "R1" (snapshot_of d)
                   (JsMap.values (members first_join.1 "R1"))
                   (roomHosts first_join.1 !! "R1") disabled.
Proof.
  edestruct bootstrap_default_snapshot
    with (env := at_time 1002) (sid := "A") (R := "R1")
         (displayName := Some "alice") (w := connect "A" None init)
    as (d & file & canvas & disabled & joiner & H1 & _ & _ & _ & _ & _ & _ & _
        & _ & H10 & H11 & _ & H13 & _);
    [vm_compute; reflexivity ..|].
  exists d, disabled. split; [exact H1|]. split; [exact H10|].
  split; [exact H11|]. exact H13.
Defined.

(** The claim fails on the code: the one source file of the default
    snapshot is not empty, it holds the welcome program. *)
Lemma default_file_not_empty :
  (λ d, cf_content <$> rs_codeFiles d) <$> store first_join.1 !! "R1"
  = Some [welcome_content]
  ∧ welcome_content ≠ ""
  ∧ String.length welcome_content = 71.
Proof. vm_compute. split_and!; [reflexivity | discriminate | reflexivity]. Qed.

(** ** The authorization gate (C4) *)

(** C4.  A privileged operation invoked by a socket that is not the host
    of its room leaves the whole world as it was, the presence, host and
    settings registries included, and its only effect is one host-error
    message to the caller. *)
Theorem authorization_gate env sid e w :
  is_privileged e = true →
  isHost sid w = false →
  ∃ message, handle env sid e w = (w, [Emit sid (HostError message)]).
Proof.
  intros Hp Hh. destruct e; try discriminate Hp; cbn;
    unfold on_host_kick_user, on_host_mute_user, on_host_transfer,
      on_host_toggle_chat, on_host_end_session, host_only, socket_emit;
    rewrite Hh; eauto.
Qed.

Lemma authorization_gate_witness :
  isHost "B" two_in_room = false
  ∧ handle (at_time 3000) "B" (OnHostToggleChat true) two_in_room
    = (two_in_room, [Emit "B" (HostError "Only the host can toggle chat")]).
Proof.
  assert (Hh : isHost "B" two_in_room = false) by (vm_compute; reflexivity).
  split; [exact Hh|].
  destruct (authorization_gate (at_time 3000) "B" (OnHostToggleChat true)
              two_in_room eq_refl Hh) as [message Hm].
  rewrite Hm. vm_compute in Hm. by inversion Hm.
Defined.

(** ** Chat and the chat-disabled flag (C10) *)




(** ** The write coalescer (C3, C9) *)

Lemma handleLeaveRoom_coalescer sid w :
  coalescer (handleLeaveRoom sid w).1 = coalescer w.
Proof. unfold handleLeaveRoom. repeat case_match; simplify_eq; done. Qed.

Lemma leave_all_coalescer ids w : coalescer (leave_all ids w).1 = coalescer w.
Proof.
  revert w. induction ids as [|i ids IH]; intros w; [done|]. cbn [leave_all].
  destruct (handleLeaveRoom i w) as [w1 e1] eqn:H1.
  destruct (leave_all ids w1) as [w2 e2] eqn:H2. cbn.
  change w2 with (w2, e2).1. rewrite <- H2, IH.
  change w1 with (w1, e1).1. by rewrite <- H1, handleLeaveRoom_coalescer.
Qed.

Lemma join_coalescer env sid R dn w :
  coalescer (on_join_room env sid R dn w).1 = coalescer w.
Proof.
  unfold on_join_room, getOrCreate, join_registries.
  repeat case_match; simplify_eq; done.
Qed.

Lemma kick_coalescer sid target w :
  coalescer (on_host_kick_user sid target w).1 = coalescer w.
Proof.
  unfold on_host_kick_user, host_only, in_room.
  repeat case_match; simplify_eq; try done.
  match goal with H : handleLeaveRoom ?t ?w0 = (?w1, _) |- _ =>
    change w1 with (w1, l).1; rewrite <- H end.
  apply handleLeaveRoom_coalescer.
Qed.

Lemma end_session_coalescer sid w :
  coalescer (on_host_end_session sid w).1 = coalescer w.
Proof.
  unfold on_host_end_session, host_only, in_room.
  repeat case_match; simplify_eq; try done.
  match goal with H : leave_all ?t ?w0 = (?w1, _) |- _ =>
    pose proof (leave_all_coalescer t w0) as Hc; rewrite H in Hc end.
  done.
Qed.

Lemma disconnect_coalescer sid w :
  coalescer (on_disconnect sid w).1 = coalescer w.
Proof.
  unfold on_disconnect. repeat case_match; simplify_eq; try done.
  match goal with H : handleLeaveRoom ?t ?w0 = (?w1, _) |- _ =>
    pose proof (handleLeaveRoom_coalescer t w0) as Hc; rewrite H in Hc end.
  done.
Qed.

Ltac unfold_handlers :=
  unfold on_code_change, on_file_create, on_file_delete, on_file_rename,
    on_active_file_change, on_cursor_position, on_cursor_position_1,
    on_cursor_position_2, on_tab_group_create, on_tab_group_update,
    on_tab_group_delete, on_canvas_object_add, on_canvas_object_modify,
    on_canvas_object_delete, on_canvas_path_create, on_canvas_full_sync,
    on_canvas_full_sync_1, on_canvas_full_sync_2, on_canvas_file_create,
    on_canvas_file_switch, on_chat_message, on_voice_join, on_voice_join_1,
    on_voice_join_2, on_voice_leave, on_voice_leave_1, on_voice_leave_2,
    on_voice_mute, on_voice_mute_1, on_voice_mute_2, on_terminal_output,
    on_request_cursors, on_host_mute_user, on_host_transfer,
    on_host_toggle_chat, host_only, and_then, in_room, relay_and_store,
    try_store in *.

(** Only code-change touches the coalescer. *)
Lemma handle_coalescer env sid e w :
  (∀ f c cur, e ≠ OnCodeChange f c cur) →
  coalescer (handle env sid e w).1 = coalescer w.
Proof.
  intros Hne. destruct e; cbn [handle];
    try (by apply handleLeaveRoom_coalescer); try (by apply join_coalescer);
    try (by apply kick_coalescer); try (by apply end_session_coalescer);
    try (by exfalso; eapply Hne);
    unfold_handlers; by repeat case_match; simplify_eq.
Qed.

Lemma coalescer_inv_ext w w' :
  coalescer w' = coalescer w → coalescer_inv w → coalescer_inv w'.
Proof.
  unfold coalescer. intros Heq [H1 H2 H3].
  inversion Heq as [[Ha Hb Hc Hd]].
  split; intros *; rewrite ?Ha, ?Hb, ?Hc, ?Hd; eauto.
Qed.

Section debounced_save_facts.
Context (env : Env) (R f : string) (content : option string) (w : World).

Local Abbreviation w' := (debouncedSave env R f content w).

Lemma debouncedSave_pendingSaves :
  pendingSaves w'
  = match content with
    | Some c =>
        if truthy_str f
        then <[R := JsMap.set f c (default [] (pendingSaves w !! R))]>
               (pendingSaves w)
        else pendingSaves w
    | None => pendingSaves w
    end.
Proof. unfold debouncedSave. by repeat case_match. Qed.

Lemma debouncedSave_nextTimeout : nextTimeout w' = S (nextTimeout w).
Proof. unfold debouncedSave. by repeat case_match. Qed.

Lemma debouncedSave_saveTimers :
  saveTimers w' = <[R := nextTimeout w]> (saveTimers w).
Proof. unfold debouncedSave. by repeat case_match. Qed.

Lemma debouncedSave_timeouts :
  timeouts w'
  = <[nextTimeout w := {| to_roomId := R; to_due := (now env 0 + 2000)%N |}]>
      match saveTimers w !! R with
      | Some h => delete h (timeouts w)
      | None => timeouts w
      end.
Proof. unfold debouncedSave. by repeat case_match. Qed.

Lemma debouncedSave_rest :
  store w' = store w ∧ sockets w' = sockets w ∧ rooms w' = rooms w
  ∧ roomUsers w' = roomUsers w ∧ roomHosts w' = roomHosts w
  ∧ roomSettings w' = roomSettings w ∧ voiceRooms w' = voiceRooms w.
Proof. unfold debouncedSave. by repeat case_match. Qed.

Lemma debouncedSave_inv : coalescer_inv w → coalescer_inv w'.
Proof.
  intros [Hp Ht Hh]. split.
  - intros R' p. rewrite debouncedSave_pendingSaves.
    destruct content as [c|]; [|by apply Hp].
    destruct (truthy_str f); [|by apply Hp].
    destruct (decide (R' = R)) as [->|Hne].
    + rewrite lookup_insert_eq. intros [= <-]. apply NoDup_keys_set.
      destruct (pendingSaves w !! R) as [p0|] eqn:Hp0; cbn.
      * by eapply Hp.
      * apply NoDup_nil_2.
    + rewrite lookup_insert_ne by done. apply Hp.
  - intros h t. rewrite debouncedSave_timeouts, debouncedSave_saveTimers.
    destruct (decide (h = nextTimeout w)) as [->|Hne].
    + rewrite lookup_insert_eq. intros [= <-]. cbn. by rewrite lookup_insert_eq.
    + rewrite lookup_insert_ne by done. intros Hlk.
      assert (Hw : timeouts w !! h = Some t
                   ∧ saveTimers w !! R ≠ Some h).
      { destruct (saveTimers w !! R) as [h0|] eqn:Hs0.
        - destruct (decide (h0 = h)) as [->|Hne0].
          + by rewrite lookup_delete_eq in Hlk.
          + rewrite lookup_delete_ne in Hlk by done. split; congruence.
        - done. }
      destruct Hw as [Hw Hold]. pose proof (Ht _ _ Hw) as Hst.
      destruct (decide (to_roomId t = R)) as [Heq|Hne'].
      * rewrite Heq in Hst. done.
      * by rewrite lookup_insert_ne.
  - intros R' h. rewrite debouncedSave_saveTimers, debouncedSave_nextTimeout.
    destruct (decide (R' = R)) as [->|Hne].
    + rewrite lookup_insert_eq. intros [= <-]. lia.
    + rewrite lookup_insert_ne by done. intros Hlk.
      specialize (Hh _ _ Hlk). lia.
Qed.
End debounced_save_facts.

Section flush_facts.
Context (env : Env) (R : string) (w : World).

Lemma flush_saveTimers : saveTimers (flush env R w).1 = delete R (saveTimers w).
Proof.
  unfold flush. repeat case_match; simplify_eq; cbn; try done.
  all: repeat case_match; simplify_eq; done.
Qed.

Lemma flush_timeouts : timeouts (flush env R w).1 = timeouts w.
Proof.
  unfold flush. repeat case_match; simplify_eq; cbn; try done.
  all: repeat case_match; simplify_eq; done.
Qed.

Lemma flush_nextTimeout : nextTimeout (flush env R w).1 = nextTimeout w.
Proof.
  unfold flush. repeat case_match; simplify_eq; cbn; try done.
  all: repeat case_match; simplify_eq; done.
Qed.

Lemma flush_pendingSaves :
  pendingSaves (flush env R w).1 = pendingSaves w
  ∨ pendingSaves (flush env R w).1 = delete R (pendingSaves w).
Proof.
  unfold flush. repeat case_match; simplify_eq; cbn; auto.
  all: repeat case_match; simplify_eq; cbn; auto.
Qed.
End flush_facts.

Lemma fire_inv env h w : coalescer_inv w → coalescer_inv (fire env h w).1.
Proof.
  intros Hinv. unfold fire.
  destruct (timeouts w !! h) as [t|] eqn:Hh; [|done].
  destruct (to_due t <=? now env 0)%N; [|done].
  destruct Hinv as [Hp Ht Hhd].
  set (w0 := with_timeouts (delete h (timeouts w)) w).
  split.
  - intros R' p Hlk.
    destruct (flush_pendingSaves env (to_roomId t) w0) as [Heq|Heq];
      rewrite Heq in Hlk.
    + by eapply Hp.
    + apply lookup_delete_Some in Hlk as [_ Hlk]. by eapply Hp.
  - intros h' t'. rewrite flush_timeouts, flush_saveTimers. cbn.
    intros Hlk. apply lookup_delete_Some in Hlk as [Hne Hlk].
    pose proof (Ht _ _ Hlk) as Hst. pose proof (Ht _ _ Hh) as Hst0.
    rewrite lookup_delete_ne; [done|]. intros Heq. rewrite Heq in Hst0.
    congruence.
  - intros R' h'. rewrite flush_saveTimers, flush_nextTimeout. cbn.
    intros Hlk. apply lookup_delete_Some in Hlk as [_ Hlk]. by eapply Hhd.
Qed.

Lemma init_coalescer_inv : coalescer_inv init.
Proof. split; cbn; intros *; by rewrite lookup_empty. Qed.

Lemma step_coalescer_inv env i w :
  coalescer_inv w → coalescer_inv (step env i w).1.
Proof.
  intros Hinv. destruct i as [sid auth|sid e|sid|h]; cbn [step].
  - eapply coalescer_inv_ext; [|done]. unfold connect. by case_match.
  - assert (Hc : (∃ f c cur, e = OnCodeChange f c cur)
                  ∨ ∀ f c cur, e ≠ OnCodeChange f c cur)
      by (destruct e; eauto).
    destruct Hc as [(f & c & cur & ->)|Hc].
    + cbn. unfold on_code_change, in_room.
      repeat case_match; simplify_eq; try done. cbn. by apply debouncedSave_inv.
    + eapply coalescer_inv_ext; [|done]. by apply handle_coalescer.
  - eapply coalescer_inv_ext; [|done]. apply disconnect_coalescer.
  - by apply fire_inv.
Qed.

Lemma reachable_coalescer_inv w : reachable w → coalescer_inv w.
Proof.
  induction 1; [apply init_coalescer_inv | by apply step_coalescer_inv].
Qed.

(** *** What a flush writes *)


(** With a healthy store the loop runs to its end and makes one call per
    pending file, in order. *)
Lemma save_files_ok env R k files db :
  (∀ j, storeFails env j = false) →
  (save_files env R k files db).2 = true
  ∧ writes (save_files env R k files db).1.2
    = (λ p : string * string, (R, p.1, p.2)) <$> files
  ∧ ∀ e, e ∈ (save_files env R k files db).1.2 → ∃ c, e = Store c true.
Proof.
  intros Hok. revert k db. induction files as [|[f c] rest IH]; intros k db.
  - cbn. split_and!; [done | done |]. intros e He. by apply elem_of_nil in He.
  - cbn [save_files]. rewrite Hok.
    specialize (IH (S k) (apply_call
      (SetFileContent R f c (now env (2 * k + 1)) (now env (2 * k + 2))) db)).
    destruct (save_files env R (S k) rest _) as [[db' eff] ok].
    cbn in *. destruct IH as (-> & Hw & Hall). split_and!; [done | |].
    + unfold writes in *. cbn. by rewrite Hw.
    + intros e He. apply elem_of_cons in He as [->|He]; eauto.
Qed.

Lemma find_update_first f f' (g : CodeFile → CodeFile) l :
  (∀ x, cf_id (g x) = cf_id x) →
  List.find (has_file f') (update_first (has_file f) g l)
  = if decide (f' = f) then g <$> List.find (has_file f) l
    else List.find (has_file f') l.
Proof.
  intros Hid. unfold has_file. induction l as [|x l IH]; cbn; [by case_decide|].
  destruct (decide (cf_id x = f)) as [Hx|Hx].
  - rewrite (bool_decide_eq_true_2 _ Hx). cbn. rewrite Hid.
    destruct (decide (f' = f)) as [->|Hne].
    + by rewrite (bool_decide_eq_true_2 _ Hx).
    + rewrite !bool_decide_eq_false_2 by congruence. done.
  - rewrite (bool_decide_eq_false_2 _ Hx). cbn. rewrite IH.
    destruct (decide (f' = f)) as [->|Hne]; [|done].
    by rewrite (bool_decide_eq_false_2 _ Hx).
Qed.

Lemma existsb_find_file f l :
  existsb (has_file f) l = true ↔ is_Some (List.find (has_file f) l).
Proof.
  induction l as [|x l IH]; cbn.
  - split; [done | by intros [? ?]].
  - destruct (has_file f x); cbn; [by eauto | done].
Qed.



Lemma flush_ok env R files w :
  (∀ j, storeFails env j = false) →
  pendingSaves w !! R = Some files →
  files ≠ [] →
  writes (flush env R w).2 = (λ p : string * string, (R, p.1, p.2)) <$> files
  ∧ pendingSaves (flush env R w).1 = delete R (pendingSaves w)
  ∧ store (flush env R w).1 = (save_files env R 0 files (store w)).1.1
  ∧ ∀ e, e ∈ (flush env R w).2 → ∃ c, e = Store c true.
Proof.
  intros Hok Hp Hne. unfold flush. rewrite Hp.
  destruct files as [|x files]; [done|]. cbn [JsMap.size length Nat.ltb Nat.leb].
  destruct (save_files_ok env R 0 (x :: files) (store w) Hok) as (H1 & H2 & H3).
  destruct (save_files env R 0 (x :: files) (store w)) as [[db eff] ok].
  cbn in H1, H2, H3. subst ok. cbn. done.
Qed.

(** *** Runs *)


Lemma run_reachable inputs w : reachable w → reachable (run inputs w).1.
Proof.
  revert w. induction inputs as [|[env i] rest IH]; intros w Hr; [done|].
  cbn. destruct (step env i w) as [w1 e1] eqn:Hs.
  specialize (IH w1). destruct (run rest w1) as [w2 e2]. cbn in *.
  apply IH. change w1 with (w1, e1).1. rewrite <- Hs. by constructor.
Qed.

(** A code-change of a socket that is in a room records the edit. *)
Lemma code_change_joined env sid s R f c cur w :
  sockets w !! sid = Some s →
  joined_room s = Some R →
  (on_code_change env sid f c cur w).1 = debouncedSave env R f c w.
Proof. intros Hs Hj. unfold on_code_change, in_room. by rewrite Hs, Hj. Qed.



Lemma two_in_room_reachable : reachable two_in_room.
Proof. apply run_reachable, reach_init. Qed.


(** *** A flush that fails *)

Lemma save_files_effects env R k files db :
  ∀ e, e ∈ (save_files env R k files db).1.2 → ∃ c ok, e = Store c ok.
Proof.
  revert k db. induction files as [|[f c] rest IH]; intros k db e; cbn [save_files].
  - intros He. by apply elem_of_nil in He.
  - destruct (storeFails env k).
    + cbn. intros He. apply list_elem_of_singleton in He. eauto.
    + specialize (IH (S k) (apply_call
        (SetFileContent R f c (now env (2 * k + 1)) (now env (2 * k + 2))) db)).
      destruct (save_files env R (S k) rest _) as [[db' eff] ok]. cbn in *.
      intros He. apply elem_of_cons in He as [->|He]; eauto.
Qed.

Lemma save_files_fail env R k0 k files db :
  k < length files →
  storeFails env (k0 + k) = true →
  (save_files env R k0 files db).2 = false.
Proof.
  revert k0 k db. induction files as [|[f c] rest IH]; intros k0 k db Hk Hf;
    cbn [save_files]; [cbn in Hk; lia|].
  destruct (storeFails env k0) eqn:H0; [done|].
  destruct k as [|k]; [by rewrite Nat.add_0_r in Hf; congruence|].
  specialize (IH (S k0) k (apply_call
    (SetFileContent R f c (now env (2 * k0 + 1)) (now env (2 * k0 + 2))) db)).
  destruct (save_files env R (S k0) rest _) as [[db' eff] ok]. cbn in *.
  apply IH; [lia|]. by rewrite <- Nat.add_succ_r.
Qed.

Lemma fire_due env h t w :
  timeouts w !! h = Some t →
  (to_due t ≤ now env 0)%N →
  fire env h w
  = flush env (to_roomId t) (with_timeouts (delete h (timeouts w)) w).
Proof.
  intros Ht Hdue. unfold fire. rewrite Ht.
  by rewrite (proj2 (N.leb_le _ _) Hdue).
Qed.

(** C9.  When a store call of a flush fails, the error is reported on the
    console, nothing is sent to any socket, the pending entries of the room
    stay as they were, and the sockets, the adapter rooms and the presence
    registries are untouched.  No timer is left armed; the next recording
    for the room arms one, and when that one fires on a healthy store the
    flush writes every entry that was kept, together with the new one. *)
Theorem flush_failure_retried env h t files k w :
  timeouts w !! h = Some t →
  (to_due t ≤ now env 0)%N →
  pendingSaves w !! to_roomId t = Some files →
  k < length files →
  storeFails env k = true →
  let R := to_roomId t in
  let r := fire env h w in
  ConsoleError (SaveError R) ∈ r.2
  ∧ (∀ to m, Emit to m ∉ r.2)
  ∧ pendingSaves r.1 !! R = Some files
  ∧ saveTimers r.1 !! R = None
  ∧ sockets r.1 = sockets w ∧ rooms r.1 = rooms w
  ∧ roomUsers r.1 = roomUsers w ∧ roomHosts r.1 = roomHosts w
  ∧ roomSettings r.1 = roomSettings w
  ∧ ∀ env' sid s f c cur envF,
      sockets w !! sid = Some s →
      joined_room s = Some R →
      truthy_str f = true →
      (now env' 0 + 2000 ≤ now envF 0)%N →
      (∀ j, storeFails envF j = false) →
      let w2 := (on_code_change env' sid f (Some c) cur r.1).1 in
      ∃ h', saveTimers w2 !! R = Some h'
            ∧ writes (fire envF h' w2).2
              = (λ p : string * string, (R, p.1, p.2)) <$> JsMap.set f c files
            ∧ pendingSaves (fire envF h' w2).1 !! R = None.
Proof.
  intros Ht Hdue Hp Hk Hfail R r. subst r.
  rewrite (fire_due env h t w Ht Hdue). fold R in Hp |- *.
  set (w0 := with_timeouts (delete h (timeouts w)) w).
  assert (Hflush : ∃ db eff,
            flush env R w0
            = (with_saveTimers (delete R (saveTimers w0)) (with_store db w0),
               eff ++ [ConsoleError (SaveError R)])
            ∧ ∀ e, e ∈ eff → ∃ c ok, e = Store c ok).
  { unfold flush. cbn [pendingSaves w0 with_timeouts]. rewrite Hp.
    destruct files as [|x files]; [cbn in Hk; lia|].
    cbn [JsMap.size length Nat.ltb Nat.leb].
    pose proof (save_files_fail env R 0 k (x :: files) (store w) Hk Hfail) as Hno.
    pose proof (save_files_effects env R 0 (x :: files) (store w)) as Heff.
    cbn [store w0 with_timeouts].
    destruct (save_files env R 0 (x :: files) (store w)) as [[db eff] ok].
    cbn in Hno, Heff. subst ok. eauto. }
  destruct Hflush as (db & eff & Hfl & Heff). rewrite Hfl. cbn [fst snd].
  split_and!; try done.
  - apply elem_of_app. right. by left.
  - intros to m Hin. apply elem_of_app in Hin as [Hin|Hin].
    + by destruct (Heff _ Hin) as (c & ok & ?).
    + by apply list_elem_of_singleton in Hin.
  - cbn. by rewrite lookup_delete_eq.
  - intros env' sid s f c cur envF Hs Hj Hf Hdue' Hok.
    set (w1 := with_saveTimers _ _).
    rewrite (code_change_joined env' sid s R f (Some c) cur w1) by done.
    set (w2 := debouncedSave env' R f (Some c) w1).
    assert (Hp2 : pendingSaves w2 !! R = Some (JsMap.set f c files)).
    { subst w2. rewrite debouncedSave_pendingSaves, Hf. cbn. rewrite Hp. cbn.
      by rewrite lookup_insert_eq. }
    assert (Ht2 : timeouts w2 !! nextTimeout w1
                  = Some {| to_roomId := R; to_due := (now env' 0 + 2000)%N |}).
    { subst w2. by rewrite debouncedSave_timeouts, lookup_insert_eq. }
    exists (nextTimeout w1). split.
    { subst w2. by rewrite debouncedSave_saveTimers, lookup_insert_eq. }
    rewrite (fire_due envF _ _ w2 Ht2) by done. cbn [to_roomId].
    destruct (flush_ok envF R (JsMap.set f c files)
                (with_timeouts (delete (nextTimeout w1) (timeouts w2)) w2) Hok)
      as (Hw & Hpd & _).
    + exact Hp2.
    + by destruct files as [|[? ?] ?]; cbn; repeat case_decide.
    + split; [exact Hw|]. rewrite Hpd. cbn. by rewrite lookup_delete_eq.
Qed.

(** The theorem on the room with three edits pending: the flush fails, the
    entry stays, and after one more edit, on another file, the next flush
    writes both. *)
Lemma flush_failure_retried_witness :
  let r := fire (failing_store 4200) 2 edited_room in
  let w2 := (on_code_change (at_time 5000) "B" "f9" (Some "y") None r.1).1 in
  ConsoleError (SaveError "R1") ∈ r.2
  ∧ pendingSaves r.1 !! "R1" = Some [("1002", "x=1")]
  ∧ ∃ h', saveTimers w2 !! "R1" = Some h'
          ∧ writes (fire (at_time 7000) h' w2).2
            = [("R1", "1002", "x=1"); ("R1", "f9", "y")].
Proof.
  edestruct flush_failure_retried
    with (env := failing_store 4200) (h := 2) (k := 0) (w := edited_room)
    as (H1 & _ & H3 & _ & _ & _ & _ & _ & _ & Hretry);
    [vm_compute; reflexivity | cbn; lia | vm_compute; reflexivity
    | cbn; lia | reflexivity |].
  cbn zeta. split; [exact H1|]. split; [exact H3|].
  edestruct (Hretry (at_time 5000) "B") with (f := "f9") (c := "y")
      (cur := None : option json) (envF := at_time 7000)
    as (h' & Hh' & Hw & _);
    [vm_compute; reflexivity | vm_compute; reflexivity | reflexivity
    | cbn; lia | intros; reflexivity |].
  exists h'. split; [exact Hh' | exact Hw].
Defined.

(** ** Presence and host authority (C1) *)

Lemma handleLeaveRoom_idle sid w :
  (∀ s, sockets w !! sid = Some s → joined_room s = None) →
  handleLeaveRoom sid w = (w, []).
Proof.
  intros Hn. unfold handleLeaveRoom.
  destruct (sockets w !! sid) as [s|]; [|done]. by rewrite (Hn s).
Qed.

(** What [handleLeaveRoom] does to the registries when the socket is in a
    room. *)
Lemma handleLeaveRoom_fields sid s R w :
  sockets w !! sid = Some s →
  joined_room s = Some R →
  let w' := (handleLeaveRoom sid w).1 in
  rooms w' = <[R := set_remove sid (room_sockets w R)]> (rooms w)
  ∧ sockets w' = alter (with_sk_roomId None) sid (sockets w)
  ∧ match roomUsers w !! R with
    | None => presence w' = presence w
    | Some us =>
        match JsMap.keys (JsMap.delete sid us) with
        | [] =>
            presence w'
            = (delete R (roomUsers w), delete R (roomHosts w),
               delete R (roomSettings w))
        | oldest :: _ =>
            presence w'
            = (<[R := JsMap.delete sid us]> (roomUsers w),
               (if decide (roomHosts w !! R = Some sid)
                then <[R := oldest]> (roomHosts w) else roomHosts w),
               roomSettings w)
        end
    end.
Proof.
  intros Hs Hj. unfold handleLeaveRoom. rewrite Hs, Hj.
  destruct (roomUsers w !! R) as [us|] eqn:Hus; [|done].
  cbn [roomHosts with_roomUsers]. unfold JsMap.size.
  destruct (JsMap.delete sid us) as [|[k v] rest] eqn:Hdel.
  - cbn. case_bool_decide; cbn; by rewrite delete_insert_eq.
  - cbn. case_bool_decide; cbn.
    + by rewrite decide_True.
    + by rewrite decide_False.
Qed.

Lemma handleLeaveRoom_other_socket sid t w :
  t ≠ sid → sockets (handleLeaveRoom sid w).1 !! t = sockets w !! t.
Proof.
  intros Hne. destruct (sockets w !! sid) as [s|] eqn:Hs.
  - destruct (joined_room s) as [R|] eqn:Hj.
    + destruct (handleLeaveRoom_fields sid s R w Hs Hj) as (_ & -> & _).
      by rewrite lookup_alter_ne.
    + rewrite handleLeaveRoom_idle; [done|]. intros s'. rewrite Hs. by intros [= <-].
  - rewrite handleLeaveRoom_idle; [done|]. intros s'. by rewrite Hs.
Qed.

Lemma handleLeaveRoom_other_room_socket sid t R' w :
  t ≠ sid →
  t ∈ room_sockets (handleLeaveRoom sid w).1 R' ↔ t ∈ room_sockets w R'.
Proof.
  intros Hne. destruct (sockets w !! sid) as [s|] eqn:Hs.
  - destruct (joined_room s) as [R|] eqn:Hj.
    + destruct (handleLeaveRoom_fields sid s R w Hs Hj) as (Hr & _).
      unfold room_sockets at 1. rewrite Hr.
      destruct (decide (R' = R)) as [->|HR].
      * rewrite lookup_insert_eq. cbn. rewrite elem_of_set_remove. naive_solver.
      * by rewrite lookup_insert_ne.
    + rewrite handleLeaveRoom_idle; [done|]. intros s'. rewrite Hs. by intros [= <-].
  - rewrite handleLeaveRoom_idle; [done|]. intros s'. by rewrite Hs.
Qed.

(** A socket that still has a [roomId] after [handleLeaveRoom] was not in a
    room to begin with, and nothing changed. *)
Lemma handleLeaveRoom_still_joined sid s' R' w :
  sockets (handleLeaveRoom sid w).1 !! sid = Some s' →
  sk_roomId s' = Some R' →
  handleLeaveRoom sid w = (w, []).
Proof.
  intros Hs' HR'. destruct (sockets w !! sid) as [s|] eqn:Hs.
  - destruct (joined_room s) as [R|] eqn:Hj.
    + destruct (handleLeaveRoom_fields sid s R w Hs Hj) as (_ & Hso & _).
      rewrite Hso, lookup_alter_eq, Hs in Hs'. cbn in Hs'. by simplify_eq.
    + apply handleLeaveRoom_idle. intros s0. rewrite Hs. by intros [= <-].
  - apply handleLeaveRoom_idle. intros s0. by rewrite Hs.
Qed.

Lemma handleLeaveRoom_joined_inv sid w :
  joined_inv w → joined_inv (handleLeaveRoom sid w).1.
Proof.
  intros Hinv t s' R' Hs' HR'. destruct (decide (t = sid)) as [->|Hne].
  - rewrite (handleLeaveRoom_still_joined sid s' R' w Hs' HR') in Hs' |- *.
    by eapply Hinv.
  - rewrite handleLeaveRoom_other_socket in Hs' by done.
    apply handleLeaveRoom_other_room_socket; [done|]. by eapply Hinv.
Qed.

Lemma presence_inv_ext w w' :
  presence w' = presence w → presence_inv w → presence_inv w'.
Proof.
  unfold presence. intros Heq [H1 H2]. inversion Heq as [[Ha Hb Hc]].
  split; intros *; rewrite ?Ha, ?Hb, ?Hc; eauto.
Qed.

Lemma handleLeaveRoom_presence_inv sid w :
  presence_inv w → presence_inv (handleLeaveRoom sid w).1.
Proof.
  intros Hinv. destruct (sockets w !! sid) as [s|] eqn:Hs.
  2: { rewrite handleLeaveRoom_idle; [done|]. intros s'. by rewrite Hs. }
  destruct (joined_room s) as [R|] eqn:Hj.
  2: { rewrite handleLeaveRoom_idle; [done|]. intros s'. rewrite Hs. by intros [= <-]. }
  destruct (handleLeaveRoom_fields sid s R w Hs Hj) as (_ & _ & Hp).
  destruct (roomUsers w !! R) as [us|] eqn:Hus.
  2: { by eapply presence_inv_ext. }
  destruct Hinv as [Hhost Herased].
  destruct (JsMap.keys (JsMap.delete sid us)) as [|oldest rest] eqn:Hk;
    inversion Hp as [[Ha Hb Hc]]; clear Hp; split.
  - intros R' us'. rewrite Ha, Hb. intros Hlk.
    apply lookup_delete_Some in Hlk as [HR Hlk].
    rewrite lookup_delete_ne by done. by apply Hhost.
  - intros R'. rewrite Ha, Hb, Hc. destruct (decide (R' = R)) as [->|HR].
    + by rewrite !lookup_delete_eq.
    + rewrite !lookup_delete_ne by done. apply Herased.
  - intros R' us'. rewrite Ha, Hb. destruct (decide (R' = R)) as [->|HR].
    + rewrite lookup_insert_eq. intros [= <-].
      destruct (Hhost _ _ Hus) as (h & Hh & Hin). rewrite Hh.
      destruct (decide (Some h = Some sid)) as [Heq|Hneq].
      * rewrite lookup_insert_eq. exists oldest. split; [done|]. rewrite Hk. by left.
      * exists h. split; [done|]. apply elem_of_keys_delete. split; [congruence|done].
    + rewrite lookup_insert_ne by done. intros Hlk.
      destruct (Hhost _ _ Hlk) as (h & Hh & Hin). exists h. split; [|done].
      case_decide; [by rewrite lookup_insert_ne|done].
  - intros R'. rewrite Ha, Hb, Hc. destruct (decide (R' = R)) as [->|HR].
    + by rewrite lookup_insert_eq.
    + rewrite lookup_insert_ne by done. intros Hlk.
      destruct (Herased _ Hlk) as [Hh Hset]. split; [|done].
      case_decide; [by rewrite lookup_insert_ne|done].
Qed.

Lemma leave_all_invs ids w :
  presence_inv w → joined_inv w →
  presence_inv (leave_all ids w).1 ∧ joined_inv (leave_all ids w).1.
Proof.
  revert w. induction ids as [|i ids IH]; intros w Hp Hj; [done|]. cbn [leave_all].
  pose proof (handleLeaveRoom_presence_inv i w Hp) as Hp1.
  pose proof (handleLeaveRoom_joined_inv i w Hj) as Hj1.
  destruct (handleLeaveRoom i w) as [w1 e1]. cbn in Hp1, Hj1.
  specialize (IH w1 Hp1 Hj1). by destruct (leave_all ids w1) as [w2 e2].
Qed.

Lemma join_socket_roomId R dn s : sk_roomId (join_socket R dn s) = Some R.
Proof. unfold join_socket. by repeat case_match. Qed.

Lemma join_presence_inv sid R dn s w :
  presence_inv w → presence_inv (join_registries sid R dn s w).
Proof.
  intros [Hhost Herased]. split.
  - intros R' us'. rewrite join_roomUsers, join_roomHosts.
    destruct (decide (R' = R)) as [->|HR].
    + rewrite lookup_insert_eq. intros [= <-].
      destruct (roomHosts w !! R) as [h|] eqn:Hh.
      * exists h. split; [done|]. apply elem_of_keys_set. right.
        unfold members. destruct (roomUsers w !! R) as [us|] eqn:Hus.
        -- destruct (Hhost _ _ Hus) as (h' & Hh' & Hin). cbn. by simplify_eq.
        -- destruct (Herased _ Hus) as [Hn _]. congruence.
      * exists sid. rewrite lookup_insert_eq. split; [done|].
        apply elem_of_keys_set. by left.
    + rewrite lookup_insert_ne by done. intros Hlk.
      destruct (Hhost _ _ Hlk) as (h & Hh & Hin). exists h. split; [|done].
      case_match; [done|by rewrite lookup_insert_ne].
  - intros R'. rewrite join_roomUsers, join_roomHosts, join_roomSettings.
    destruct (decide (R' = R)) as [->|HR]; [by rewrite lookup_insert_eq|].
    rewrite lookup_insert_ne by done. intros Hlk.
    destruct (Herased _ Hlk) as [Hh Hset].
    split; case_match; by rewrite ?lookup_insert_ne.
Qed.

Lemma join_joined_inv sid R dn s w :
  joined_inv w → joined_inv (join_registries sid R dn s w).
Proof.
  intros Hinv t s' R'. rewrite join_sockets, join_room_sockets.
  destruct (decide (t = sid)) as [->|Hne].
  - rewrite lookup_insert_eq. intros [= <-]. rewrite join_socket_roomId.
    intros [= <-]. rewrite decide_True by done. apply elem_of_set_add. by left.
  - rewrite lookup_insert_ne by done. intros Hs' HR'.
    pose proof (Hinv _ _ _ Hs' HR') as Hin.
    case_decide; [subst; apply elem_of_set_add; by right | done].
Qed.

Lemma with_store_same w : with_store (store w) w = w.
Proof. by destruct w. Qed.

Lemma on_join_room_world env sid R dn s w :
  sockets w !! sid = Some s →
  ∃ db, (on_join_room env sid R dn w).1
        = with_store db (join_registries sid R dn s w).
Proof.
  intros Hs. unfold on_join_room. rewrite Hs. cbv zeta. unfold getOrCreate.
  repeat case_match; simplify_eq; cbn;
    solve [by eexists | eexists; symmetry; apply with_store_same].
Qed.

Lemma on_join_room_invs env sid R dn w :
  presence_inv w → joined_inv w →
  presence_inv (on_join_room env sid R dn w).1
  ∧ joined_inv (on_join_room env sid R dn w).1.
Proof.
  intros Hp Hj. destruct (sockets w !! sid) as [s|] eqn:Hs.
  - destruct (on_join_room_world env sid R dn s w Hs) as [db ->]. split.
    + eapply presence_inv_ext; [|by apply (join_presence_inv sid R dn s)]. done.
    + pose proof (join_joined_inv sid R dn s w Hj) as Hj'.
      intros t s' R'. apply Hj'.
  - unfold on_join_room. by rewrite Hs.
Qed.

Lemma connect_invs sid auth w :
  presence_inv w → joined_inv w →
  presence_inv (connect sid auth w) ∧ joined_inv (connect sid auth w).
Proof.
  intros Hp Hj. unfold connect. destruct (sockets w !! sid) eqn:Hs; [done|].
  split; [by eapply presence_inv_ext; [|exact Hp]|].
  intros t s' R'. cbn. destruct (decide (t = sid)) as [->|Hne].
  - rewrite lookup_insert_eq. by intros [= <-].
  - rewrite lookup_insert_ne by done. intros Hs' HR'.
    pose proof (Hj _ _ _ Hs' HR') as Hin. unfold room_sockets in *. cbn.
    destruct (decide (R' = sid)) as [->|HR].
    + rewrite lookup_insert_eq. cbn. apply elem_of_set_add. by right.
    + by rewrite lookup_insert_ne.
Qed.

Lemma disconnect_invs sid w :
  presence_inv w → joined_inv w →
  presence_inv (on_disconnect sid w).1 ∧ joined_inv (on_disconnect sid w).1.
Proof.
  intros Hp Hj. unfold on_disconnect. destruct (sockets w !! sid) eqn:Hs; [|done].
  set (w1 := with_rooms (set_remove sid <$> rooms w) w).
  pose proof (handleLeaveRoom_presence_inv sid w1) as Hp1.
  pose proof (handleLeaveRoom_other_socket sid) as Hso.
  pose proof (handleLeaveRoom_other_room_socket sid) as Hro.
  specialize (Hp1 ltac:(by eapply presence_inv_ext; [|exact Hp])).
  destruct (handleLeaveRoom sid w1) as [w2 e2] eqn:Hl. cbn in *. split.
  - by eapply presence_inv_ext; [|exact Hp1].
  - intros t s' R'. cbn. destruct (decide (t = sid)) as [->|Hne].
    + by rewrite lookup_delete_eq.
    + rewrite lookup_delete_ne by done. intros Hs' HR'.
      specialize (Hso t w1 Hne). rewrite Hl in Hso. cbn in Hso.
      rewrite Hso in Hs'. cbn in Hs'.
      specialize (Hro t R' w1 Hne). rewrite Hl in Hro. cbn in Hro.
      unfold room_sockets in Hro |- *. cbn in Hro |- *. apply Hro.
      rewrite lookup_fmap. pose proof (Hj _ _ _ Hs' HR') as Hin.
      unfold room_sockets in Hin. destruct (rooms w !! R') as [l|]; cbn in *.
      * apply elem_of_set_remove. done.
      * done.
Qed.

Lemma alter_keeps_roomId (f : Socket → Socket) sid (m : gmap string Socket) t :
  (∀ s, sk_roomId (f s) = sk_roomId s) →
  sk_roomId <$> alter f sid m !! t = sk_roomId <$> m !! t.
Proof.
  intros Hf. destruct (decide (t = sid)) as [->|Hne].
  - rewrite lookup_alter_eq. destruct (m !! sid); cbn; [by rewrite Hf|done].
  - by rewrite lookup_alter_ne.
Qed.

(** The events that are not about membership leave the presence
    registries, the adapter rooms and every [roomId] alone. *)
Lemma handle_quiet env sid e w :
  moves_members e = false →
  presence (handle env sid e w).1 = presence w
  ∧ rooms (handle env sid e w).1 = rooms w
  ∧ ∀ t, sk_roomId <$> sockets (handle env sid e w).1 !! t
         = sk_roomId <$> sockets w !! t.
Proof.
  intros Hq. destruct e; try discriminate Hq; cbn [handle];
    unfold_handlers; unfold debouncedSave, update_socket;
    repeat case_match; simplify_eq; cbn;
    (split_and!; [done | done | intros t; cbn;
                                rewrite ?alter_keeps_roomId by done; done]).
Qed.

Lemma joined_inv_ext w w' :
  rooms w' = rooms w →
  (∀ t, sk_roomId <$> sockets w' !! t = sk_roomId <$> sockets w !! t) →
  joined_inv w → joined_inv w'.
Proof.
  intros Hr Hs Hinv t s' R' Hs' HR'. unfold room_sockets. rewrite Hr.
  specialize (Hs t). rewrite Hs' in Hs. cbn in Hs.
  destruct (sockets w !! t) as [s|] eqn:Hst; [|done]. cbn in Hs.
  eapply Hinv; [done|]. congruence.
Qed.

Lemma kick_invs sid target w :
  presence_inv w → joined_inv w →
  presence_inv (on_host_kick_user sid target w).1
  ∧ joined_inv (on_host_kick_user sid target w).1.
Proof.
  intros Hp Hj. unfold on_host_kick_user, host_only, in_room.
  pose proof (handleLeaveRoom_presence_inv target w Hp).
  pose proof (handleLeaveRoom_joined_inv target w Hj).
  repeat case_match; simplify_eq; done.
Qed.

Lemma transfer_invs sid target w :
  presence_inv w → joined_inv w →
  presence_inv (on_host_transfer sid target w).1
  ∧ joined_inv (on_host_transfer sid target w).1.
Proof.
  intros Hp Hj. unfold on_host_transfer, host_only, in_room.
  repeat case_match; simplify_eq; try done. cbn. split; [|done].
  destruct Hp as [Hhost Herased]. split; cbn.
  - intros R' us'. destruct (decide (R' = s0)) as [->|HR].
    + rewrite lookup_insert_eq. intros Hlk. exists target. split; [done|].
      apply has_true. congruence.
    + rewrite lookup_insert_ne by done. apply Hhost.
  - intros R' Hlk. destruct (decide (R' = s0)) as [->|HR]; [congruence|].
    rewrite lookup_insert_ne by done. by apply Herased.
Qed.

Lemma toggle_invs sid disabled w :
  presence_inv w → joined_inv w →
  presence_inv (on_host_toggle_chat sid disabled w).1
  ∧ joined_inv (on_host_toggle_chat sid disabled w).1.
Proof.
  intros Hp Hj. unfold on_host_toggle_chat, host_only, in_room.
  repeat case_match; simplify_eq; try done. cbn. split; [|done].
  destruct Hp as [Hhost Herased]. split; cbn; [done|].
  intros R' Hlk. destruct (Herased _ Hlk) as [Hh Hset]. split; [done|].
  destruct (decide (R' = s0)) as [->|HR]; [congruence|].
  by rewrite lookup_insert_ne.
Qed.

Lemma end_session_invs sid w :
  presence_inv w → joined_inv w →
  presence_inv (on_host_end_session sid w).1
  ∧ joined_inv (on_host_end_session sid w).1.
Proof.
  intros Hp Hj. unfold on_host_end_session, host_only, in_room.
  repeat case_match; simplify_eq; try done. cbn.
  match goal with H : leave_all ?ids ?w0 = (?w1, _) |- _ =>
    destruct (leave_all_invs ids w0 Hp Hj) as [Hp1 Hj1]; rewrite H in Hp1, Hj1
  end.
  cbn in Hp1, Hj1. split; [|done].
  destruct Hp1 as [Hhost Herased]. split; cbn.
  - intros R' us' Hlk. apply lookup_delete_Some in Hlk as [HR Hlk].
    rewrite lookup_delete_ne by done. by apply Hhost.
  - intros R' Hlk. destruct (decide (R' = s0)) as [->|HR].
    + by rewrite !lookup_delete_eq.
    + rewrite lookup_delete_ne in Hlk by done.
      rewrite !lookup_delete_ne by done. by apply Herased.
Qed.

Lemma init_invs : presence_inv init ∧ joined_inv init.
Proof.
  split; [split|]; cbn.
  - intros R us. by rewrite lookup_empty.
  - intros R _. by rewrite !lookup_empty.
  - intros t s R. cbn. by rewrite lookup_empty.
Qed.

Lemma fire_quiet env h w :
  presence (fire env h w).1 = presence w
  ∧ rooms (fire env h w).1 = rooms w
  ∧ sockets (fire env h w).1 = sockets w.
Proof.
  unfold fire, flush. repeat case_match; simplify_eq; cbn; try done.
  all: repeat case_match; simplify_eq; done.
Qed.

Lemma step_invs env i w :
  presence_inv w → joined_inv w →
  presence_inv (step env i w).1 ∧ joined_inv (step env i w).1.
Proof.
  intros Hp Hj. destruct i as [sid auth|sid e|sid|h]; cbn [step].
  - by apply connect_invs.
  - destruct (moves_members e) eqn:Hm.
    + destruct e; try discriminate Hm; cbn [handle].
      * by apply on_join_room_invs.
      * split; [by apply handleLeaveRoom_presence_inv
               | by apply handleLeaveRoom_joined_inv].
      * by apply kick_invs.
      * by apply transfer_invs.
      * by apply toggle_invs.
      * by apply end_session_invs.
    + destruct (handle_quiet env sid e w Hm) as (Hpr & Hr & Hs). split.
      * by eapply presence_inv_ext; [|exact Hp].
      * by eapply joined_inv_ext; [| |exact Hj].
  - by apply disconnect_invs.
  - destruct (fire_quiet env h w) as (Hpr & Hr & Hs). split.
    + by eapply presence_inv_ext; [|exact Hp].
    + eapply joined_inv_ext; [done| |exact Hj]. intros t. by rewrite Hs.
Qed.

Lemma reachable_invs w : reachable w → presence_inv w ∧ joined_inv w.
Proof.
  induction 1 as [|env i w Hr [Hp Hj]]; [apply init_invs | by apply step_invs].
Qed.

Lemma joined_room_roomId s R : joined_room s = Some R → sk_roomId s = Some R.
Proof. unfold joined_room. repeat case_match; naive_solver. Qed.





(** ** Relaying without echo (C2) *)

Ltac emit_membership :=
  rewrite ?elem_of_app, ?elem_of_cons, ?elem_of_socket_to, ?elem_of_io_to,
    ?elem_of_nil in *.

(** What a mutation event of a socket in a room sends: to every other
    socket of the room a message that carries the event, to nobody anything
    else, and to the sender nothing, unless the event is a chat message. *)
Lemma mutation_effects env sid s R e w :
  sockets w !! sid = Some s →
  joined_room s = Some R →
  is_mutation e = true →
  (∀ t, t ∈ room_sockets w R → t ≠ sid →
        ∃ m, Emit t m ∈ (handle env sid e w).2 ∧ carries e m)
  ∧ (∀ t m, Emit t m ∈ (handle env sid e w).2 →
            t ∈ room_sockets w R ∧ carries e m)
  ∧ ((∀ message, e ≠ OnChatMessage message) →
     ∀ m, Emit sid m ∉ (handle env sid e w).2).
Proof.
  intros Hs Hj Hm.
  destruct e; try discriminate Hm; cbn [handle];
    unfold_handlers; unfold update_socket; rewrite ?Hs, ?Hj; cbn;
    repeat case_match; simplify_eq; cbn in *; rewrite ?Hs, ?Hj in *; simplify_eq; cbn.
  all: split_and!;
    [ intros t Hin Hne; eexists; emit_membership; split;
        [ first [ by left | by (right; left) | by eauto 10 ] | cbn; eauto ]
    | intros t m Hin; emit_membership; cbn; naive_solver
    | intros Hnc m Hin; emit_membership;
      try (by exfalso; eapply Hnc); naive_solver ].
Qed.

(** A message that carries an event goes out under the name the event
    came in under. *)
Lemma carries_name e m : carries e m → msg_name m = event_name e.
Proof. destruct e, m; cbn; try done. Qed.

Lemma chat_reaches_room env sid s R message w t :
  sockets w !! sid = Some s →
  joined_room s = Some R →
  t ∈ room_sockets w R →
  ∃ m, Emit t m ∈ (on_chat_message env sid message w).2
       ∧ carries (OnChatMessage message) m.
Proof.
  intros Hs Hj Hin. unfold on_chat_message, in_room, try_store. rewrite Hs, Hj.
  eexists (ChatMsg _). split.
  - destruct (storeFails env 0); cbn; apply elem_of_app; left;
      by apply elem_of_io_to.
  - done.
Qed.

(** C2, as the code has it.  A mutation event of a socket that is in a
    room is sent to every other socket of the adapter room, among them
    every other connected socket whose [roomId] is the room, as a message
    that carries the event; nothing else is sent.  The sender gets nothing
    back, except for a chat message, which is sent to the whole room and
    so to the sender too. *)
Theorem relay_no_echo env sid s R e w :
  reachable w →
  sockets w !! sid = Some s →
  joined_room s = Some R →
  is_mutation e = true →
  (∀ t, t ∈ room_sockets w R → t ≠ sid →
        ∃ m, Emit t m ∈ (handle env sid e w).2 ∧ carries e m)
  ∧ (∀ t s', sockets w !! t = Some s' → sk_roomId s' = Some R →
             t ∈ room_sockets w R)
  ∧ (∀ t m, Emit t m ∈ (handle env sid e w).2 →
            t ∈ room_sockets w R ∧ carries e m)
  ∧ ((∀ message, e ≠ OnChatMessage message) →
     ∀ m, Emit sid m ∉ (handle env sid e w).2)
  ∧ (∀ message, e = OnChatMessage message →
     ∃ m, Emit sid m ∈ (handle env sid e w).2 ∧ carries e m).
Proof.
  intros Hreach Hs Hj Hm.
  destruct (reachable_invs w Hreach) as [_ Hjoined].
  destruct (mutation_effects env sid s R e w Hs Hj Hm) as (H1 & H2 & H3).
  split_and!; [done | | done | done |].
  - intros t s' Hs' HR'. by eapply Hjoined.
  - intros message ->. cbn [handle].
    eapply chat_reaches_room; [done | done |].
    eapply Hjoined; [done|]. by apply joined_room_roomId.
Qed.

Lemma relay_no_echo_witness :
  let eff := (handle (at_time 3000) "A" (OnCodeChange "1002" (Some "x=1") None)
                two_in_room).2 in
  (∃ m, Emit "B" m ∈ eff ∧ carries (OnCodeChange "1002" (Some "x=1") None) m)
  ∧ ∀ m, Emit "A" m ∉ eff.
Proof.
  intros eff. subst eff.
  edestruct relay_no_echo
    with (env := at_time 3000) (sid := "A") (R := "R1")
         (e := OnCodeChange "1002" (Some "x=1") None) (w := two_in_room)
    as (H1 & _ & _ & H4 & _);
    [apply two_in_room_reachable | vm_compute; reflexivity | reflexivity
    | reflexivity |].
  split.
  - apply H1; [vm_compute; repeat constructor | discriminate].
  - apply H4. discriminate.
Defined.

(** The claim fails on the code for chat: alice's message comes back to
    alice. *)
Lemma chat_echoes_to_sender :
  let msg := {| cm_id := "msg-3000-k3x9q2m1z"; cm_userId := "guest-A";
                cm_username := "alice"; cm_message := "hi";
                cm_timestamp := 3000 |} in
  (handle (at_time 3000) "A" (OnChatMessage "hi") two_in_room).2
  = [ Emit "A" (ChatMsg msg); Emit "B" (ChatMsg msg);
      Store (PushChatMessage "R1" msg) true ].
Proof. vm_compute. reflexivity. Qed.

(** ** Members, settings and the sockets of a room *)

Lemma handleLeaveRoom_no_socket sid w :
  sockets w !! sid = None → handleLeaveRoom sid w = (w, []).
Proof. intros Hs. apply handleLeaveRoom_idle. intros s. by rewrite Hs. Qed.

Lemma handleLeaveRoom_not_joined sid s w :
  sockets w !! sid = Some s → joined_room s = None →
  handleLeaveRoom sid w = (w, []).
Proof.
  intros Hs Hj. apply handleLeaveRoom_idle. intros s'. rewrite Hs. by intros [= <-].
Qed.

(** [handleLeaveRoom] takes nobody but the leaver off a member list. *)
Lemma handleLeaveRoom_other_member sid t R' w :
  t ≠ sid →
  t ∈ JsMap.keys (members (handleLeaveRoom sid w).1 R')
  ↔ t ∈ JsMap.keys (members w R').
Proof.
  intros Hne. destruct (sockets w !! sid) as [s|] eqn:Hs.
  2: { by rewrite handleLeaveRoom_no_socket. }
  destruct (joined_room s) as [R|] eqn:Hj.
  2: { by rewrite (handleLeaveRoom_not_joined sid s). }
  destruct (handleLeaveRoom_fields sid s R w Hs Hj) as (_ & _ & Hp).
  unfold members at 1. unfold presence in Hp.
  destruct (roomUsers w !! R) as [us|] eqn:Hus.
  2: { inversion Hp as [[Ha Hb Hc]]. by rewrite Ha. }
  destruct (JsMap.keys (JsMap.delete sid us)) as [|oldest rest] eqn:Hk;
    inversion Hp as [[Ha Hb Hc]]; rewrite Ha; clear Hp Ha Hb Hc.
  - destruct (decide (R' = R)) as [->|HR].
    + rewrite lookup_delete_eq. unfold members. rewrite Hus. cbn [from_option id].
      split; [set_solver|].
      intros Hin. exfalso.
      assert (t ∈ JsMap.keys (JsMap.delete sid us)) as Hin'
        by (by apply elem_of_keys_delete).
      rewrite Hk in Hin'. set_solver.
    + by rewrite lookup_delete_ne.
  - destruct (decide (R' = R)) as [->|HR].
    + rewrite lookup_insert_eq. unfold members. rewrite Hus. cbn [from_option id].
      rewrite elem_of_keys_delete. naive_solver.
    + by rewrite lookup_insert_ne.
Qed.

Lemma handleLeaveRoom_registered_inv sid w :
  registered_inv w → registered_inv (handleLeaveRoom sid w).1.
Proof.
  intros Hinv t s' R' Hs' HR'. destruct (decide (t = sid)) as [->|Hne].
  - rewrite (handleLeaveRoom_still_joined sid s' R' w Hs' HR') in Hs' |- *.
    by eapply Hinv.
  - rewrite handleLeaveRoom_other_socket in Hs' by done.
    apply handleLeaveRoom_other_member; [done|]. by eapply Hinv.
Qed.

Lemma settings_inv_ext w w' :
  presence w' = presence w → settings_inv w → settings_inv w'.
Proof.
  unfold presence. intros Heq Hinv R. inversion Heq as [[Ha Hb Hc]].
  rewrite Ha, Hc. apply Hinv.
Qed.

Lemma handleLeaveRoom_settings_inv sid w :
  settings_inv w → settings_inv (handleLeaveRoom sid w).1.
Proof.
  intros Hinv. destruct (sockets w !! sid) as [s|] eqn:Hs.
  2: { by rewrite handleLeaveRoom_no_socket. }
  destruct (joined_room s) as [R|] eqn:Hj.
  2: { by rewrite (handleLeaveRoom_not_joined sid s). }
  destruct (handleLeaveRoom_fields sid s R w Hs Hj) as (_ & _ & Hp).
  unfold presence in Hp. destruct (roomUsers w !! R) as [us|] eqn:Hus.
  2: { by eapply settings_inv_ext. }
  destruct (JsMap.keys (JsMap.delete sid us)) as [|oldest rest] eqn:Hk;
    inversion Hp as [[Ha Hb Hc]]; intros R'; rewrite Ha, Hc; clear Hp Ha Hb Hc.
  - destruct (decide (R' = R)) as [->|HR].
    + rewrite lookup_delete_eq. by intros [? ?].
    + rewrite !lookup_delete_ne by done. apply Hinv.
  - destruct (decide (R' = R)) as [->|HR].
    + intros _. apply Hinv. by rewrite Hus.
    + rewrite lookup_insert_ne by done. apply Hinv.
Qed.

(** The sockets that still have a [roomId] after the loop of
    host-end-session were not touched by it, and are none of the sockets
    the loop ran over when that [roomId] is a room name. *)
Lemma leave_all_sockets ids w t s' R' :
  sockets (leave_all ids w).1 !! t = Some s' →
  sk_roomId s' = Some R' →
  sockets w !! t = Some s' ∧ (truthy_str R' = true → t ∉ ids).
Proof.
  revert w. induction ids as [|i ids IH]; intros w; cbn [leave_all].
  { cbn. intros ? ?. split; [done|]. set_solver. }
  pose proof (handleLeaveRoom_other_socket i t w) as Hother.
  pose proof (handleLeaveRoom_still_joined i s' R' w) as Hstill.
  destruct (handleLeaveRoom i w) as [w1 e1] eqn:Hl. specialize (IH w1).
  destruct (leave_all ids w1) as [w2 e2]. cbn in *.
  intros Hs' HR'. destruct (IH Hs' HR') as [Hs1 Hnot].
  destruct (decide (t = i)) as [->|Hne].
  - specialize (Hstill Hs1 HR'). simplify_eq. split; [done|].
    intros Htr Hin. unfold handleLeaveRoom in Hl. rewrite Hs1 in Hl.
    unfold joined_room in Hl. rewrite HR', Htr in Hl.
    apply (f_equal (λ p, sockets p.1 !! i)) in Hl. revert Hl.
    repeat case_match; simplify_eq; cbn; rewrite lookup_alter_eq, Hs1; cbn;
      intros [= Heq]; apply (f_equal sk_roomId) in Heq; cbn in Heq; congruence.
  - rewrite <- Hother by done. split; [done|]. intros Htr.
    rewrite not_elem_of_cons. split; [done|by apply Hnot].
Qed.

Lemma leave_all_session_invs ids w :
  registered_inv w → settings_inv w →
  registered_inv (leave_all ids w).1 ∧ settings_inv (leave_all ids w).1.
Proof.
  revert w. induction ids as [|i ids IH]; intros w Hp Hj; [done|]. cbn [leave_all].
  pose proof (handleLeaveRoom_registered_inv i w Hp) as Hp1.
  pose proof (handleLeaveRoom_settings_inv i w Hj) as Hj1.
  destruct (handleLeaveRoom i w) as [w1 e1]. cbn in Hp1, Hj1.
  specialize (IH w1 Hp1 Hj1). by destruct (leave_all ids w1) as [w2 e2].
Qed.

Lemma join_session_invs sid R dn s w :
  registered_inv w → settings_inv w →
  registered_inv (join_registries sid R dn s w)
  ∧ settings_inv (join_registries sid R dn s w).
Proof.
  intros Hreg Hset. split.
  - intros t s' R'. rewrite join_sockets. unfold members. rewrite join_roomUsers.
    destruct (decide (t = sid)) as [->|Hne].
    + rewrite lookup_insert_eq. intros [= <-]. rewrite join_socket_roomId.
      intros [= <-]. rewrite lookup_insert_eq. cbn. apply elem_of_keys_set. by left.
    + rewrite lookup_insert_ne by done. intros Hs' HR'.
      pose proof (Hreg _ _ _ Hs' HR') as Hin.
      destruct (decide (R' = R)) as [->|HR].
      * rewrite lookup_insert_eq. cbn. apply elem_of_keys_set. by right.
      * by rewrite lookup_insert_ne.
  - intros R'. rewrite join_roomUsers, join_roomSettings.
    destruct (decide (R' = R)) as [->|HR].
    + intros _. case_match; [done|by rewrite lookup_insert_eq].
    + rewrite lookup_insert_ne by done. intros Hlk. specialize (Hset R' Hlk).
      case_match; [done|by rewrite lookup_insert_ne].
Qed.

Lemma registered_inv_ext w w' :
  roomUsers w' = roomUsers w →
  (∀ t, sk_roomId <$> sockets w' !! t = sk_roomId <$> sockets w !! t) →
  registered_inv w → registered_inv w'.
Proof.
  intros Hr Hs Hinv t s' R' Hs' HR'. unfold members. rewrite Hr.
  specialize (Hs t). rewrite Hs' in Hs. cbn in Hs.
  destruct (sockets w !! t) as [s|] eqn:Hst; [|done]. cbn in Hs.
  eapply Hinv; [done|]. congruence.
Qed.

Lemma end_session_registered sid w :
  registered_inv w → settings_inv w →
  registered_inv (on_host_end_session sid w).1
  ∧ settings_inv (on_host_end_session sid w).1.
Proof.
  intros Hreg Hset. unfold on_host_end_session, host_only, in_room.
  repeat case_match; simplify_eq; try done. cbn.
  match goal with H : leave_all ?ids ?w0 = (?w1, _) |- _ =>
    destruct (leave_all_session_invs ids w0 Hreg Hset) as [Hr1 Hs1];
    pose proof (leave_all_sockets ids w0) as Hso;
    rewrite H in Hr1, Hs1, Hso
  end.
  cbn in Hr1, Hs1, Hso. split.
  - intros t s' R' Hs' HR'. cbn in Hs'. unfold members. cbn.
    destruct (Hso _ _ _ Hs' HR') as [Hs0 Hnot].
    destruct (decide (R' = s0)) as [->|HR].
    + exfalso. apply Hnot; [|by eapply Hreg].
      match goal with H : joined_room _ = Some s0 |- _ =>
        unfold joined_room in H; revert H; repeat case_match; naive_solver end.
    + rewrite lookup_delete_ne by done. by eapply Hr1.
  - intros R'. cbn. destruct (decide (R' = s0)) as [->|HR].
    + rewrite lookup_delete_eq. by intros [? ?].
    + rewrite !lookup_delete_ne by done. apply Hs1.
Qed.

Lemma step_session_invs env i w :
  registered_inv w → settings_inv w →
  registered_inv (step env i w).1 ∧ settings_inv (step env i w).1.
Proof.
  intros Hreg Hset. destruct i as [sid auth|sid e|sid|h]; cbn [step].
  - unfold connect. destruct (sockets w !! sid) eqn:Hs; [done|].
    split; [|done]. intros t s' R'. cbn. destruct (decide (t = sid)) as [->|Hne].
    + rewrite lookup_insert_eq. by intros [= <-].
    + rewrite lookup_insert_ne by done. apply Hreg.
  - destruct (moves_members e) eqn:Hm.
    + destruct e; try discriminate Hm; cbn [handle].
      * destruct (sockets w !! sid) as [s|] eqn:Hs.
        -- destruct (on_join_room_world env sid roomId displayName s w Hs) as [db ->].
           apply (join_session_invs sid roomId displayName s w Hreg Hset).
        -- unfold on_join_room. by rewrite Hs.
      * split; [by apply handleLeaveRoom_registered_inv
               | by apply handleLeaveRoom_settings_inv].
      * unfold on_host_kick_user, host_only, in_room.
        pose proof (handleLeaveRoom_registered_inv targetSocketId w Hreg).
        pose proof (handleLeaveRoom_settings_inv targetSocketId w Hset).
        repeat case_match; simplify_eq; done.
      * unfold on_host_transfer, host_only, in_room.
        repeat case_match; simplify_eq; done.
      * unfold on_host_toggle_chat, host_only, in_room.
        repeat case_match; simplify_eq; try done. split; [done|].
        intros R'. cbn. intros Hlk. specialize (Hset R' Hlk).
        destruct (decide (R' = s0)) as [->|HR];
          [by rewrite lookup_insert_eq|by rewrite lookup_insert_ne].
      * by apply end_session_registered.
    + destruct (handle_quiet env sid e w Hm) as (Hpr & Hr & Hs). split.
      * eapply registered_inv_ext; [|exact Hs|exact Hreg].
        unfold presence in Hpr. congruence.
      * by eapply settings_inv_ext; [|exact Hset].
  - unfold on_disconnect. destruct (sockets w !! sid) eqn:Hs; [|done].
    set (w1 := with_rooms (set_remove sid <$> rooms w) w).
    pose proof (handleLeaveRoom_registered_inv sid w1 Hreg) as Hr1.
    pose proof (handleLeaveRoom_settings_inv sid w1 Hset) as Hs1.
    destruct (handleLeaveRoom sid w1) as [w2 e2]. cbn in *. split; [|done].
    intros t s' R'. cbn. destruct (decide (t = sid)) as [->|Hne].
    + by rewrite lookup_delete_eq.
    + rewrite lookup_delete_ne by done. apply Hr1.
  - destruct (fire_quiet env h w) as (Hpr & Hr & Hs). split.
    + eapply registered_inv_ext; [| |exact Hreg].
      * unfold presence in Hpr. congruence.
      * intros t. by rewrite Hs.
    + by eapply settings_inv_ext; [|exact Hset].
Qed.

Lemma reachable_session_invs w :
  reachable w → registered_inv w ∧ settings_inv w.
Proof.
  induction 1 as [|env i w Hr [Hp Hj]]; [|by apply step_session_invs].
  split.
  - intros t s R. cbn. by rewrite lookup_empty.
  - intros R. cbn. rewrite lookup_empty. by intros [? ?].
Qed.

Lemma four_sockets_reachable : reachable four_sockets.
Proof. apply run_reachable, two_in_room_reachable. Qed.

Lemma joined_socket_settings w t s R :
  reachable w →
  sockets w !! t = Some s →
  sk_roomId s = Some R →
  is_Some (roomSettings w !! R).
Proof.
  intros Hr Hs HR. destruct (reachable_session_invs w Hr) as [Hreg Hset].
  pose proof (Hreg _ _ _ Hs HR) as Hin. apply Hset. unfold members in Hin.
  destruct (roomUsers w !! R); [done|]. cbn in Hin. set_solver.
Qed.

(** X1. In every world the server reaches, a connected socket whose [roomId]
    names a room is a registered member of that room and is in its adapter
    room, and the room has a host and settings. *)
Theorem joined_socket_is_member w t s R :
  reachable w →
  sockets w !! t = Some s →
  sk_roomId s = Some R →
  t ∈ JsMap.keys (members w R)
  ∧ t ∈ room_sockets w R
  ∧ is_Some (roomHosts w !! R)
  ∧ is_Some (roomSettings w !! R).
Proof.
  intros Hr Hs HR.
  destruct (reachable_invs w Hr) as [[Hhost _] Hj].
  destruct (reachable_session_invs w Hr) as [Hreg Hset].
  pose proof (Hreg _ _ _ Hs HR) as Hin. split_and!; [done | by eapply Hj | |].
  - unfold members in Hin. destruct (roomUsers w !! R) as [us|] eqn:Hus.
    + destruct (Hhost _ _ Hus) as (h & -> & _). by eexists.
    + cbn in Hin. set_solver.
  - by eapply joined_socket_settings.
Qed.

Lemma joined_socket_is_member_witness :
  "D" ∈ JsMap.keys (members four_sockets "R2")
  ∧ "D" ∈ room_sockets four_sockets "R2"
  ∧ is_Some (roomHosts four_sockets !! "R2")
  ∧ is_Some (roomSettings four_sockets !! "R2").
Proof.
  apply (joined_socket_is_member four_sockets "D"
           (default (fresh_socket "D" None) (sockets four_sockets !! "D")) "R2"
           four_sockets_reachable); by vm_compute.
Defined.

(** ** Events of a socket that is in no room *)

Lemma in_room_idle sid w body :
  (∀ s, sockets w !! sid = Some s → joined_room s = None) →
  in_room sid w body = (w, []).
Proof.
  intros Hn. unfold in_room. destruct (sockets w !! sid) as [s|]; [|done].
  by rewrite (Hn s).
Qed.

Lemma room_bound_idle env sid e w :
  room_bound e = true →
  (∀ s, sockets w !! sid = Some s → joined_room s = None) →
  handle env sid e w = (w, []).
Proof.
  intros Hb Hn. destruct e; try discriminate Hb; cbn [handle];
    try (by apply handleLeaveRoom_idle);
    unfold on_code_change, on_file_create, on_file_delete, on_file_rename,
      on_active_file_change, on_cursor_position, on_cursor_position_1,
      on_cursor_position_2, on_tab_group_create, on_tab_group_update,
      on_tab_group_delete, on_canvas_object_add, on_canvas_object_modify,
      on_canvas_object_delete, on_canvas_path_create, on_canvas_full_sync,
      on_canvas_full_sync_1, on_canvas_full_sync_2, on_canvas_file_create,
      on_canvas_file_switch, on_chat_message, on_terminal_output,
      on_request_cursors, and_then;
    rewrite ?in_room_idle by done; cbn; rewrite ?in_room_idle by done; done.
Qed.

Lemma handleLeaveRoom_left sid w s :
  sockets (handleLeaveRoom sid w).1 !! sid = Some s → joined_room s = None.
Proof.
  destruct (sockets w !! sid) as [s0|] eqn:Hs0.
  2: { rewrite handleLeaveRoom_no_socket by done. cbn. congruence. }
  destruct (joined_room s0) as [R|] eqn:Hj.
  2: { rewrite (handleLeaveRoom_not_joined sid s0) by done. cbn. congruence. }
  destruct (handleLeaveRoom_fields sid s0 R w Hs0 Hj) as (_ & -> & _).
  rewrite lookup_alter_eq, Hs0. cbn. by intros [= <-].
Qed.

(** X2. A socket that is in no room, because it has not joined one yet or
    has left, is ignored by every listener that is bound to the socket's
    room: the world stays as it is and nothing is sent or stored. *)
Theorem events_outside_a_room_are_ignored env sid e w :
  room_bound e = true →
  ((∀ s, sockets w !! sid = Some s → joined_room s = None) →
   handle env sid e w = (w, []))
  ∧ (∀ auth, sockets w !! sid = None →
     handle env sid e (connect sid auth w) = (connect sid auth w, []))
  ∧ handle env sid e (handleLeaveRoom sid w).1 = ((handleLeaveRoom sid w).1, []).
Proof.
  intros Hb. split_and!.
  - by apply room_bound_idle.
  - intros auth Hs. apply room_bound_idle; [done|]. unfold connect. rewrite Hs.
    cbn. rewrite lookup_insert_eq. by intros s [= <-].
  - apply room_bound_idle; [done|]. apply handleLeaveRoom_left.
Qed.

Lemma events_outside_a_room_are_ignored_witness :
  handle (at_time 5000) "A" (OnChatMessage "anyone?")
    (handleLeaveRoom "A" two_in_room).1
  = ((handleLeaveRoom "A" two_in_room).1, []).
Proof.
  by apply (events_outside_a_room_are_ignored (at_time 5000) "A"
              (OnChatMessage "anyone?") two_in_room).
Defined.

(** ** Host controls: what they do *)

Lemma joined_room_truthy s R : joined_room s = Some R → truthy_str R = true.
Proof. unfold joined_room. repeat case_match; naive_solver. Qed.

Lemma roomId_joined s R :
  sk_roomId s = Some R → truthy_str R = true → joined_room s = Some R.
Proof. unfold joined_room. by intros -> ->. Qed.

Lemma handleLeaveRoom_socket_dom sid t w :
  is_Some (sockets (handleLeaveRoom sid w).1 !! t) ↔ is_Some (sockets w !! t).
Proof.
  destruct (sockets w !! sid) as [s|] eqn:Hs.
  2: { by rewrite handleLeaveRoom_no_socket. }
  destruct (joined_room s) as [R|] eqn:Hj.
  2: { by rewrite (handleLeaveRoom_not_joined sid s). }
  destruct (handleLeaveRoom_fields sid s R w Hs Hj) as (_ & -> & _).
  destruct (decide (t = sid)) as [->|Hne].
  - rewrite lookup_alter_eq, Hs. cbn. split; eauto.
  - by rewrite lookup_alter_ne.
Qed.

Lemma leave_all_socket_dom ids t w :
  is_Some (sockets (leave_all ids w).1 !! t) ↔ is_Some (sockets w !! t).
Proof.
  revert w. induction ids as [|i ids IH]; intros w; [done|]. cbn [leave_all].
  pose proof (handleLeaveRoom_socket_dom i t w) as H1.
  destruct (handleLeaveRoom i w) as [w1 e1]. specialize (IH w1).
  destruct (leave_all ids w1) as [w2 e2]. cbn in *. by rewrite IH.
Qed.

(** X3. host-end-session by the host of a room: the member entry, the host
    assignment and the settings of the room are erased, the session-ended
    message goes to every socket of the room, no connected socket keeps the
    room as its [roomId], and no socket is disconnected. *)
Theorem end_session_empties_room k sk R w :
  reachable w →
  isHost k w = true →
  sockets w !! k = Some sk →
  joined_room sk = Some R →
  let r := on_host_end_session k w in
  roomUsers r.1 !! R = None
  ∧ roomHosts r.1 !! R = None
  ∧ roomSettings r.1 !! R = None
  ∧ (∀ t s', sockets r.1 !! t = Some s' → sk_roomId s' ≠ Some R)
  ∧ (∀ t, is_Some (sockets r.1 !! t) ↔ is_Some (sockets w !! t))
  ∧ (∀ t, t ∈ room_sockets w R →
          Emit t (SessionEnded (u_username (sk_user sk))) ∈ r.2).
Proof.
  intros Hr Hh Hs Hj. cbv zeta.
  unfold on_host_end_session, host_only, in_room. rewrite Hh, Hs, Hj.
  pose proof (leave_all_sockets (JsMap.keys (members w R)) w) as Hso.
  pose proof (λ t, leave_all_socket_dom (JsMap.keys (members w R)) t w) as Hdom.
  destruct (leave_all (JsMap.keys (members w R)) w) as [w1 e1]. cbn in *.
  rewrite !lookup_delete_eq. split_and!; try done.
  - intros t s' Hs' HR'. destruct (Hso _ _ _ Hs' HR') as [Hs0 Hnot].
    apply Hnot; [by eapply joined_room_truthy|].
    destruct (reachable_session_invs w Hr) as [Hreg _]. by eapply Hreg.
  - intros t Hin. apply elem_of_app. left. by apply elem_of_io_to.
Qed.

Lemma end_session_empties_room_witness :
  let r := on_host_end_session "A" four_sockets in
  roomUsers r.1 !! "R1" = None
  ∧ roomHosts r.1 !! "R1" = None
  ∧ roomSettings r.1 !! "R1" = None
  ∧ (∀ t s', sockets r.1 !! t = Some s' → sk_roomId s' ≠ Some "R1")
  ∧ (∀ t, is_Some (sockets r.1 !! t) ↔ is_Some (sockets four_sockets !! t))
  ∧ (∀ t, t ∈ room_sockets four_sockets "R1" →
          Emit t (SessionEnded "alice") ∈ r.2).
Proof.
  assert (u_username (sk_user (default (fresh_socket "A" None)
                                 (sockets four_sockets !! "A"))) = "alice")
    as Hname by (by vm_compute).
  rewrite <- Hname.
  apply (end_session_empties_room "A"
           (default (fresh_socket "A" None) (sockets four_sockets !! "A")) "R1"
           four_sockets four_sockets_reachable); by vm_compute.
Defined.

(** X4. host-kick-user by the host of a room, on a socket of that room: the
    target is told that it was kicked, is taken off the member list and out
    of the adapter room, and its [roomId] is cleared, so that the room-bound
    events it sends afterwards are ignored. *)
Theorem kick_removes_target k sk target st R w :
  isHost k w = true →
  sockets w !! k = Some sk →
  joined_room sk = Some R →
  sockets w !! target = Some st →
  sk_roomId st = Some R →
  let r := on_host_kick_user k target w in
  Emit target (YouWereKicked (u_username (sk_user sk))) ∈ r.2
  ∧ (target ∉ JsMap.keys (members r.1 R))
  ∧ (target ∉ room_sockets r.1 R)
  ∧ sk_roomId <$> sockets r.1 !! target = Some None
  ∧ (∀ env e, room_bound e = true → handle env target e r.1 = (r.1, [])).
Proof.
  intros Hh Hk Hjk Ht HR. cbv zeta.
  pose proof (roomId_joined st R HR (joined_room_truthy sk R Hjk)) as Hjt.
  unfold on_host_kick_user, host_only, in_room. rewrite Hh, Hk, Hjk, Ht, HR.
  rewrite bool_decide_eq_true_2 by done.
  destruct (handleLeaveRoom_fields target st R w Ht Hjt) as (Hro & Hso & Hp).
  pose proof (handleLeaveRoom_left target w) as Hleft.
  destruct (handleLeaveRoom target w) as [w1 e1]. cbn in *.
  split_and!.
  - by left.
  - unfold members. unfold presence in Hp.
    destruct (roomUsers w !! R) as [us|] eqn:Hus.
    + destruct (JsMap.keys (JsMap.delete target us)) as [|o rest] eqn:Hkeys;
        inversion Hp as [[Ha Hb Hc]]; rewrite Ha.
      * rewrite lookup_delete_eq. cbn. set_solver.
      * rewrite lookup_insert_eq. cbn [from_option id].
        rewrite elem_of_keys_delete. naive_solver.
    + inversion Hp as [[Ha Hb Hc]]. rewrite Ha, Hus. cbn. set_solver.
  - unfold room_sockets at 1. rewrite Hro, lookup_insert_eq. cbn.
    rewrite elem_of_set_remove. naive_solver.
  - by rewrite Hso, lookup_alter_eq, Ht.
  - intros env e Hb. by apply room_bound_idle.
Qed.

Lemma kick_removes_target_witness :
  let r := on_host_kick_user "A" "B" four_sockets in
  Emit "B" (YouWereKicked "alice") ∈ r.2
  ∧ ("B" ∉ JsMap.keys (members r.1 "R1"))
  ∧ ("B" ∉ room_sockets r.1 "R1")
  ∧ sk_roomId <$> sockets r.1 !! "B" = Some None
  ∧ (∀ env e, room_bound e = true → handle env "B" e r.1 = (r.1, [])).
Proof.
  assert (u_username (sk_user (default (fresh_socket "A" None)
                                 (sockets four_sockets !! "A"))) = "alice")
    as Hname by (by vm_compute).
  rewrite <- Hname.
  apply (kick_removes_target "A"
           (default (fresh_socket "A" None) (sockets four_sockets !! "A")) "B"
           (default (fresh_socket "B" None) (sockets four_sockets !! "B")) "R1"
           four_sockets); by vm_compute.
Defined.

(** X5. host-transfer by the host of a room to a member of that room: the
    target becomes the host, the member list is untouched and host-changed
    goes to every socket of the room. The former host has lost its
    authority: its privileged events are answered by a host-error and change
    nothing; the target has it, when the room is the one it is in. *)
Theorem transfer_moves_authority k sk target R w :
  isHost k w = true →
  sockets w !! k = Some sk →
  joined_room sk = Some R →
  target ∈ JsMap.keys (members w R) →
  let r := on_host_transfer k target w in
  roomHosts r.1 !! R = Some target
  ∧ roomUsers r.1 = roomUsers w
  ∧ (∀ t, t ∈ room_sockets w R → Emit t (HostChanged target) ∈ r.2)
  ∧ (target ≠ k →
     isHost k r.1 = false
     ∧ ∀ env e, is_privileged e = true →
         ∃ message, handle env k e r.1 = (r.1, [Emit k (HostError message)]))
  ∧ (∀ st, sockets w !! target = Some st → joined_room st = Some R →
           isHost target r.1 = true).
Proof.
  intros Hh Hk Hjk Hin. cbv zeta.
  unfold on_host_transfer, host_only, in_room. rewrite Hh, Hk, Hjk.
  unfold members in Hin. destruct (roomUsers w !! R) as [us|] eqn:Hus.
  2: { cbn in Hin. set_solver. }
  cbn in Hin. rewrite (proj2 (has_true target us) Hin). cbn.
  assert (∀ t, isHost t
                 (with_roomHosts (<[R:=target]> (roomHosts w)) w)
               = match sockets w !! t with
                 | Some s => match joined_room s with
                             | Some R' =>
                                 bool_decide (<[R:=target]> (roomHosts w) !! R' = Some t)
                             | None => false
                             end
                 | None => false
                 end) as HisHost by done.
  split_and!.
  - by rewrite lookup_insert_eq.
  - done.
  - intros t Ht. by apply elem_of_io_to.
  - intros Hne.
    assert (isHost k (with_roomHosts (<[R:=target]> (roomHosts w)) w) = false)
      as Hlost.
    { rewrite HisHost, Hk, Hjk, lookup_insert_eq.
      apply bool_decide_eq_false_2. congruence. }
    split; [done|]. intros env e Hp.
    destruct e; try discriminate Hp; cbn [handle];
      unfold on_host_kick_user, on_host_mute_user, on_host_transfer,
        on_host_toggle_chat, on_host_end_session, host_only, socket_emit;
      rewrite Hlost; eauto.
  - intros st Hst Hjt. rewrite HisHost, Hst, Hjt, lookup_insert_eq.
    by apply bool_decide_eq_true_2.
Qed.

Lemma transfer_moves_authority_witness :
  let r := on_host_transfer "A" "C" four_sockets in
  roomHosts r.1 !! "R1" = Some "C"
  ∧ isHost "A" r.1 = false
  ∧ isHost "C" r.1 = true
  ∧ ∃ message,
      handle (at_time 5000) "A" OnHostEndSession r.1
      = (r.1, [Emit "A" (HostError message)]).
Proof.
  destruct (transfer_moves_authority "A"
              (default (fresh_socket "A" None) (sockets four_sockets !! "A")) "C"
              "R1" four_sockets) as (H1 & _ & _ & H4 & H5);
    [by vm_compute | by vm_compute | by vm_compute | vm_compute; repeat constructor |].
  destruct H4 as [H4 H4']; [done|]. split_and!; [done | done | |].
  - apply (H5 (default (fresh_socket "C" None) (sockets four_sockets !! "C")));
      by vm_compute.
  - by apply H4'.
Defined.

(** X6. A host action aimed at a socket that is not in the host's room does
    nothing: host-kick-user on a socket that is unknown or has another
    [roomId], and host-transfer to a socket that is not on the member list,
    leave the world as it is and send nothing, not even to the host. *)
Theorem host_action_on_outsider k sk target R w :
  isHost k w = true →
  sockets w !! k = Some sk →
  joined_room sk = Some R →
  ((∀ st, sockets w !! target = Some st → sk_roomId st ≠ Some R) →
   on_host_kick_user k target w = (w, []))
  ∧ (target ∉ JsMap.keys (members w R) →
     on_host_transfer k target w = (w, [])).
Proof.
  intros Hh Hk Hjk. split.
  - intros Hout. unfold on_host_kick_user, host_only, in_room.
    rewrite Hh, Hk, Hjk. destruct (sockets w !! target) as [st|]; [|done].
    rewrite bool_decide_eq_false_2; [done|]. by apply Hout.
  - intros Hout. unfold on_host_transfer, host_only, in_room.
    rewrite Hh, Hk, Hjk. unfold members in Hout.
    destruct (roomUsers w !! R) as [us|]; [|done]. cbn in Hout.
    destruct (JsMap.has target us) eqn:Hhas; [|done].
    by apply has_true in Hhas.
Qed.

Lemma host_action_on_outsider_witness :
  on_host_kick_user "A" "D" four_sockets = (four_sockets, [])
  ∧ on_host_transfer "A" "D" four_sockets = (four_sockets, []).
Proof.
  destruct (host_action_on_outsider "A"
              (default (fresh_socket "A" None) (sockets four_sockets !! "A")) "D"
              "R1" four_sockets) as [H1 H2]; [by vm_compute..|].
  split.
  - apply H1. intros st. vm_compute. by intros [= <-].
  - apply H2. vm_compute. intros Hin.
    repeat (apply elem_of_cons in Hin as [Hin|Hin]; [done|]).
    by apply elem_of_nil in Hin.
Defined.

(** X7. When the host of a room with other members sends leave-room, the
    first of them in the order of the registry can act as host at once, when
    the room is the one it is in: [isHost] holds of it. host-changed names
    it to every socket of the room, the leaver included, and user-left
    carries it as the host to the others. *)
Theorem successor_host_can_act sid s R us oldest rest so w :
  sockets w !! sid = Some s →
  joined_room s = Some R →
  roomHosts w !! R = Some sid →
  roomUsers w !! R = Some us →
  JsMap.keys (JsMap.delete sid us) = oldest :: rest →
  sockets w !! oldest = Some so →
  joined_room so = Some R →
  let r := handleLeaveRoom sid w in
  isHost oldest r.1 = true
  ∧ (∀ t, t ∈ room_sockets w R → Emit t (HostChanged oldest) ∈ r.2)
  ∧ (∀ t, t ∈ room_sockets w R → t ≠ sid →
          Emit t (UserLeft (public_user sid (sk_user s))
                    (JsMap.values (JsMap.delete sid us)) (Some oldest)) ∈ r.2).
Proof.
  intros Hs Hj Hh Hus Hk Hso Hjo. cbv zeta.
  assert (oldest ≠ sid) as Hne.
  { assert (oldest ∈ JsMap.keys (JsMap.delete sid us)) as Hin
      by (rewrite Hk; by left).
    apply elem_of_keys_delete in Hin. tauto. }
  split.
  - destruct (handleLeaveRoom_fields sid s R w Hs Hj) as (_ & _ & Hp).
    pose proof (handleLeaveRoom_other_socket sid oldest w Hne) as Hother.
    rewrite Hus, Hk in Hp. unfold presence in Hp. inversion Hp as [[Ha Hb Hc]].
    unfold isHost. rewrite Hother, Hso, Hjo, Hb.
    rewrite decide_True by done. rewrite lookup_insert_eq.
    by apply bool_decide_eq_true_2.
  - unfold handleLeaveRoom. rewrite Hs, Hj, Hus. cbn [roomHosts with_roomUsers].
    rewrite bool_decide_eq_true_2 by done. rewrite Hk. unfold JsMap.size.
    assert (length (JsMap.delete sid us) ≠ 0) as Hlen.
    { intros Hz. apply nil_length_inv in Hz. by rewrite Hz in Hk. }
    destruct (length (JsMap.delete sid us)) as [|n] eqn:Hl; [done|]. cbn.
    split.
    + intros t Hin. apply elem_of_app. left. by apply elem_of_io_to.
    + intros t Hin Hnet. apply elem_of_app. right. rewrite lookup_insert_eq.
      by apply elem_of_socket_to.
Qed.

Lemma successor_host_can_act_witness :
  let r := handleLeaveRoom "A" four_sockets in
  isHost "B" r.1 = true
  ∧ Emit "A" (HostChanged "B") ∈ r.2
  ∧ Emit "C" (HostChanged "B") ∈ r.2.
Proof.
  destruct (successor_host_can_act "A"
              (default (fresh_socket "A" None) (sockets four_sockets !! "A")) "R1"
              (members four_sockets "R1") "B" ["C"]
              (default (fresh_socket "B" None) (sockets four_sockets !! "B"))
              four_sockets) as (H1 & H2 & _); [by vm_compute..|].
  split_and!; [done | apply H2 | apply H2]; vm_compute; repeat constructor.
Defined.

(** ** Joining: what the joiner is sent *)

Lemma elem_of_values_set {V} k (v : V) m : v ∈ JsMap.values (JsMap.set k v m).
Proof.
  unfold JsMap.values. induction m as [|[k' v'] m IH]; cbn; [by left|].
  case_decide; cbn; [by left|by right].
Qed.

(** The effects of a join that finds the snapshot of the room in the
    store. *)
Lemma join_effects_stored env sid s R d dn w :
  sockets w !! sid = Some s →
  store w !! R = Some d →
  storeFails env 0 = false →
  let w4 := join_registries sid R dn s w in
  on_join_room env sid R dn w
  = (w4,
     [Store (FindOne R) true]
     ++ socket_emit sid
          (RoomStateMsg R (snapshot_of d) (JsMap.values (members w4 R))
             (roomHosts w4 !! R)
             (match roomSettings w4 !! R with
              | Some settings => chatDisabled settings
              | None => false
              end))
     ++ socket_to w4 sid R
          (UserJoined (public_user sid (sk_user (join_socket R dn s)))
             (JsMap.values (members w4 R)) (roomHosts w4 !! R))).
Proof.
  intros Hs Hd Hok. cbv zeta. unfold on_join_room. rewrite Hs. cbv zeta.
  unfold getOrCreate. rewrite Hok, join_store, Hd. done.
Qed.

(** The room-state message of a join whose store calls succeed. *)
Lemma join_room_state_msg env sid s R dn w :
  sockets w !! sid = Some s →
  storeFails env 0 = false →
  storeFails env 1 = false →
  let w4 := join_registries sid R dn s w in
  Emit sid
    (RoomStateMsg R (snapshot_of (default (default_state env) (store w !! R)))
       (JsMap.values (members w4 R)) (roomHosts w4 !! R)
       (match roomSettings w4 !! R with
        | Some settings => chatDisabled settings
        | None => false
        end))
  ∈ (on_join_room env sid R dn w).2.
Proof.
  intros Hs Hok0 Hok1. cbv zeta. unfold on_join_room. rewrite Hs. cbv zeta.
  unfold getOrCreate. rewrite Hok0, join_store.
  destruct (store w !! R) as [d|]; [|rewrite Hok1]; cbn;
    rewrite !elem_of_cons; tauto.
Qed.

(** X8. A join to a room whose snapshot is stored reads it and writes
    nothing: the store is as before, the only store call is the lookup, and
    the one message to the joiner is the room-state message with that
    snapshot and a member list that holds the joiner; the others are told of
    the join. *)
Theorem join_restores_stored_snapshot env sid s R d dn w :
  sockets w !! sid = Some s →
  store w !! R = Some d →
  storeFails env 0 = false →
  let r := on_join_room env sid R dn w in
  store r.1 = store w
  ∧ (∀ c ok, Store c ok ∈ r.2 → c = FindOne R ∧ ok = true)
  ∧ (∃ users host disabled,
       Emit sid (RoomStateMsg R (snapshot_of d) users host disabled) ∈ r.2
       ∧ user_info sid (sk_user (join_socket R dn s)) ∈ users)
  ∧ (∀ m, Emit sid m ∈ r.2 →
          ∃ users host disabled,
            m = RoomStateMsg R (snapshot_of d) users host disabled)
  ∧ (∀ t, t ∈ room_sockets w R → t ≠ sid →
          ∃ u users host, Emit t (UserJoined u users host) ∈ r.2).
Proof.
  intros Hs Hd Hok. cbv zeta.
  rewrite (join_effects_stored env sid s R d dn w Hs Hd Hok). cbn [fst snd].
  split_and!.
  - apply join_store.
  - intros c ok Hin. apply elem_of_app in Hin as [Hin|Hin].
    { apply list_elem_of_singleton in Hin. by simplify_eq. }
    apply elem_of_app in Hin as [Hin|Hin].
    + apply list_elem_of_singleton in Hin. done.
    + apply list_elem_of_fmap in Hin as (? & ? & _). done.
  - eexists _, _, _. split.
    + apply elem_of_app. right. apply elem_of_app. left. by left.
    + rewrite join_members. apply elem_of_values_set.
  - intros m Hin. apply elem_of_app in Hin as [Hin|Hin].
    { apply list_elem_of_singleton in Hin. done. }
    apply elem_of_app in Hin as [Hin|Hin].
    + apply elem_of_socket_emit in Hin as [_ ->]. eauto.
    + apply elem_of_socket_to in Hin. naive_solver.
  - intros t Hin Hne. eexists _, _, _. apply elem_of_app. right.
    apply elem_of_app. right. apply elem_of_socket_to. split_and!; [done| |done].
    rewrite join_room_sockets, decide_True by done. apply elem_of_set_add. by right.
Qed.

Lemma join_restores_stored_snapshot_witness :
  let r := on_join_room (at_time 6000) "D" "R1" (Some "dave") four_sockets in
  store r.1 = store four_sockets
  ∧ (∃ users host disabled,
       Emit "D" (RoomStateMsg "R1"
                   (snapshot_of (default (default_state (at_time 0))
                                   (store four_sockets !! "R1")))
                   users host disabled) ∈ r.2)
  ∧ ∃ u users host, Emit "A" (UserJoined u users host) ∈ r.2.
Proof.
  destruct (join_restores_stored_snapshot (at_time 6000) "D"
              (default (fresh_socket "D" None) (sockets four_sockets !! "D")) "R1"
              (default (default_state (at_time 0)) (store four_sockets !! "R1"))
              (Some "dave") four_sockets) as (H1 & _ & H3 & _ & H5);
    [by vm_compute..|].
  split_and!; [done | |].
  - destruct H3 as (users & host & disabled & H3 & _). eauto.
  - apply H5; [vm_compute; repeat constructor | done].
Defined.

(** X9. A join whose store call throws: the joiner gets the error message
    and nothing else, nobody else is told anything and the store is as
    before; yet the socket is already registered: it is on the member list
    and in the adapter room of the room, its [roomId] is set, and it is the
    host if the room had none. *)
Theorem failed_join_still_registers env sid s R dn w :
  sockets w !! sid = Some s →
  storeFails env 0 = true ∨ (store w !! R = None ∧ storeFails env 1 = true) →
  let r := on_join_room env sid R dn w in
  (∀ t m, Emit t m ∈ r.2 → t = sid ∧ m = ErrorMsg "Failed to join room")
  ∧ Emit sid (ErrorMsg "Failed to join room") ∈ r.2
  ∧ ConsoleError JoinRoomError ∈ r.2
  ∧ store r.1 = store w
  ∧ sid ∈ JsMap.keys (members r.1 R)
  ∧ sid ∈ room_sockets r.1 R
  ∧ sk_roomId <$> sockets r.1 !! sid = Some (Some R)
  ∧ roomHosts r.1 !! R = Some (default sid (roomHosts w !! R)).
Proof.
  intros Hs Hfail. cbv zeta.
  assert (on_join_room env sid R dn w
          = (join_registries sid R dn s w,
             (if storeFails env 0 then [Store (FindOne R) false]
              else [Store (FindOne R) true;
                    Store (Create R (default_state env)) false])
             ++ [ConsoleError JoinRoomError;
                 Emit sid (ErrorMsg "Failed to join room")])) as ->.
  { unfold on_join_room. rewrite Hs. cbv zeta. unfold getOrCreate.
    rewrite join_store. destruct Hfail as [->|[-> ->]]; [done|].
    by destruct (storeFails env 0). }
  cbn [fst snd]. split_and!.
  - intros t m. rewrite elem_of_app.
    intros [Hin|Hin].
    + destruct (storeFails env 0); set_solver.
    + set_solver.
  - apply elem_of_app. right. set_solver.
  - apply elem_of_app. right. set_solver.
  - apply join_store.
  - rewrite join_members. apply elem_of_keys_set. by left.
  - rewrite join_room_sockets, decide_True by done. apply elem_of_set_add. by left.
  - rewrite join_sockets, lookup_insert_eq. cbn [fmap option_fmap option_map].
    by rewrite join_socket_roomId.
  - rewrite join_roomHosts. destruct (roomHosts w !! R) as [h|] eqn:Hh; cbn.
    + done.
    + by rewrite lookup_insert_eq.
Qed.

Lemma failed_join_still_registers_witness :
  let r := on_join_room (failing_store 6000) "D" "R9" None four_sockets in
  (∀ t m, Emit t m ∈ r.2 → t = "D" ∧ m = ErrorMsg "Failed to join room")
  ∧ Emit "D" (ErrorMsg "Failed to join room") ∈ r.2
  ∧ ConsoleError JoinRoomError ∈ r.2
  ∧ store r.1 = store four_sockets
  ∧ "D" ∈ JsMap.keys (members r.1 "R9")
  ∧ "D" ∈ room_sockets r.1 "R9"
  ∧ sk_roomId <$> sockets r.1 !! "D" = Some (Some "R9")
  ∧ roomHosts r.1 !! "R9" = Some "D".
Proof.
  apply (failed_join_still_registers (failing_store 6000) "D"
           (default (fresh_socket "D" None) (sockets four_sockets !! "D")) "R9"
           None four_sockets); [by vm_compute | by left].
Defined.

(** X10. The chat-disabled flag set by the host is what a later joiner is
    told: host-toggle-chat by the host of a room stores the flag in the
    settings of the room and sends chat-toggled to every socket of the room,
    and a socket that joins the room afterwards gets a room-state message
    that carries the flag. *)
Theorem chat_toggle_reaches_late_joiner env k sk R disabled t st dn w :
  reachable w →
  isHost k w = true →
  sockets w !! k = Some sk →
  joined_room sk = Some R →
  sockets w !! t = Some st →
  storeFails env 0 = false →
  storeFails env 1 = false →
  let r := on_host_toggle_chat k disabled w in
  roomSettings r.1 !! R = Some {| chatDisabled := disabled |}
  ∧ (∀ t', t' ∈ room_sockets w R →
           Emit t' (ChatToggled disabled (u_username (sk_user sk))) ∈ r.2)
  ∧ ∃ snapshot users host,
      Emit t (RoomStateMsg R snapshot users host disabled)
      ∈ (on_join_room env t R dn r.1).2.
Proof.
  intros Hr Hh Hk Hjk Ht Hok0 Hok1. cbv zeta.
  destruct (joined_socket_settings w k sk R Hr Hk (joined_room_roomId sk R Hjk))
    as [set0 Hset].
  unfold on_host_toggle_chat, host_only, in_room. rewrite Hh, Hk, Hjk, Hset.
  cbn [fst snd]. split_and!.
  - cbn. by rewrite lookup_insert_eq.
  - intros t' Hin. by apply elem_of_io_to.
  - set (w1 := with_roomSettings _ w).
    pose proof (join_room_state_msg env t st R dn w1 Ht Hok0 Hok1) as Hmsg.
    cbv zeta in Hmsg. rewrite join_roomSettings in Hmsg.
    assert (roomSettings w1 !! R = Some {| chatDisabled := disabled |}) as Hs1
      by (unfold w1; cbn; by rewrite lookup_insert_eq).
    rewrite Hs1 in Hmsg. rewrite Hs1 in Hmsg. cbn in Hmsg. eauto.
Qed.

Lemma chat_toggle_reaches_late_joiner_witness :
  let r := on_host_toggle_chat "A" true four_sockets in
  roomSettings r.1 !! "R1" = Some {| chatDisabled := true |}
  ∧ ∃ snapshot users host,
      Emit "D" (RoomStateMsg "R1" snapshot users host true)
      ∈ (on_join_room (at_time 6000) "D" "R1" None r.1).2.
Proof.
  destruct (chat_toggle_reaches_late_joiner (at_time 6000) "A"
              (default (fresh_socket "A" None) (sockets four_sockets !! "A")) "R1"
              true "D"
              (default (fresh_socket "D" None) (sockets four_sockets !! "D"))
              None four_sockets four_sockets_reachable)
    as (H1 & _ & H3); [by vm_compute..|].
  by split.
Defined.

(** ** The write coalescer and the late joiner *)

Lemma edited_room_reachable : reachable edited_room.
Proof. apply run_reachable, two_in_room_reachable. Qed.






Lemma set_file_content_missing R f c t1 t2 db :
  (∀ d, db !! R = Some d → file_content d f = None) →
  apply_call (SetFileContent R f c t1 t2) db = db.
Proof.
  intros Hmiss. unfold apply_call. cbn.
  destruct (db !! R) as [d|]; [|done]. specialize (Hmiss d eq_refl).
  destruct (existsb (has_file f) (rs_codeFiles d)) eqn:Hex; [|done].
  apply existsb_find_file in Hex as [x Hx]. unfold file_content in Hmiss.
  by rewrite Hx in Hmiss.
Qed.

Lemma save_files_missing env R k files db :
  (∀ j, storeFails env j = false) →
  (∀ d f c, db !! R = Some d → (f, c) ∈ files → file_content d f = None) →
  (save_files env R k files db).1.1 = db
  ∧ length (save_files env R k files db).1.2 = length files.
Proof.
  intros Hok. revert k. induction files as [|[f c] rest IH]; intros k Hmiss; [done|].
  cbn [save_files]. rewrite Hok. rewrite set_file_content_missing.
  2: { intros d Hd. eapply Hmiss; [done|by left]. }
  specialize (IH (S k)). destruct (save_files env R (S k) rest db) as [[db' eff] ok].
  cbn in *. destruct IH as [-> ->]; [|done].
  intros d f' c' Hd Hin. eapply Hmiss; [done|by right].
Qed.

(** X13. A pending edit of a file that the stored snapshot of the room does
    not hold, or of a room without a stored snapshot, is lost at the flush:
    the store call succeeds without matching anything, the store is as
    before, and the pending entries of the room are cleared. *)
Theorem flush_drops_unknown_files env h t files w :
  timeouts w !! h = Some t →
  (to_due t ≤ now env 0)%N →
  pendingSaves w !! to_roomId t = Some files →
  files ≠ [] →
  (∀ k, storeFails env k = false) →
  (∀ d f c, store w !! to_roomId t = Some d → (f, c) ∈ files →
            file_content d f = None) →
  let r := fire env h w in
  store r.1 = store w
  ∧ pendingSaves r.1 !! to_roomId t = None
  ∧ (∀ e, e ∈ r.2 → ∃ c, e = Store c true)
  ∧ writes r.2 = (λ p : string * string, (to_roomId t, p.1, p.2)) <$> files.
Proof.
  intros Ht Hdue Hp Hne Hok Hmiss. cbv zeta.
  rewrite (fire_due env h t w Ht Hdue).
  destruct (flush_ok env (to_roomId t) files
              (with_timeouts (delete h (timeouts w)) w) Hok Hp Hne)
    as (Hw & Hp' & Hst & Heff).
  rewrite Hst, Hp'. cbn.
  destruct (save_files_missing env (to_roomId t) 0 files (store w) Hok Hmiss)
    as [-> _].
  split_and!; [done | by rewrite lookup_delete_eq | done | done].
Qed.

Lemma flush_drops_unknown_files_witness :
  let w1 := (on_code_change (at_time 2000) "A" "no-such-file" (Some "lost") None
               four_sockets).1 in
  let r := fire (at_time 4000) (nextTimeout four_sockets) w1 in
  store r.1 = store w1
  ∧ pendingSaves r.1 !! "R1" = None
  ∧ (∀ e, e ∈ r.2 → ∃ c, e = Store c true)
  ∧ writes r.2 = [("R1", "no-such-file", "lost")].
Proof.
  apply (flush_drops_unknown_files (at_time 4000) (nextTimeout four_sockets)
           {| to_roomId := "R1"; to_due := 4000 |} [("no-such-file", "lost")]
           (on_code_change (at_time 2000) "A" "no-such-file" (Some "lost") None
              four_sockets).1); try by vm_compute.
  intros d f c. vm_compute. intros [= <-] Hin.
  apply list_elem_of_singleton in Hin. by simplify_eq.
Defined.

(** X14. A code-change without content, or with an empty file id, is relayed
    to the others like any other and records nothing, yet it restarts the
    timer of the room: a timeout that was pending for the room is cancelled
    and a new one is due two seconds later, so the flush of what is pending
    is put off. *)
Theorem edit_without_content_restarts_timer env sid s R f content cur w :
  reachable w →
  sockets w !! sid = Some s →
  joined_room s = Some R →
  content = None ∨ truthy_str f = false →
  let r := on_code_change env sid f content cur w in
  pendingSaves r.1 = pendingSaves w
  ∧ store r.1 = store w
  ∧ saveTimers r.1 !! R = Some (nextTimeout w)
  ∧ timeouts r.1 !! nextTimeout w
    = Some {| to_roomId := R; to_due := (now env 0 + 2000)%N |}
  ∧ (∀ h0, saveTimers w !! R = Some h0 → timeouts r.1 !! h0 = None)
  ∧ (∀ t, t ∈ room_sockets w R → t ≠ sid →
          Emit t (CodeChange f content cur (u_id (sk_user s))
                    (u_username (sk_user s))) ∈ r.2).
Proof.
  intros Hr Hs Hj Hnone. cbv zeta.
  rewrite (code_change_joined env sid s R f content cur w Hs Hj).
  destruct (debouncedSave_rest env R f content w) as (Hst & _).
  destruct (reachable_coalescer_inv w Hr) as [_ _ Hh].
  split_and!.
  - rewrite debouncedSave_pendingSaves.
    destruct Hnone as [->| ->]; [done|by destruct content].
  - done.
  - by rewrite debouncedSave_saveTimers, lookup_insert_eq.
  - by rewrite debouncedSave_timeouts, lookup_insert_eq.
  - intros h0 Hh0. rewrite debouncedSave_timeouts, Hh0.
    pose proof (Hh _ _ Hh0). rewrite lookup_insert_ne by lia.
    by rewrite lookup_delete_eq.
  - intros t Hin Hne. unfold on_code_change, in_room. rewrite Hs, Hj. cbn.
    by apply elem_of_socket_to.
Qed.

Lemma edit_without_content_restarts_timer_witness :
  let r := on_code_change (at_time 3000) "B" "1002" None None edited_room in
  pendingSaves r.1 = pendingSaves edited_room
  ∧ timeouts r.1 !! 2 = None
  ∧ timeouts r.1 !! 3 = Some {| to_roomId := "R1"; to_due := 5000 |}.
Proof.
  destruct (edit_without_content_restarts_timer (at_time 3000) "B"
              (default (fresh_socket "B" None) (sockets edited_room !! "B")) "R1"
              "1002" None None edited_room edited_room_reachable)
    as (H1 & _ & _ & H4 & H5 & _); [by vm_compute | by vm_compute | by left |].
  split_and!; [done | by apply H5 | exact H4].
Defined.

(** ** The stored snapshot under the surface events *)

Lemma apply_call_other c db R' :
  call_room c ≠ R' → apply_call c db !! R' = db !! R'.
Proof.
  intros Hne. unfold apply_call.
  destruct c; cbn in *; try done; try (by rewrite lookup_insert_ne);
    repeat case_match; by rewrite ?lookup_insert_ne.
Qed.

Lemma save_files_other env R R' k files db :
  R ≠ R' → (save_files env R k files db).1.1 !! R' = db !! R'.
Proof.
  intros Hne. revert k db. induction files as [|[f c] rest IH]; intros k db; [done|].
  cbn [save_files]. destruct (storeFails env k); [done|].
  specialize (IH (S k) (apply_call
    (SetFileContent R f c (now env (2 * k + 1)) (now env (2 * k + 2))) db)).
  destruct (save_files env R (S k) rest _) as [[db' eff] ok].
  cbn [fst snd] in *. rewrite IH. by apply apply_call_other.
Qed.

Lemma handleLeaveRoom_store sid w : store (handleLeaveRoom sid w).1 = store w.
Proof. unfold handleLeaveRoom. by repeat case_match; simplify_eq. Qed.

Lemma leave_all_store ids w : store (leave_all ids w).1 = store w.
Proof.
  revert w. induction ids as [|i ids IH]; intros w; [done|]. cbn [leave_all].
  pose proof (handleLeaveRoom_store i w) as H1.
  destruct (handleLeaveRoom i w) as [w1 e1]. specialize (IH w1).
  destruct (leave_all ids w1) as [w2 e2]. cbn in *. congruence.
Qed.

Ltac store_case Hout :=
  unfold_handlers; repeat case_match; simplify_eq;
  cbn [fst snd store with_store]; try done;
  apply apply_call_other; cbn; intros ->; by eapply Hout.

Lemma full_sync_1_store env sid payload R' w :
  (∀ s, sockets w !! sid = Some s → joined_room s ≠ Some R') →
  store (on_canvas_full_sync_1 env sid payload w).1 !! R' = store w !! R'
  ∧ sockets (on_canvas_full_sync_1 env sid payload w).1 = sockets w.
Proof.
  intros Hout. split; [store_case Hout|].
  unfold_handlers; repeat case_match; by simplify_eq.
Qed.

Lemma full_sync_2_store env sid payload R' w :
  (∀ s, sockets w !! sid = Some s → joined_room s ≠ Some R') →
  store (on_canvas_full_sync_2 env sid payload w).1 !! R' = store w !! R'
  ∧ sockets (on_canvas_full_sync_2 env sid payload w).1 = sockets w.
Proof.
  intros Hout. split; [store_case Hout|].
  unfold_handlers; repeat case_match; by simplify_eq.
Qed.

(** X15. An input writes to the snapshot of no room but its own: an event of
    a socket leaves the stored snapshot of every room alone that is neither
    the room the socket is in nor the room it asks to join, and a timeout
    leaves alone every room but the one it was set for. *)
Theorem store_isolation env R' w :
  (∀ sid e,
     (∀ s, sockets w !! sid = Some s → joined_room s ≠ Some R') →
     (∀ dn, e ≠ OnJoinRoom R' dn) →
     store (handle env sid e w).1 !! R' = store w !! R')
  ∧ (∀ h, (∀ t, timeouts w !! h = Some t → to_roomId t ≠ R') →
          store (fire env h w).1 !! R' = store w !! R').
Proof.
  split.
  - intros sid e Hout Hnj. destruct e; cbn [handle].
    + destruct (decide (roomId = R')) as [->|HR]; [by edestruct Hnj|].
      unfold on_join_room. destruct (sockets w !! sid) as [s|]; [|done].
      cbv zeta. unfold getOrCreate. rewrite join_store.
      repeat case_match; simplify_eq; cbn; rewrite ?join_store; try done.
      all: try by rewrite lookup_insert_ne.
    + by rewrite handleLeaveRoom_store.
    + destruct (sockets w !! sid) as [s|] eqn:Hs;
        [destruct (joined_room s) as [R|] eqn:Hj|].
      * rewrite (code_change_joined env sid s R fileId content cursorPosition w
                   Hs Hj).
        by destruct (debouncedSave_rest env R fileId content w) as (-> & _).
      * unfold on_code_change, in_room. by rewrite Hs, Hj.
      * unfold on_code_change, in_room. by rewrite Hs.
    + store_case Hout.
    + store_case Hout.
    + store_case Hout.
    + store_case Hout.
    + store_case Hout.
    + store_case Hout.
    + store_case Hout.
    + store_case Hout.
    + store_case Hout.
    + store_case Hout.
    + store_case Hout.
    + store_case Hout.
    + unfold on_canvas_full_sync, and_then.
      pose proof (full_sync_1_store env sid payload R' w Hout) as [H1 Hso].
      destruct (on_canvas_full_sync_1 env sid payload w) as [w1 e1].
      cbn [fst] in H1, Hso.
      pose proof (full_sync_2_store env sid payload R' w1) as [H2 _].
      { by rewrite Hso. }
      destruct (on_canvas_full_sync_2 env sid payload w1) as [w2 e2].
      cbn [fst] in *. congruence.
    + store_case Hout.
    + store_case Hout.
    + store_case Hout.
    + unfold on_voice_join, on_voice_join_1, on_voice_join_2, and_then,
        update_socket.
      repeat case_match; simplify_eq; cbn in *; simplify_eq; done.
    + unfold on_voice_leave, on_voice_leave_1, on_voice_leave_2, and_then,
        in_room, update_socket.
      repeat case_match; simplify_eq; cbn in *; simplify_eq; done.
    + unfold on_voice_mute, on_voice_mute_1, on_voice_mute_2, and_then, in_room.
      repeat case_match; simplify_eq; cbn in *; simplify_eq; done.
    + store_case Hout.
    + store_case Hout.
    + unfold on_host_kick_user, host_only, in_room.
      pose proof (handleLeaveRoom_store targetSocketId w).
      repeat case_match; simplify_eq; cbn in *; congruence.
    + store_case Hout.
    + store_case Hout.
    + store_case Hout.
    + unfold on_host_end_session, host_only, in_room.
      repeat case_match; simplify_eq; cbn; try done.
      match goal with H : leave_all ?ids ?w0 = (?w1, _) |- _ =>
        pose proof (leave_all_store ids w0) as Hst; rewrite H in Hst end.
      cbn in Hst. by rewrite Hst.
  - intros h Hout. unfold fire. destruct (timeouts w !! h) as [t|]; [|done].
    specialize (Hout t eq_refl). case_match; [|done]. unfold flush.
    cbn [pendingSaves store with_timeouts].
    destruct (pendingSaves w !! to_roomId t) as [files|]; [|done].
    destruct (0 <? JsMap.size files)%nat; [|done].
    pose proof (save_files_other env (to_roomId t) R' 0 files (store w) Hout) as Ho.
    destruct (save_files env (to_roomId t) 0 files (store w)) as [[db eff] ok].
    cbn [fst snd] in Ho. by destruct ok.
Qed.

Lemma store_isolation_witness :
  store (handle (at_time 7000) "A" (OnChatMessage "hi") four_sockets).1 !! "R2"
  = store four_sockets !! "R2".
Proof.
  apply (proj1 (store_isolation (at_time 7000) "R2" four_sockets)); [|done].
  intros s. vm_compute. by intros [= <-].
Defined.

Lemma relay_and_store_ok env sid R m c site d w :
  storeFails env 0 = false →
  call_room c = R →
  store w !! R = Some d →
  (∀ r doc, c ≠ Create r doc) → (∀ r, c ≠ FindOne r) →
  store (relay_and_store env sid R m c site w).1
  = match update_doc c d with
    | Some d' => <[R := d']> (store w)
    | None => store w
    end.
Proof.
  intros Hok HR Hd Hc Hf. unfold relay_and_store, try_store. rewrite Hok. cbn.
  unfold apply_call. rewrite HR, Hd.
  destruct c; try done; [by edestruct Hf | by edestruct Hc].
Qed.

Lemma set_codeFiles_same d : set_codeFiles (rs_codeFiles d) d = d.
Proof. by destruct d. Qed.

Lemma filter_absent_file f l :
  List.find (has_file f) l = None → filter (λ x, cf_id x ≠ f) l = l.
Proof.
  unfold has_file. induction l as [|x l IH]; [done|]. cbn [List.find].
  case_bool_decide as Hx; [done|]. intros Hf.
  rewrite filter_cons_True by done. by rewrite IH.
Qed.

(** X16. file-create followed by file-delete of the same id: the stored
    files are the files of before without those that had the id, so on a
    fresh id the store is back to what it was, and on an id that was in use
    the file that had it is gone as well. *)
Theorem file_create_then_delete env1 env2 sid s R d file w :
  sockets w !! sid = Some s →
  joined_room s = Some R →
  store w !! R = Some d →
  storeFails env1 0 = false →
  storeFails env2 0 = false →
  let w1 := (on_file_create env1 sid file w).1 in
  let w2 := (on_file_delete env2 sid (cf_id file) w1).1 in
  store w1 !! R = Some (set_codeFiles (rs_codeFiles d ++ [file]) d)
  ∧ store w2 !! R
    = Some (set_codeFiles
              (filter (λ x, cf_id x ≠ cf_id file) (rs_codeFiles d)) d)
  ∧ (file_content d (cf_id file) = None → store w2 = store w).
Proof.
  intros Hs Hj Hd Hok1 Hok2. cbv zeta.
  assert (sockets (on_file_create env1 sid file w).1 = sockets w) as Hso.
  { unfold_handlers. by repeat case_match; simplify_eq. }
  assert (store (on_file_create env1 sid file w).1
          = <[R := set_codeFiles (rs_codeFiles d ++ [file]) d]> (store w)) as Hst1.
  { unfold on_file_create, in_room. rewrite Hs, Hj.
    by rewrite (relay_and_store_ok _ _ R _ _ _ d). }
  assert (store (on_file_delete env2 sid (cf_id file)
                   (on_file_create env1 sid file w).1).1
          = <[R := set_codeFiles
                     (filter (λ x, cf_id x ≠ cf_id file) (rs_codeFiles d)) d]>
              (store w)) as Hst2.
  { unfold on_file_delete, in_room. rewrite Hso, Hs, Hj.
    rewrite (relay_and_store_ok _ _ R _ _ _
               (set_codeFiles (rs_codeFiles d ++ [file]) d));
      [|done|done|by rewrite Hst1, lookup_insert_eq|done|done].
    cbn. rewrite Hst1, insert_insert_eq. f_equal.
    rewrite filter_app, filter_cons_False, filter_nil, app_nil_r by naive_solver.
    done. }
  split_and!.
  - by rewrite Hst1, lookup_insert_eq.
  - by rewrite Hst2, lookup_insert_eq.
  - intros Hfresh. rewrite Hst2. unfold file_content in Hfresh.
    rewrite filter_absent_file.
    + rewrite set_codeFiles_same. by apply insert_id.
    + by destruct (List.find (has_file (cf_id file)) (rs_codeFiles d)).
Qed.

Lemma file_create_then_delete_witness :
  let file := {| cf_id := "f7"; cf_filename := "tmp.py"; cf_language := "python";
                 cf_content := "pass"; cf_groupId := None;
                 cf_lastModified := 7000 |} in
  let w1 := (on_file_create (at_time 7000) "A" file four_sockets).1 in
  store (on_file_delete (at_time 7001) "A" "f7" w1).1 = store four_sockets.
Proof.
  destruct (file_create_then_delete (at_time 7000) (at_time 7001) "A"
              (default (fresh_socket "A" None) (sockets four_sockets !! "A")) "R1"
              (default (default_state (at_time 0)) (store four_sockets !! "R1"))
              {| cf_id := "f7"; cf_filename := "tmp.py"; cf_language := "python";
                 cf_content := "pass"; cf_groupId := None;
                 cf_lastModified := 7000 |}
              four_sockets) as (_ & _ & H3); [by vm_compute..|].
  apply H3. by vm_compute.
Defined.

Lemma map_update_first {A B} (g : A → B) p (h : A → A) l :
  (∀ x, g (h x) = g x) → g <$> update_first p h l = g <$> l.
Proof.
  intros Hg. induction l as [|x l IH]; [done|]. cbn.
  destruct (p x); cbn; [by rewrite Hg|by rewrite IH].
Qed.

(** X17. file-rename on a healthy store changes names only: every file keeps
    its content, the files keep their ids and their order, the first file
    with the id has the new name, and when no file has the id the snapshot
    is as before. *)
Theorem rename_keeps_contents env sid s R d f newName w :
  sockets w !! sid = Some s →
  joined_room s = Some R →
  store w !! R = Some d →
  storeFails env 0 = false →
  ∃ d', store (on_file_rename env sid f newName w).1 !! R = Some d'
        ∧ (∀ f', file_content d' f' = file_content d f')
        ∧ cf_id <$> rs_codeFiles d' = cf_id <$> rs_codeFiles d
        ∧ cf_content <$> rs_codeFiles d' = cf_content <$> rs_codeFiles d
        ∧ (is_Some (file_content d f) →
           cf_filename <$> List.find (has_file f) (rs_codeFiles d')
           = Some newName)
        ∧ (file_content d f = None → d' = d).
Proof.
  intros Hs Hj Hd Hok. unfold on_file_rename, in_room. rewrite Hs, Hj.
  rewrite (relay_and_store_ok _ _ R _ _ _ d) by done. cbn.
  destruct (existsb (has_file f) (rs_codeFiles d)) eqn:Hex.
  - eexists. rewrite lookup_insert_eq. split; [done|]. cbn.
    apply existsb_find_file in Hex as [x Hx]. split_and!.
    + intros f'. unfold file_content. cbn. rewrite find_update_first by done.
      case_decide; [subst f'|done]. by destruct (List.find (has_file f) _).
    + by apply map_update_first.
    + by apply map_update_first.
    + intros _. rewrite find_update_first by done. rewrite decide_True by done.
      by rewrite Hx.
    + unfold file_content. by rewrite Hx.
  - exists d. split; [done|]. split_and!; try done.
    intros [c Hc]. unfold file_content in Hc.
    destruct (List.find (has_file f) (rs_codeFiles d)) as [x|] eqn:Hx; [|done].
    assert (is_Some (List.find (has_file f) (rs_codeFiles d))) as Hsome by eauto.
    apply existsb_find_file in Hsome. congruence.
Qed.

Lemma rename_keeps_contents_witness :
  ∃ d', store (on_file_rename (at_time 7000) "B" "1002" "app.py" four_sockets).1
        !! "R1" = Some d'
        ∧ file_content d' "1002" = Some welcome_content
        ∧ cf_filename <$> List.find (has_file "1002") (rs_codeFiles d')
          = Some "app.py".
Proof.
  destruct (rename_keeps_contents (at_time 7000) "B"
              (default (fresh_socket "B" None) (sockets four_sockets !! "B")) "R1"
              (default (default_state (at_time 0)) (store four_sockets !! "R1"))
              "1002" "app.py" four_sockets)
    as (d' & H1 & H2 & _ & _ & H5 & _); [by vm_compute..|].
  exists d'. split_and!; [done | by rewrite H2 |].
  apply H5. vm_compute. by eexists.
Defined.

(** ** The chat history over a run *)

Lemma drop_last_app {A} n (L B : list A) :
  drop (length (drop (length L - n) L ++ B) - n) (drop (length L - n) L ++ B)
  = drop (length (L ++ B) - n) (L ++ B).
Proof.
  rewrite <- (drop_app_le L B) by lia.
  rewrite drop_drop, length_drop, !length_app. f_equal. lia.
Qed.

Lemma chat_message_sockets env sid message w :
  sockets (on_chat_message env sid message w).1 = sockets w.
Proof. unfold_handlers. by repeat case_match; simplify_eq. Qed.

(** X18. A run of chat messages of sockets of one room, on a healthy store:
    the stored chat history is the last hundred entries of the history of
    before followed by the messages of the run, in the order they were sent. *)
Theorem chat_history_is_last_hundred R msgs : ∀ d w,
  store w !! R = Some d →
  (length (rs_chatMessages d) ≤ 100)%nat →
  (∀ m, m ∈ msgs →
        storeFails m.1.1 0 = false
        ∧ ∃ s, sockets w !! m.1.2 = Some s ∧ joined_room s = Some R) →
  ∃ built d',
    store (run (chat_inputs msgs) w).1 !! R = Some d'
    ∧ cm_message <$> built = msgs.*2
    ∧ rs_chatMessages d'
      = drop (length (rs_chatMessages d ++ built) - 100)
          (rs_chatMessages d ++ built)
    ∧ length (rs_chatMessages d')
      = 100 `min` (length (rs_chatMessages d) + length msgs).
Proof.
  induction msgs as [|[[env sid] message] rest IH]; intros d w Hd Hlen Hall.
  - exists [], d. rewrite app_nil_r.
    replace (length (rs_chatMessages d) - 100) with 0 by lia.
    split_and!; [done | done | done | cbn [length]; lia].
  - destruct (Hall (env, sid, message)) as (Hok & s & Hs & Hj); [by left|].
    cbn in Hok, Hs.
    cbn [chat_inputs fmap list_fmap run step fst snd]. fold (chat_inputs rest).
    pose proof (chat_message_store env sid s R d message w Hs Hj Hd Hok) as Hst.
    pose proof (chat_message_sockets env sid message w) as Hso.
    change (handle env sid (OnChatMessage message) w)
      with (on_chat_message env sid message w).
    destruct (on_chat_message env sid message w) as [w1 e1]. cbn [fst] in Hst, Hso.
    set (msg := {| cm_id := "msg-" +:+ pretty (now env 0) +:+ "-" +:+ random env;
                   cm_userId := u_id (sk_user s);
                   cm_username := u_username (sk_user s);
                   cm_message := message; cm_timestamp := now env 1 |}) in Hst.
    destruct (IH _ w1 Hst) as (built & d' & Hd' & Hb & Hchat & Hl).
    { cbn [rs_chatMessages set_chatMessages]. rewrite push_slice_length. lia. }
    { intros m Hm. rewrite Hso. apply Hall. by right. }
    destruct (run (chat_inputs rest) w1) as [w2 e2]. cbn [fst] in *.
    exists (msg :: built), d'. split_and!.
    + done.
    + cbn. by rewrite Hb.
    + rewrite Hchat. cbn [rs_chatMessages set_chatMessages]. unfold push_slice.
      rewrite drop_last_app. by rewrite <- !app_assoc.
    + rewrite Hl. cbn [rs_chatMessages set_chatMessages].
      rewrite push_slice_length. cbn [length]. lia.
Qed.

Lemma chat_history_is_last_hundred_witness :
  ∃ built d',
    store (run (chat_inputs [(at_time 8000, "B", "one"); (at_time 8001, "A", "two")])
             full_chat_room).1 !! "R1" = Some d'
    ∧ cm_message <$> built = ["one"; "two"]
    ∧ length (rs_chatMessages d') = 100.
Proof.
  destruct (chat_history_is_last_hundred "R1"
              [(at_time 8000, "B", "one"); (at_time 8001, "A", "two")]
              (default (default_state (at_time 0)) (store full_chat_room !! "R1"))
              full_chat_room) as (built & d' & H1 & H2 & _ & H4).
  - by vm_compute.
  - vm_compute. lia.
  - intros m Hm. apply elem_of_cons in Hm as [->|Hm];
      [|apply list_elem_of_singleton in Hm as ->]; (split; [done|]).
    + exists (default (fresh_socket "B" None) (sockets full_chat_room !! "B")).
      split; vm_compute; reflexivity.
    + exists (default (fresh_socket "A" None) (sockets full_chat_room !! "A")).
      split; vm_compute; reflexivity.
  - exists built, d'. split_and!; [done | done |]. rewrite H4. by vm_compute.
Defined.

(** ** RoomState.getOrCreate *)

(** X19. [getOrCreate] on a healthy store returns the stored snapshot of the
    room, which it has created if there was none, and leaves the snapshots
    of the other rooms alone; a second call creates nothing, changes nothing
    and returns the same snapshot, whatever the clock reads. *)
Theorem getOrCreate_twice env1 env2 R w :
  storeFails env1 0 = false →
  storeFails env1 1 = false →
  storeFails env2 0 = false →
  let r1 := getOrCreate env1 R w in
  let r2 := getOrCreate env2 R r1.1.1 in
  is_Some r1.2
  ∧ store r1.1.1 !! R = r1.2
  ∧ (∀ R', R' ≠ R → store r1.1.1 !! R' = store w !! R')
  ∧ r2.2 = r1.2
  ∧ r2.1.1 = r1.1.1
  ∧ r2.1.2 = [Store (FindOne R) true].
Proof.
  intros Hok0 Hok1 Hok2. cbv zeta.
  assert (∃ d, getOrCreate env1 R w
               = (with_store (<[R := d]> (store w)) w,
                  (getOrCreate env1 R w).1.2, Some d)
               ∧ (store w !! R = None ∨ store w !! R = Some d)) as (d & Heq & Hd).
  { unfold getOrCreate. rewrite Hok0, Hok1.
    destruct (store w !! R) as [d|] eqn:Hd.
    - exists d. rewrite insert_id by done. rewrite with_store_same. eauto.
    - exists (default_state env1). eauto. }
  rewrite Heq. cbn [fst snd]. unfold getOrCreate. rewrite Hok2. cbn.
  rewrite lookup_insert_eq. split_and!; try done.
  intros R' HR. by rewrite lookup_insert_ne.
Qed.

Lemma getOrCreate_twice_witness :
  let r1 := getOrCreate (at_time 9000) "R7" four_sockets in
  let r2 := getOrCreate (at_time 9999) "R7" r1.1.1 in
  r2.2 = r1.2 ∧ r2.1.1 = r1.1.1 ∧ r2.1.2 = [Store (FindOne "R7") true].
Proof.
  destruct (getOrCreate_twice (at_time 9000) (at_time 9999) "R7" four_sockets)
    as (_ & _ & _ & H4 & H5 & H6); [reflexivity..|].
  exact (conj H4 (conj H5 H6)).
Defined.

(** ** Room ids *)

Lemma charAt_get i s :
  i < String.length s →
  ∃ c, String.get i s = Some c ∧ charAt i s = String c "".
Proof.
  unfold charAt. revert i. induction s as [|c s IH]; intros i Hi; cbn in *; [lia|].
  destruct i as [|i]; [by eexists|]. apply IH. lia.
Qed.

Lemma get_elem_of i s c :
  String.get i s = Some c → c ∈ String.list_ascii_of_string s.
Proof.
  revert i. induction s as [|c' s IH]; intros i; cbn; [done|].
  destruct i as [|i]; [intros [= ->]; by left|]. intros Hg. right. by eapply IH.
Qed.

(** X20. [generateRoomId], when every draw is an index into the alphabet, as
    [Math.floor(Math.random() * 36)] is: the id has six characters, the
    character at position [i] is the character of the alphabet at the i-th
    draw, so every character is a capital letter or a digit of the alphabet,
    and the id is not empty. *)
Theorem generateRoomId_shape draw :
  (∀ i, draw i < 36) →
  String.length (generateRoomId draw) = 6
  ∧ (∀ i, i < 6 →
          String.get i (generateRoomId draw) = String.get (draw i) roomIdChars)
  ∧ (∀ c, c ∈ String.list_ascii_of_string (generateRoomId draw) →
          c ∈ String.list_ascii_of_string roomIdChars)
  ∧ truthy_str (generateRoomId draw) = true.
Proof.
  intros Hd. unfold generateRoomId. cbn [generateRoomId_from].
  destruct (charAt_get (draw 0) roomIdChars (Hd 0)) as (c0 & H0 & ->).
  destruct (charAt_get (draw 1) roomIdChars (Hd 1)) as (c1 & H1 & ->).
  destruct (charAt_get (draw 2) roomIdChars (Hd 2)) as (c2 & H2 & ->).
  destruct (charAt_get (draw 3) roomIdChars (Hd 3)) as (c3 & H3 & ->).
  destruct (charAt_get (draw 4) roomIdChars (Hd 4)) as (c4 & H4 & ->).
  destruct (charAt_get (draw 5) roomIdChars (Hd 5)) as (c5 & H5 & ->).
  cbn [String.app]. split_and!.
  - done.
  - intros i Hi. do 6 (destruct i as [|i]; [by cbn|]). lia.
  - intros c. cbv [String.append String.list_ascii_of_string].
    fold (String.list_ascii_of_string roomIdChars). rewrite !elem_of_cons.
    intros [->|[->|[->|[->|[->|[->|Hn]]]]]];
      [by eapply get_elem_of.. | by apply elem_of_nil in Hn].
  - done.
Qed.

Lemma generateRoomId_shape_witness :
  String.length (generateRoomId (λ i, (i * 7 + 3) `mod` 36)) = 6
  ∧ truthy_str (generateRoomId (λ i, (i * 7 + 3) `mod` 36)) = true.
Proof.
  destruct (generateRoomId_shape (λ i, (i * 7 + 3) `mod` 36)) as (H1 & _ & _ & H4).
  - intros i. apply Nat.mod_upper_bound. lia.
  - by split.
Defined.

(** ** The display name *)




(** ** Voice rooms and cursors *)

Lemma handleLeaveRoom_ephemeral sid w :
  ephemeral (handleLeaveRoom sid w).1 = ephemeral w.
Proof. unfold handleLeaveRoom. by repeat case_match; simplify_eq. Qed.

Lemma leave_all_ephemeral ids w : ephemeral (leave_all ids w).1 = ephemeral w.
Proof.
  revert w. induction ids as [|i ids IH]; intros w; [done|]. cbn [leave_all].
  pose proof (handleLeaveRoom_ephemeral i w) as H1.
  destruct (handleLeaveRoom i w) as [w1 e1]. specialize (IH w1).
  destruct (leave_all ids w1) as [w2 e2]. cbn in *. congruence.
Qed.

(** Only the voice events and cursor-position touch the voice rooms and
    the stored cursors. *)
Lemma handle_ephemeral env sid e w :
  is_ephemeral e = false → ephemeral (handle env sid e w).1 = ephemeral w.
Proof.
  intros He. destruct e; try discriminate He; cbn [handle].
  - unfold on_join_room. destruct (sockets w !! sid) as [s|]; [|done].
    cbv zeta. unfold getOrCreate, join_registries.
    by repeat case_match; simplify_eq.
  - apply handleLeaveRoom_ephemeral.
  - unfold on_code_change, in_room, debouncedSave.
    by repeat case_match; simplify_eq.
  - unfold_handlers; by repeat case_match; simplify_eq.
  - unfold_handlers; by repeat case_match; simplify_eq.
  - unfold_handlers; by repeat case_match; simplify_eq.
  - unfold_handlers; by repeat case_match; simplify_eq.
  - unfold_handlers; by repeat case_match; simplify_eq.
  - unfold_handlers; by repeat case_match; simplify_eq.
  - unfold_handlers; by repeat case_match; simplify_eq.
  - unfold_handlers; by repeat case_match; simplify_eq.
  - unfold_handlers; by repeat case_match; simplify_eq.
  - unfold_handlers; by repeat case_match; simplify_eq.
  - unfold_handlers; by repeat case_match; simplify_eq.
  - unfold_handlers; by repeat case_match; simplify_eq.
  - unfold_handlers; by repeat case_match; simplify_eq.
  - unfold_handlers; by repeat case_match; simplify_eq.
  - unfold_handlers; by repeat case_match; simplify_eq.
  - unfold_handlers; by repeat case_match; simplify_eq.
  - unfold_handlers; by repeat case_match; simplify_eq.
  - unfold on_host_kick_user, host_only, in_room.
    pose proof (handleLeaveRoom_ephemeral targetSocketId w).
    repeat case_match; simplify_eq; try done. unfold ephemeral. cbn. congruence.
  - unfold_handlers; by repeat case_match; simplify_eq.
  - unfold_handlers; by repeat case_match; simplify_eq.
  - unfold_handlers; by repeat case_match; simplify_eq.
  - unfold on_host_end_session, host_only, in_room.
    repeat case_match; simplify_eq; cbn; try done.
    match goal with H : leave_all ?ids ?w0 = (?w1, _) |- _ =>
      pose proof (leave_all_ephemeral ids w0) as Hst; rewrite H in Hst end.
    done.
Qed.

Lemma fire_ephemeral env h w : ephemeral (fire env h w).1 = ephemeral w.
Proof.
  unfold fire, flush. repeat case_match; simplify_eq; cbn; try done.
  all: repeat case_match; simplify_eq; done.
Qed.

Lemma ephemeral_inv_ext w w' :
  ephemeral w' = ephemeral w → ephemeral_inv w → ephemeral_inv w'.
Proof.
  unfold ephemeral. intros [= Ha Hb] [H1 H2].
  split; intros *; rewrite ?Ha, ?Hb; eauto.
Qed.

Lemma NoDup_remove_first {A B} (g : A → B) p l :
  NoDup (g <$> l) → NoDup (g <$> remove_first p l).
Proof.
  induction l as [|x l IH]; [done|]. cbn. intros [Hx Hnd]%NoDup_cons.
  destruct (p x); [done|]. cbn. apply NoDup_cons. split; [|by apply IH].
  intros Hin. apply Hx. apply list_elem_of_fmap in Hin as (y & -> & Hy).
  apply list_elem_of_fmap. exists y. split; [done|].
  clear -Hy. induction l as [|z l IH]; cbn in *; [done|].
  destruct (p z); [by right|]. apply elem_of_cons in Hy as [->|Hy]; [by left|].
  right. by apply IH.
Qed.

Lemma existsb_has_peer peer l :
  existsb (has_peer peer) l = false → peer ∉ (ve_peerId <$> l).
Proof.
  unfold has_peer. induction l as [|x l IH]; cbn; [set_solver|].
  case_bool_decide; [done|]. cbn. intros Hex.
  apply not_elem_of_cons. split; [congruence|by apply IH].
Qed.

Lemma voice_join_1_inv sid peer vr w :
  ephemeral_inv w → ephemeral_inv (on_voice_join_1 sid peer vr w).1.
Proof.
  intros [Hv Hc]. unfold on_voice_join_1, update_socket.
  repeat case_match; simplify_eq; try done; split; cbn; try done.
  - intros R l. destruct (decide (R = s0)) as [->|HR].
    + rewrite lookup_insert_eq. intros [= <-].
      destruct (voiceRooms w !! s0) eqn:Hl; cbn; [by eapply Hv|constructor].
    + rewrite lookup_insert_ne by done. apply Hv.
  - intros R l. destruct (decide (R = s0)) as [->|HR].
    + rewrite lookup_insert_eq. intros [= <-]. rewrite fmap_app. cbn.
      apply NoDup_app. split_and!.
      * destruct (voiceRooms w !! s0) eqn:Hl; cbn; [by eapply Hv|constructor].
      * intros x Hx Hx'. apply list_elem_of_singleton in Hx' as ->.
        by eapply existsb_has_peer.
      * apply NoDup_singleton.
    + rewrite lookup_insert_ne by done. apply Hv.
Qed.

Lemma voice_join_2_ephemeral sid peer vr w :
  ephemeral (on_voice_join_2 sid peer vr w).1 = ephemeral w.
Proof. unfold on_voice_join_2, update_socket. by repeat case_match; simplify_eq. Qed.

Lemma voice_leave_1_inv sid peer w :
  ephemeral_inv w → ephemeral_inv (on_voice_leave_1 sid peer w).1.
Proof.
  intros [Hv Hc]. unfold on_voice_leave_1, in_room, update_socket.
  repeat case_match; simplify_eq; try done; split; cbn; try done.
  intros R l'. destruct (decide (R = s0)) as [->|HR].
  - rewrite lookup_insert_eq. intros [= <-]. apply NoDup_remove_first.
    by eapply Hv.
  - rewrite lookup_insert_ne by done. apply Hv.
Qed.

Lemma voice_leave_2_ephemeral sid peer vr w :
  ephemeral (on_voice_leave_2 sid peer vr w).1 = ephemeral w.
Proof. unfold on_voice_leave_2, update_socket. by repeat case_match; simplify_eq. Qed.

Lemma voice_mute_1_inv sid peer m w :
  ephemeral_inv w → ephemeral_inv (on_voice_mute_1 sid peer m w).1.
Proof.
  intros [Hv Hc]. unfold on_voice_mute_1, in_room.
  repeat case_match; simplify_eq; try done; split; cbn; try done.
  intros R l'. destruct (decide (R = s0)) as [->|HR].
  - rewrite lookup_insert_eq. intros [= <-]. rewrite map_update_first by done.
    by eapply Hv.
  - rewrite lookup_insert_ne by done. apply Hv.
Qed.

Lemma voice_mute_2_ephemeral sid peer m vr w :
  ephemeral (on_voice_mute_2 sid peer m vr w).1 = ephemeral w.
Proof. unfold on_voice_mute_2. by repeat case_match; simplify_eq. Qed.

Lemma cursor_position_1_world sid f pos sel w :
  (on_cursor_position_1 sid f pos sel w).1 = w.
Proof. unfold on_cursor_position_1, in_room. by repeat case_match. Qed.

Lemma cursor_position_2_inv sid pos w :
  ephemeral_inv w → ephemeral_inv (on_cursor_position_2 sid pos w).1.
Proof.
  intros [Hv Hc]. unfold on_cursor_position_2, in_room.
  destruct (sockets w !! sid) as [s|]; [|done].
  destruct (joined_room s) as [R0|]; [|done]. split; cbn; [done|].
  intros R cs. destruct (decide (R = R0)) as [->|HR].
  - rewrite lookup_insert_eq. intros [= <-]. apply NoDup_keys_set.
    destruct (roomCursorPositions w !! R0) eqn:Hl; cbn; [by eapply Hc|constructor].
  - rewrite lookup_insert_ne by done. apply Hc.
Qed.

Lemma cursor_position_inv sid f pos sel w :
  ephemeral_inv w → ephemeral_inv (on_cursor_position sid f pos sel w).1.
Proof.
  intros Hinv. unfold on_cursor_position, and_then.
  pose proof (cursor_position_1_world sid f pos sel w) as H1.
  destruct (on_cursor_position_1 sid f pos sel w) as [w1 e1]. cbn in H1. subst w1.
  pose proof (cursor_position_2_inv sid pos w Hinv) as H2.
  by destruct (on_cursor_position_2 sid pos w) as [w2 e2].
Qed.

Lemma and_then_inv (f g : World → World * list Effect) w :
  ephemeral_inv (f w).1 →
  (∀ w', ephemeral (g w').1 = ephemeral w') →
  ephemeral_inv (and_then f g w).1.
Proof.
  intros Hf Hg. unfold and_then. destruct (f w) as [w1 e1]. specialize (Hg w1).
  destruct (g w1) as [w2 e2]. cbn in *. by eapply ephemeral_inv_ext.
Qed.

Lemma step_ephemeral_inv env i w :
  ephemeral_inv w → ephemeral_inv (step env i w).1.
Proof.
  intros Hinv. destruct i as [sid auth|sid e|sid|h]; cbn [step].
  - unfold connect. destruct (sockets w !! sid); [done|].
    by eapply ephemeral_inv_ext; [|exact Hinv].
  - destruct (is_ephemeral e) eqn:He.
    + destruct e; try discriminate He; cbn [handle].
      * by apply cursor_position_inv.
      * apply and_then_inv; [by apply voice_join_1_inv|].
        intros w'. apply voice_join_2_ephemeral.
      * apply and_then_inv; [by apply voice_leave_1_inv|].
        intros w'. apply voice_leave_2_ephemeral.
      * apply and_then_inv; [by apply voice_mute_1_inv|].
        intros w'. apply voice_mute_2_ephemeral.
    + eapply ephemeral_inv_ext; [|exact Hinv]. by apply handle_ephemeral.
  - unfold on_disconnect. destruct (sockets w !! sid); [|done].
    set (w1 := with_rooms (set_remove sid <$> rooms w) w).
    pose proof (handleLeaveRoom_ephemeral sid w1) as H1.
    destruct (handleLeaveRoom sid w1) as [w2 e2]. cbn in *.
    by eapply ephemeral_inv_ext; [|exact Hinv].
  - eapply ephemeral_inv_ext; [|exact Hinv]. apply fire_ephemeral.
Qed.

Lemma reachable_ephemeral_inv w : reachable w → ephemeral_inv w.
Proof.
  induction 1 as [|env i w Hr IH]; [|by apply step_ephemeral_inv].
  split; intros R l; cbn; by rewrite lookup_empty.
Qed.

(** X22. In every world the server reaches, a peer id is listed at most once
    in a voice room, however often voice-join was sent with it, and a socket
    has at most one stored cursor in a room. *)
Theorem voice_peers_and_cursors_are_distinct w R :
  reachable w →
  (∀ l, voiceRooms w !! R = Some l → NoDup (ve_peerId <$> l))
  ∧ (∀ cs, roomCursorPositions w !! R = Some cs → NoDup (JsMap.keys cs)).
Proof.
  intros Hr. destruct (reachable_ephemeral_inv w Hr) as [Hv Hc].
  split; intros *; [apply Hv|apply Hc].
Qed.

Lemma voice_peers_and_cursors_are_distinct_witness :
  let w := (run (voice_then_disconnect
                   ++ [(at_time 2002, Client "B" (OnVoiceJoin "peer-A" None));
                       (at_time 2003, Client "B" (OnVoiceJoin "peer-B" None))])
              two_in_room).1 in
  NoDup (ve_peerId <$> default [] (voiceRooms w !! "R1")).
Proof.
  cbv zeta.
  match goal with |- NoDup (ve_peerId <$> default [] (voiceRooms ?w !! _)) =>
    destruct (voice_peers_and_cursors_are_distinct w "R1") as [H _];
      [apply run_reachable, two_in_room_reachable|];
    apply (H (default [] (voiceRooms w !! "R1")))
  end.
  by vm_compute.
Defined.

Lemma remove_first_snoc peer l e :
  peer ∉ (ve_peerId <$> l) → ve_peerId e = peer →
  remove_first (has_peer peer) (l ++ [e]) = l.
Proof.
  unfold has_peer. intros Hnot He. induction l as [|x l IH]; cbn.
  - by rewrite bool_decide_eq_true_2.
  - cbn in Hnot. apply not_elem_of_cons in Hnot as [Hx Hnot].
    rewrite bool_decide_eq_false_2 by congruence. by rewrite IH.
Qed.

Lemma filter_other_peers peer (l : list VoiceEntry) :
  peer ∉ (ve_peerId <$> l) → filter (λ p, ve_peerId p ≠ peer) l = l.
Proof.
  induction l as [|x l IH]; [done|]. rewrite fmap_cons.
  intros [Hx Hnot]%not_elem_of_cons.
  rewrite filter_cons_True by congruence. by rewrite IH.
Qed.

Lemma existsb_no_peer peer l :
  peer ∉ (ve_peerId <$> l) → existsb (has_peer peer) l = false.
Proof.
  unfold has_peer. induction l as [|x l IH]; [done|]. cbn.
  intros [Hx Hnot]%not_elem_of_cons.
  rewrite bool_decide_eq_false_2 by congruence. by apply IH.
Qed.

(** X23. voice-join by a socket of a room with a peer id that is not in the
    voice room yet, then voice-leave with it: the join sends the joiner the
    participants of before and appends an entry for the peer, muted and
    under the name of the socket; the leave takes the entry out again, so
    that the voice room is as before, and voice-leave goes to every socket
    of the room. *)
Theorem voice_join_then_leave sid s R peer vr vr' w :
  sockets w !! sid = Some s →
  joined_room s = Some R →
  peer ∉ (ve_peerId <$> default [] (voiceRooms w !! R)) →
  let old := default [] (voiceRooms w !! R) in
  let r1 := on_voice_join sid peer vr w in
  let r2 := on_voice_leave sid peer vr' r1.1 in
  voiceRooms r1.1 !! R
  = Some (old ++ [ {| ve_peerId := peer; ve_socketId := sid; ve_isMuted := true;
                      ve_username := u_username (sk_user s) |} ])
  ∧ Emit sid (VoiceParticipants old) ∈ r1.2
  ∧ voiceRooms r2.1 !! R = Some old
  ∧ (∀ t, t ∈ room_sockets w R → Emit t (VoiceLeave peer) ∈ r2.2).
Proof.
  intros Hs Hj Hnot. cbv zeta.
  pose proof (joined_room_roomId s R Hj) as Hrid.
  pose proof (joined_room_truthy s R Hj) as Htr.
  set (old := default [] (voiceRooms w !! R)) in *.
  set (entry := {| ve_peerId := peer; ve_socketId := sid; ve_isMuted := true;
                   ve_username := u_username (sk_user s) |}).
  (* the first listener of voice-join *)
  assert (∃ w1 e1, on_voice_join_1 sid peer vr w = (w1, e1)
                   ∧ voiceRooms w1 = <[R := old ++ [entry]]> (voiceRooms w)
                   ∧ rooms w1 = rooms w
                   ∧ (∃ s1, sockets w1 !! sid = Some s1 ∧ sk_roomId s1 = Some R)
                   ∧ Emit sid (VoiceParticipants old) ∈ e1)
    as (w1 & e1 & Hj1 & Hv1 & Hr1 & (s1 & Hs1 & Hrid1) & He1).
  { unfold on_voice_join_1, js_or, update_socket. rewrite Hs, Hrid. cbn [truthy_opt].
    rewrite Htr. cbv beta iota. rewrite Htr. fold old.
    rewrite (existsb_no_peer peer old Hnot).
    rewrite (filter_other_peers peer old Hnot). eexists _, _. split; [done|].
    cbn. rewrite lookup_alter_eq, Hs. cbn.
    split_and!; [done | done | by eexists | by left]. }
  (* the second listener of voice-join *)
  assert (∃ w2 e2, on_voice_join_2 sid peer vr w1 = (w2, e2)
                   ∧ voiceRooms w2 = voiceRooms w1 ∧ rooms w2 = rooms w1
                   ∧ ∃ s2, sockets w2 !! sid = Some s2 ∧ sk_roomId s2 = Some R)
    as (w2 & e2 & Hj2 & Hv2 & Hr2 & (s2 & Hs2 & Hrid2)).
  { unfold on_voice_join_2, update_socket. rewrite Hs1.
    destruct (js_or vr (sk_roomId s1)) as [R0|]; [|by eauto 10].
    destruct (truthy_str R0); [|by eauto 10].
    eexists _, _. split; [done|]. cbn. rewrite lookup_alter_eq, Hs1. cbn.
    split_and!; [done | done | by eexists]. }
  assert (on_voice_join sid peer vr w = (w2, e1 ++ e2)) as ->.
  { unfold on_voice_join, and_then. by rewrite Hj1, Hj2. }
  cbn [fst snd].
  (* the first listener of voice-leave *)
  assert (∃ w3 e3, on_voice_leave_1 sid peer w2 = (w3, e3)
                   ∧ voiceRooms w3 = <[R := old]> (voiceRooms w2)
                   ∧ ∀ t, t ∈ room_sockets w R → Emit t (VoiceLeave peer) ∈ e3)
    as (w3 & e3 & Hl1 & Hv3 & He3).
  { unfold on_voice_leave_1, in_room, update_socket.
    assert (voiceRooms w2 !! R = Some (old ++ [entry])) as Hlk
      by (by rewrite Hv2, Hv1, lookup_insert_eq).
    rewrite Hs2, (roomId_joined s2 R Hrid2 Htr). cbv beta iota zeta.
    rewrite Hlk. rewrite remove_first_snoc by done. eexists _, _. split; [done|]. cbn.
    split; [by rewrite Hv2, Hv1|]. intros t Hin. apply elem_of_io_to.
    split; [done|]. unfold room_sockets in *. cbn. by rewrite Hr2, Hr1. }
  assert (voiceRooms (on_voice_leave_2 sid peer vr' w3).1 = voiceRooms w3) as Hv4.
  { pose proof (voice_leave_2_ephemeral sid peer vr' w3) as He.
    unfold ephemeral in He. congruence. }
  unfold on_voice_leave, and_then. rewrite Hl1.
  destruct (on_voice_leave_2 sid peer vr' w3) as [w4 e4]. cbn [fst snd] in *.
  split_and!.
  - by rewrite Hv2, Hv1, lookup_insert_eq.
  - apply elem_of_app. by left.
  - by rewrite Hv4, Hv3, lookup_insert_eq.
  - intros t Hin. apply elem_of_app. left. by apply He3.
Qed.

Lemma voice_join_then_leave_witness :
  let r1 := on_voice_join "B" "peer-B" None four_sockets in
  let r2 := on_voice_leave "B" "peer-B" None r1.1 in
  voiceRooms r1.1 !! "R1"
  = Some [ {| ve_peerId := "peer-B"; ve_socketId := "B"; ve_isMuted := true;
              ve_username := "bob" |} ]
  ∧ voiceRooms r2.1 !! "R1" = Some [].
Proof.
  destruct (voice_join_then_leave "B"
              (default (fresh_socket "B" None) (sockets four_sockets !! "B")) "R1"
              "peer-B" None None four_sockets) as (H1 & _ & H3 & _).
  - by vm_compute.
  - by vm_compute.
  - vm_compute. apply not_elem_of_nil.
  - split; [exact H1 | exact H3].
Defined.

Lemma cursor_color_in_palette name : cursor_color name ∈ cursorColors.
Proof.
  unfold cursor_color.
  destruct (cursorColors !! (char_code_sum name `mod` length cursorColors))
    as [c|] eqn:Hc.
  - cbn. by eapply list_elem_of_lookup_2.
  - apply lookup_ge_None in Hc.
    pose proof (Nat.mod_upper_bound (char_code_sum name) (length cursorColors)).
    cbn in *. lia.
Qed.

Lemma elem_of_set_self {V} k (v : V) m : (k, v) ∈ JsMap.set k v m.
Proof.
  induction m as [|[k' v'] m IH]; cbn; [by left|].
  case_decide; [by left|by right].
Qed.

(** What cursor-position of a socket of a room leaves behind. *)
Lemma cursor_position_fields sid s R f pos sel w :
  sockets w !! sid = Some s →
  joined_room s = Some R →
  let name := if truthy_str (u_username (sk_user s)) then u_username (sk_user s)
              else "Guest-" +:+ String.substring 0 6 sid in
  let w1 := (on_cursor_position sid f pos sel w).1 in
  roomCursorPositions w1
  = <[R := JsMap.set sid
             {| cd_username := name; cd_color := cursor_color name;
                cd_position := pos |}
             (default [] (roomCursorPositions w !! R))]> (roomCursorPositions w)
  ∧ sockets w1 = sockets w
  ∧ voiceRooms w1 = voiceRooms w.
Proof.
  intros Hs Hj. cbv zeta. unfold on_cursor_position, and_then.
  pose proof (cursor_position_1_world sid f pos sel w) as H1.
  destruct (on_cursor_position_1 sid f pos sel w) as [w1 e1]. cbn in H1. subst w1.
  unfold on_cursor_position_2, in_room. by rewrite Hs, Hj.
Qed.

(** X24. A socket reports its cursor and another socket of the room asks for
    the cursors: the asker is sent the reported position under the id of the
    reporter, with a colour of the palette, and no other position for that
    id; everything it is sent is a cursor of another socket, nobody else is
    sent anything, and asking changes nothing. *)
Theorem request_cursors_sends_latest t st q sq R f pos sel w :
  reachable w →
  sockets w !! t = Some st →
  joined_room st = Some R →
  sockets w !! q = Some sq →
  joined_room sq = Some R →
  t ≠ q →
  let w1 := (on_cursor_position t f pos sel w).1 in
  let r := on_request_cursors q w1 in
  (∃ name color, color ∈ cursorColors
                 ∧ Emit q (CursorPositionRemote t name color pos) ∈ r.2)
  ∧ (∀ name color p, Emit q (CursorPositionRemote t name color p) ∈ r.2 →
                     p = pos)
  ∧ (∀ x m, Emit x m ∈ r.2 →
            x = q ∧ ∃ id name color p,
                      m = CursorPositionRemote id name color p ∧ id ≠ q)
  ∧ (∀ e, e ∈ r.2 → ∃ x m, e = Emit x m)
  ∧ r.1 = w1.
Proof.
  intros Hr Ht Hjt Hq Hjq Hne. cbv zeta.
  destruct (cursor_position_fields t st R f pos sel w Ht Hjt) as (Hc & Hso & _).
  cbv zeta in Hc. set (w1 := (on_cursor_position t f pos sel w).1) in *.
  set (name := if truthy_str (u_username (sk_user st)) then u_username (sk_user st)
               else "Guest-" +:+ String.substring 0 6 t) in *.
  set (entry := {| cd_username := name; cd_color := cursor_color name;
                   cd_position := pos |}) in *.
  set (cs := default [] (roomCursorPositions w !! R)) in *.
  assert (NoDup (JsMap.keys cs)) as Hnd.
  { destruct (reachable_ephemeral_inv w Hr) as [_ Hcur]. unfold cs.
    destruct (roomCursorPositions w !! R) eqn:Hl; cbn; [by eapply Hcur|constructor]. }
  assert (on_request_cursors q w1
          = (w1, (λ p : string * CursorData,
                    Emit q (CursorPositionRemote p.1 (cd_username p.2)
                              (cd_color p.2) (cd_position p.2)))
                 <$> filter (λ p : string * CursorData, p.1 ≠ q)
                       (JsMap.set t entry cs))) as ->.
  { unfold on_request_cursors, in_room. rewrite Hso, Hq, Hjq, Hc.
    by rewrite lookup_insert_eq. }
  cbn [fst snd]. split_and!.
  - exists name, (cursor_color name). split; [apply cursor_color_in_palette|].
    apply list_elem_of_fmap. exists (t, entry). split; [done|].
    apply list_elem_of_filter. split; [done|apply elem_of_set_self].
  - intros name' color' p Hin.
    apply list_elem_of_fmap in Hin as ([k v] & Heq & Hin). cbn in Heq.
    injection Heq as -> _ _ ->.
    apply list_elem_of_filter in Hin as [_ Hin].
    assert ((k, v) ∈ filter (λ p : string * CursorData, p.1 = k)
                       (JsMap.set k entry cs)) as Hin'
      by (by apply list_elem_of_filter).
    rewrite set_entry_once in Hin' by done.
    apply list_elem_of_singleton in Hin'. by simplify_eq.
  - intros x m Hin. apply list_elem_of_fmap in Hin as ([k v] & Heq & Hin).
    apply list_elem_of_filter in Hin as [Hk _]. cbn in *. simplify_eq.
    split; [done|]. by eexists _, _, _, _.
  - intros e Hin. apply list_elem_of_fmap in Hin as (p & -> & _). by eexists _, _.
  - done.
Qed.

Lemma request_cursors_sends_latest_witness :
  let w1 := (on_cursor_position "A" "1002" (Some (JNum 7)) None four_sockets).1 in
  let r := on_request_cursors "C" w1 in
  (∃ name color, color ∈ cursorColors
                 ∧ Emit "C" (CursorPositionRemote "A" name color (Some (JNum 7)))
                   ∈ r.2)
  ∧ r.1 = w1.
Proof.
  destruct (request_cursors_sends_latest "A"
              (default (fresh_socket "A" None) (sockets four_sockets !! "A")) "C"
              (default (fresh_socket "C" None) (sockets four_sockets !! "C")) "R1"
              "1002" (Some (JNum 7)) None four_sockets four_sockets_reachable)
    as (H1 & _ & _ & _ & H5); [by vm_compute..|].
  by split.
Defined.

Lemma room_bound_idle_cursor sid f pos sel w :
  (∀ s, sockets w !! sid = Some s → joined_room s = None) →
  on_cursor_position sid f pos sel w = (w, []).
Proof.
  intros Hn.
  apply (room_bound_idle (at_time 0) sid (OnCursorPosition f pos sel) w eq_refl Hn).
Qed.

Lemma voice_keeps_cursors env sid e w :
  is_ephemeral e = true →
  (∀ f pos sel, e ≠ OnCursorPosition f pos sel) →
  roomCursorPositions (handle env sid e w).1 = roomCursorPositions w.
Proof.
  intros He Hnc. destruct e; try discriminate He; cbn [handle].
  - by edestruct Hnc.
  - unfold on_voice_join, on_voice_join_1, on_voice_join_2, and_then,
      update_socket.
    repeat case_match; simplify_eq; cbn in *; simplify_eq; done.
  - unfold on_voice_leave, on_voice_leave_1, on_voice_leave_2, and_then,
      in_room, update_socket.
    repeat case_match; simplify_eq; cbn in *; simplify_eq; done.
  - unfold on_voice_mute, on_voice_mute_1, on_voice_mute_2, and_then, in_room.
    repeat case_match; simplify_eq; cbn in *; simplify_eq; done.
Qed.

(** X25. No input removes a stored cursor: a socket that has a stored cursor
    in a room has one after any further input, its own leave-room and
    disconnect and the end of the session included. *)
Theorem stored_cursor_is_never_removed env i w R t :
  t ∈ JsMap.keys (default [] (roomCursorPositions w !! R)) →
  t ∈ JsMap.keys (default [] (roomCursorPositions (step env i w).1 !! R)).
Proof.
  intros Hin.
  assert (∀ w', ephemeral w' = ephemeral w →
                t ∈ JsMap.keys (default [] (roomCursorPositions w' !! R)))
    as Hsame.
  { unfold ephemeral. intros w' [= _ ->]. done. }
  destruct i as [sid auth|sid e|sid|h]; cbn [step].
  - apply Hsame. unfold connect. by destruct (sockets w !! sid).
  - destruct (is_ephemeral e) eqn:He.
    2: { apply Hsame. by apply handle_ephemeral. }
    assert ((∃ f pos sel, e = OnCursorPosition f pos sel)
            ∨ ∀ f pos sel, e ≠ OnCursorPosition f pos sel)
      as [(f & pos & sel & ->)|Hnc] by (destruct e; eauto).
    2: { by rewrite voice_keeps_cursors. }
    cbn [handle]. destruct (sockets w !! sid) as [s|] eqn:Hs.
    2: { rewrite room_bound_idle_cursor; [done|]. intros s. by rewrite Hs. }
    destruct (joined_room s) as [R0|] eqn:Hj.
    2: { rewrite room_bound_idle_cursor; [done|]. intros s'. rewrite Hs.
         by intros [= <-]. }
    destruct (cursor_position_fields sid s R0 f pos sel w Hs Hj) as (-> & _).
    destruct (decide (R = R0)) as [->|HR].
    + rewrite lookup_insert_eq. cbn [from_option id]. apply elem_of_keys_set.
      by right.
    + by rewrite lookup_insert_ne.
  - apply Hsame. unfold on_disconnect. destruct (sockets w !! sid); [|done].
    set (w1 := with_rooms (set_remove sid <$> rooms w) w).
    pose proof (handleLeaveRoom_ephemeral sid w1) as H1.
    by destruct (handleLeaveRoom sid w1) as [w2 e2].
  - apply Hsame. apply fire_ephemeral.
Qed.

Lemma stored_cursor_is_never_removed_witness :
  let w1 := (on_cursor_position "A" "1002" (Some (JNum 7)) None four_sockets).1 in
  "A" ∈ JsMap.keys (default [] (roomCursorPositions
                                  (step (at_time 9000) (Disconnect "A") w1).1
                                !! "R1")).
Proof.
  apply (stored_cursor_is_never_removed (at_time 9000) (Disconnect "A")).
  vm_compute. repeat constructor.
Defined.

(** ** Relaying and the store *)

Lemma sent_app a b : sent (a ++ b) = sent a ++ sent b.
Proof. unfold sent. apply omap_app. Qed.

Lemma sent_socket_to w sid R m :
  sent (socket_to w sid R m)
  = (λ t, (t, m)) <$> filter (λ t, t ≠ sid) (room_sockets w R).
Proof.
  unfold sent, socket_to. induction (filter _ _) as [|t l IH]; [done|].
  cbn. by rewrite IH.
Qed.

Lemma sent_try_store fails c site w : sent (try_store fails c site w).2 = [].
Proof. unfold try_store. by destruct fails. Qed.

Lemma try_store_frame fails c site w :
  sockets (try_store fails c site w).1 = sockets w
  ∧ rooms (try_store fails c site w).1 = rooms w.
Proof. unfold try_store. by destruct fails. Qed.

(** X26. canvas-full-sync has two listeners, and both relay: every other
    socket of the room is sent the payload twice, first tagged with the id
    of the sender, then as it came; nothing is sent to the sender. *)
Theorem canvas_full_sync_is_relayed_twice env sid s R payload w :
  sockets w !! sid = Some s →
  joined_room s = Some R →
  let others := filter (λ t, t ≠ sid) (room_sockets w R) in
  sent (on_canvas_full_sync env sid payload w).2
  = ((λ t, (t, CanvasFullSyncTagged payload (u_id (sk_user s)))) <$> others)
    ++ ((λ t, (t, CanvasFullSyncPlain payload)) <$> others).
Proof.
  intros Hs Hj. cbv zeta. unfold on_canvas_full_sync, and_then.
  assert (∃ w1 e1, on_canvas_full_sync_1 env sid payload w = (w1, e1)
                   ∧ sockets w1 = sockets w ∧ rooms w1 = rooms w
                   ∧ sent e1 = sent (socket_to w sid R
                                       (CanvasFullSyncTagged payload
                                          (u_id (sk_user s)))))
    as (w1 & e1 & -> & Hso & Hro & He1).
  { unfold on_canvas_full_sync_1, in_room. rewrite Hs, Hj.
    pose proof (sent_try_store (storeFails env 0)) as Hst.
    pose proof (try_store_frame (storeFails env 0)) as Hfr.
    repeat case_match; simplify_eq; eexists _, _; (split; [done|]);
      try done.
    match goal with H : try_store _ ?c ?site _ = _ |- _ =>
      specialize (Hst c site w); specialize (Hfr c site w);
      rewrite H in Hst, Hfr end.
    cbn [fst snd] in Hst, Hfr. destruct Hfr as [-> ->].
    by rewrite sent_app, Hst, app_nil_r. }
  assert (∃ w2 e2, on_canvas_full_sync_2 env sid payload w1 = (w2, e2)
                   ∧ sent e2 = sent (socket_to w sid R (CanvasFullSyncPlain payload)))
    as (w2 & e2 & -> & He2).
  { unfold on_canvas_full_sync_2, in_room. rewrite Hso, Hs, Hj.
    assert (∀ m, socket_to w1 sid R m = socket_to w sid R m) as Hto
      by (intros m; unfold socket_to, room_sockets; by rewrite Hro).
    rewrite Hto.
    pose proof (sent_try_store (storeFails env 1)) as Hst.
    repeat case_match; simplify_eq; eexists _, _; (split; [done|]);
      try done.
    match goal with H : try_store _ ?c ?site _ = _ |- _ =>
      specialize (Hst c site w1); rewrite H in Hst end.
    cbn [fst snd] in Hst. by rewrite sent_app, Hst, app_nil_r. }
  cbn [snd]. by rewrite sent_app, He1, He2, !sent_socket_to.
Qed.

Lemma canvas_full_sync_is_relayed_twice_witness :
  let payload := {| sy_type := Some "full-canvas"; sy_data := Some (JStr "scene");
                    sy_fabricJSON := None; sy_canvasId := None; sy_rest := [] |} in
  sent (on_canvas_full_sync (at_time 9000) "A" payload two_in_room).2
  = [("B", CanvasFullSyncTagged payload "guest-A");
     ("B", CanvasFullSyncPlain payload)].
Proof.
  cbv zeta.
  rewrite (canvas_full_sync_is_relayed_twice (at_time 9000) "A"
           (default (fresh_socket "A" None) (sockets two_in_room !! "A")) "R1"
           {| sy_type := Some "full-canvas"; sy_data := Some (JStr "scene");
              sy_fabricJSON := None; sy_canvasId := None; sy_rest := [] |}
           two_in_room); by vm_compute.
Defined.


Lemma no_store_in_socket_to c ok w sid R m : Store c ok ∉ socket_to w sid R m.
Proof. unfold socket_to. rewrite list_elem_of_fmap. by intros (? & ? & _). Qed.

Lemma no_store_in_io_to c ok w R m : Store c ok ∉ io_to w R m.
Proof. unfold io_to. rewrite list_elem_of_fmap. by intros (? & ? & _). Qed.

Ltac failed_store_case :=
  split; [done|]; intros c ok Hin;
  repeat (apply elem_of_app in Hin as [Hin|Hin]);
  try (by apply no_store_in_socket_to in Hin);
  try (by apply no_store_in_io_to in Hin);
  repeat (apply elem_of_cons in Hin as [Hin|Hin]);
  try (by apply elem_of_nil in Hin);
  simplify_eq; (split; [done|]); eexists;
  rewrite ?elem_of_app, ?elem_of_cons; eauto 10.

(** X27. A store that fails does not stop the relay. When every store call
    throws, a surface event of a socket of a room leaves the store as it is,
    each store call it makes is reported on the console, and every other
    socket of the room is sent the event all the same. *)
Theorem relay_survives_store_failure env sid s R e w :
  sockets w !! sid = Some s →
  joined_room s = Some R →
  is_mutation e = true →
  (∀ k, storeFails env k = true) →
  store (handle env sid e w).1 = store w
  ∧ (∀ c ok, Store c ok ∈ (handle env sid e w).2 →
             ok = false ∧ ∃ site, ConsoleError site ∈ (handle env sid e w).2)
  ∧ (∀ t, t ∈ room_sockets w R → t ≠ sid →
          ∃ m, Emit t m ∈ (handle env sid e w).2 ∧ carries e m).
Proof.
  intros Hs Hj Hm Hfail.
  destruct (mutation_effects env sid s R e w Hs Hj Hm) as (Hrelay & _).
  rewrite (and_assoc _ _ _). split; [|exact Hrelay]. clear Hrelay.
  destruct e; try discriminate Hm; cbn [handle].
  - rewrite (code_change_joined env sid s R _ _ _ w Hs Hj).
    destruct (debouncedSave_rest env R fileId content w) as (-> & _).
    split; [done|]. intros c ok Hin. unfold on_code_change, in_room in Hin.
    rewrite Hs, Hj in Hin. by apply no_store_in_socket_to in Hin.
  - unfold_handlers. rewrite Hs, Hj, Hfail. cbn [fst snd]. failed_store_case.
  - unfold_handlers. rewrite Hs, Hj, Hfail. cbn [fst snd]. failed_store_case.
  - unfold_handlers. rewrite Hs, Hj, Hfail. cbn [fst snd]. failed_store_case.
  - unfold_handlers. rewrite Hs, Hj, Hfail. cbn [fst snd]. failed_store_case.
  - unfold_handlers. rewrite Hs, Hj. cbn [fst snd]. failed_store_case.
  - unfold_handlers. rewrite Hs, Hj, Hfail. cbn [fst snd]. failed_store_case.
  - unfold_handlers. rewrite Hs, Hj. cbn [fst snd]. failed_store_case.
  - unfold_handlers. rewrite Hs, Hj. cbn [fst snd]. failed_store_case.
  - unfold_handlers. rewrite Hs, Hj. cbn [fst snd]. failed_store_case.
  - unfold_handlers. rewrite Hs, Hj. cbn [fst snd]. failed_store_case.
  - unfold_handlers. rewrite Hs, Hj, !Hfail.
    destruct (sy_fabricJSON payload) as [j|]; destruct (sy_canvasId payload) as [c0|];
      destruct (sy_data payload) as [d0|];
      repeat (case_match; cbn [fst snd]); simplify_eq;
      rewrite ?Hs, ?Hj; cbn [fst snd]; repeat (case_match; cbn [fst snd]);
      simplify_eq; failed_store_case.
  - unfold_handlers. rewrite Hs, Hj, Hfail. cbn [fst snd]. failed_store_case.
  - unfold_handlers. rewrite Hs, Hj, Hfail. cbn [fst snd]. failed_store_case.
  - unfold_handlers. rewrite Hs, Hj, Hfail. cbn [fst snd]. failed_store_case.
Qed.

Lemma relay_survives_store_failure_witness :
  let e := OnTabGroupCreate {| tg_id := "g9"; tg_name := "tests";
                               tg_color := "red"; tg_collapsed := false |} in
  store (handle (failing_store 9000) "A" e four_sockets).1 = store four_sockets
  ∧ ∃ m, Emit "C" m ∈ (handle (failing_store 9000) "A" e four_sockets).2
         ∧ carries e m.
Proof.
  destruct (relay_survives_store_failure (failing_store 9000) "A"
              (default (fresh_socket "A" None) (sockets four_sockets !! "A")) "R1"
              (OnTabGroupCreate {| tg_id := "g9"; tg_name := "tests";
                                   tg_color := "red"; tg_collapsed := false |})
              four_sockets) as (H1 & _ & H3); [by vm_compute..|].
  split; [exact H1|]. apply H3; [vm_compute; repeat constructor|done].
Defined.

(** ** A socket that joins a second room *)

Lemma handleLeaveRoom_not_member sid s R w :
  sockets w !! sid = Some s →
  joined_room s = Some R →
  sid ∉ JsMap.keys (members (handleLeaveRoom sid w).1 R).
Proof.
  intros Hs Hj. destruct (handleLeaveRoom_fields sid s R w Hs Hj) as (_ & _ & Hp).
  unfold members. unfold presence in Hp.
  destruct (roomUsers w !! R) as [us|] eqn:Hus.
  - destruct (JsMap.keys (JsMap.delete sid us)) as [|o rest] eqn:Hk;
      inversion Hp as [[Ha Hb Hc]]; rewrite Ha.
    + rewrite lookup_delete_eq. cbn. set_solver.
    + rewrite lookup_insert_eq. cbn [from_option id].
      rewrite elem_of_keys_delete. naive_solver.
  - inversion Hp as [[Ha Hb Hc]]. rewrite Ha, Hus. cbn. set_solver.
Qed.

Lemma handleLeaveRoom_other_room sid s R R' w :
  sockets w !! sid = Some s →
  joined_room s = Some R →
  R' ≠ R →
  roomUsers (handleLeaveRoom sid w).1 !! R' = roomUsers w !! R'
  ∧ roomHosts (handleLeaveRoom sid w).1 !! R' = roomHosts w !! R'.
Proof.
  intros Hs Hj HR. destruct (handleLeaveRoom_fields sid s R w Hs Hj) as (_ & _ & Hp).
  unfold presence in Hp. destruct (roomUsers w !! R) as [us|] eqn:Hus.
  - destruct (JsMap.keys (JsMap.delete sid us)) as [|o rest] eqn:Hk;
      inversion Hp as [[Ha Hb Hc]]; rewrite Ha, Hb.
    + by rewrite !lookup_delete_ne.
    + rewrite lookup_insert_ne by done. split; [done|].
      case_decide; [by rewrite lookup_insert_ne|done].
  - inversion Hp as [[Ha Hb Hc]]. by rewrite Ha, Hb.
Qed.

(** X28. join-room does not leave the room the socket was in. A socket on
    the member list of one room that joins another stays on the member list
    and in the adapter room of the first, whose host is untouched, while its
    [roomId] names the second; when it disconnects it is taken off the
    second room only, and its entry in the first stays behind. *)
Theorem second_join_keeps_first_membership env sid s R1 R2 dn w :
  sockets w !! sid = Some s →
  R2 ≠ R1 →
  truthy_str R2 = true →
  sid ∈ JsMap.keys (members w R1) →
  sid ∈ room_sockets w R1 →
  let w1 := (on_join_room env sid R2 dn w).1 in
  let w2 := (on_disconnect sid w1).1 in
  sk_roomId <$> sockets w1 !! sid = Some (Some R2)
  ∧ sid ∈ JsMap.keys (members w1 R1)
  ∧ sid ∈ room_sockets w1 R1
  ∧ roomHosts w1 !! R1 = roomHosts w !! R1
  ∧ sockets w2 !! sid = None
  ∧ (sid ∉ JsMap.keys (members w2 R2))
  ∧ sid ∈ JsMap.keys (members w2 R1)
  ∧ roomHosts w2 !! R1 = roomHosts w !! R1.
Proof.
  intros Hs HR Htr Hmem Hroom. cbv zeta.
  destruct (on_join_room_world env sid R2 dn s w Hs) as [db ->].
  pose proof (join_sockets sid R2 dn s w) as Hso4.
  pose proof (join_roomUsers sid R2 dn s w) as Hu4.
  pose proof (join_roomHosts sid R2 dn s w) as Hh4.
  pose proof (join_room_sockets sid R2 dn s w R1) as Hr4.
  pose proof (roomId_joined _ R2 (join_socket_roomId R2 dn s) Htr) as Hj4.
  pose proof (join_socket_roomId R2 dn s) as Hrid.
  set (s2 := join_socket R2 dn s) in *.
  set (w4 := join_registries sid R2 dn s w) in *.
  assert (sockets w4 !! sid = Some s2) as Hs4 by (by rewrite Hso4, lookup_insert_eq).
  assert (members w4 R1 = members w R1) as Hm4.
  { unfold members. by rewrite Hu4, lookup_insert_ne. }
  assert (roomHosts w4 !! R1 = roomHosts w !! R1) as Hhost4.
  { rewrite Hh4. destruct (roomHosts w !! R2); [done|].
    by rewrite lookup_insert_ne. }
  rewrite decide_False in Hr4 by done.
  clearbody w4 s2.
  (* the disconnect *)
  set (w0 := with_rooms (set_remove sid <$> rooms (with_store db w4))
               (with_store db w4)).
  assert (sockets w0 !! sid = Some s2) as Hs0 by done.
  assert (on_disconnect sid (with_store db w4)
          = (with_sockets (delete sid (sockets (handleLeaveRoom sid w0).1))
               (handleLeaveRoom sid w0).1, (handleLeaveRoom sid w0).2)) as ->.
  { unfold on_disconnect. cbn [sockets with_store]. rewrite Hs4. fold w0.
    by destruct (handleLeaveRoom sid w0). }
  pose proof (handleLeaveRoom_not_member sid s2 R2 w0 Hs0 Hj4) as Hnot.
  destruct (handleLeaveRoom_other_room sid s2 R2 R1 w0 Hs0 Hj4) as [Hu5 Hh5];
    [done|].
  split_and!.
  - cbn [sockets with_store]. rewrite Hs4. cbn. by rewrite Hrid.
  - change (members (with_store db w4) R1) with (members w4 R1). by rewrite Hm4.
  - change (room_sockets (with_store db w4) R1) with (room_sockets w4 R1).
    by rewrite Hr4.
  - done.
  - cbn. by rewrite lookup_delete_eq.
  - done.
  - unfold members. cbn [fst roomUsers with_sockets]. rewrite Hu5.
    change (sid ∈ JsMap.keys (members w4 R1)). by rewrite Hm4.
  - cbn [fst roomHosts with_sockets]. rewrite Hh5. exact Hhost4.
Qed.

Lemma second_join_keeps_first_membership_witness :
  let w1 := (on_join_room (at_time 9000) "A" "R2" None four_sockets).1 in
  let w2 := (on_disconnect "A" w1).1 in
  sockets w2 !! "A" = None
  ∧ "A" ∈ JsMap.keys (members w2 "R1")
  ∧ roomHosts w2 !! "R1" = Some "A".
Proof.
  destruct (second_join_keeps_first_membership (at_time 9000) "A"
              (default (fresh_socket "A" None) (sockets four_sockets !! "A"))
              "R1" "R2" None four_sockets)
    as (_ & _ & _ & _ & H5 & _ & H7 & H8);
    [by vm_compute | done | done | vm_compute; repeat constructor
     | vm_compute; repeat constructor |].
  split_and!; [exact H5 | exact H7 | by rewrite H8].
Defined.

(** ** Voice events and the room named in the payload *)

Lemma voice_join_1_frame sid peer vr w :
  rooms (on_voice_join_1 sid peer vr w).1 = rooms w
  ∧ (is_Some (sockets w !! sid) →
     is_Some (sockets (on_voice_join_1 sid peer vr w).1 !! sid)).
Proof.
  unfold on_voice_join_1, update_socket.
  destruct (sockets w !! sid) as [s|] eqn:Hs; [|done].
  destruct (js_or (sk_roomId s) vr) as [R|]; [|by cbn [fst]; rewrite Hs].
  destruct (truthy_str R); [|by cbn [fst]; rewrite Hs]. cbn. split; [done|].
  intros _. rewrite lookup_alter_eq, Hs. by eexists.
Qed.

Lemma voice_leave_1_frame sid peer w :
  rooms (on_voice_leave_1 sid peer w).1 = rooms w
  ∧ (is_Some (sockets w !! sid) →
     is_Some (sockets (on_voice_leave_1 sid peer w).1 !! sid)).
Proof.
  unfold on_voice_leave_1, in_room, update_socket.
  destruct (sockets w !! sid) as [s|] eqn:Hs; [|done].
  destruct (joined_room s) as [R|]; [|by cbn [fst]; rewrite Hs].
  destruct (voiceRooms w !! R); cbn; (split; [done|]); intros _;
    rewrite lookup_alter_eq, Hs; by eexists.
Qed.

Lemma voice_mute_1_frame sid peer m w :
  rooms (on_voice_mute_1 sid peer m w).1 = rooms w
  ∧ (is_Some (sockets w !! sid) →
     is_Some (sockets (on_voice_mute_1 sid peer m w).1 !! sid)).
Proof.
  unfold on_voice_mute_1, in_room.
  destruct (sockets w !! sid) as [s|] eqn:Hs; [|done].
  destruct (joined_room s) as [R|]; [|by cbn [fst]; rewrite Hs].
  destruct (voiceRooms w !! R); cbn; by rewrite Hs.
Qed.

Lemma js_or_named R' o : truthy_str R' = true → js_or (Some R') o = Some R'.
Proof. unfold js_or. cbn. by intros ->. Qed.

(** X29. The second listeners of the voice events address the room named in
    the payload, whatever room the sender is in: a voice-join, voice-leave
    or voice-mute that names a room reaches every other socket of that room
    of the adapter, also when the sender is in another room or in none. *)
Theorem voice_events_reach_the_named_room sid s R' peer m w t :
  sockets w !! sid = Some s →
  truthy_str R' = true →
  t ∈ room_sockets w R' →
  t ≠ sid →
  Emit t (VoiceJoin peer sid None) ∈ (on_voice_join sid peer (Some R') w).2
  ∧ Emit t (VoiceLeave peer) ∈ (on_voice_leave sid peer (Some R') w).2
  ∧ Emit t (VoiceMute peer m) ∈ (on_voice_mute sid peer m (Some R') w).2.
Proof.
  intros Hs Htr Hin Hne. split_and!.
  - unfold on_voice_join, and_then.
    destruct (voice_join_1_frame sid peer (Some R') w) as [Hr Hso].
    destruct (on_voice_join_1 sid peer (Some R') w) as [w1 e1]. cbn [fst] in *.
    destruct Hso as [s1 Hs1]; [by eexists|].
    unfold on_voice_join_2, update_socket. rewrite Hs1, js_or_named, Htr by done.
    apply elem_of_app. right. apply elem_of_app. left.
    apply elem_of_socket_to. split_and!; [done| |done].
    unfold room_sockets in *. cbn. by rewrite Hr.
  - unfold on_voice_leave, and_then.
    destruct (voice_leave_1_frame sid peer w) as [Hr Hso].
    destruct (on_voice_leave_1 sid peer w) as [w1 e1]. cbn [fst] in *.
    destruct Hso as [s1 Hs1]; [by eexists|].
    unfold on_voice_leave_2, update_socket. rewrite Hs1, js_or_named, Htr by done.
    apply elem_of_app. right.
    apply elem_of_socket_to. split_and!; [done| |done].
    unfold room_sockets in *. destruct (sk_voiceParticipants s1 !! R'); cbn;
      by rewrite Hr.
  - unfold on_voice_mute, and_then.
    destruct (voice_mute_1_frame sid peer m w) as [Hr Hso].
    destruct (on_voice_mute_1 sid peer m w) as [w1 e1]. cbn [fst] in *.
    destruct Hso as [s1 Hs1]; [by eexists|].
    unfold on_voice_mute_2. rewrite Hs1, js_or_named, Htr by done.
    apply elem_of_app. right.
    apply elem_of_socket_to. split_and!; [done| |done].
    unfold room_sockets in *. by rewrite Hr.
Qed.

Lemma voice_events_reach_the_named_room_witness :
  Emit "A" (VoiceMute "peer-x" true)
  ∈ (on_voice_mute "D" "peer-x" true (Some "R1") four_sockets).2.
Proof.
  apply (voice_events_reach_the_named_room "D"
           (default (fresh_socket "D" None) (sockets four_sockets !! "D")) "R1"
           "peer-x" true four_sockets "A");
    [by vm_compute | done | vm_compute; repeat constructor | done].
Defined.
